(** * aiophyn.mqtt: the MQTT session and reconnection engine

    A shallow embedding of [src/aiophyn/mqtt.py] (class [MQTTClient]) and
    the properties of its session logic: handler registration, connection
    bootstrap, subscription acknowledgment tracking, inbound dispatch and
    the bounded reconnect cycle.

    The client object is a record that is threaded through every method.
    Effects on the outside world (transport calls, sleeps, log records,
    spawned tasks, scheduled handler calls) are appended to a trace kept in
    the record.  What the outside world does at an [await] (a transport
    callback firing, a timeout expiring, a task being cancelled) is an
    explicit input of the method that awaits. *)

From stdpp Require Import base gmap strings list fin_maps sets.
From Stdlib Require Import ZArith Ascii.
From Stdlib Require String.

#[local] Set Warnings "-register-all,-clear-no-such-hyp".
Local Open Scope Z_scope.

(** ** Python exceptions *)

(** The exception classes that the session code raises, catches or tests
    by type.  [CancelledError] and [KeyboardInterrupt] derive from
    [BaseException] only; every other class derives from [Exception]. *)
Inductive exn_class :=
| Exception_
| CancelledError
| KeyboardInterrupt
| TimeoutError
| RequestError
| UnboundLocalError
| KeyError
| TypeError
| IndexError
| OSError
| RecursionError.

#[global] Instance exn_class_eq_dec : EqDecision exn_class.
Proof. solve_decision. Defined.

(** [isinstance(e, Exception)] *)
Definition is_Exception (c : exn_class) : bool :=
  match c with
  | CancelledError | KeyboardInterrupt => false
  | _ => true
  end.

(** An exception instance: its class ([type(e)]) and its [args]. *)
Record exn := Exn { exn_type : exn_class; exn_args : list string }.

#[global] Instance exn_eq_dec : EqDecision exn.
Proof. solve_decision. Defined.

(** The outcome of a call: a value, or an exception leaving the frame. *)
Inductive result (A : Type) :=
| Returned (a : A)
| Raised (e : exn).
Arguments Returned {A} a.
Arguments Raised {A} e.

(** ** Data *)

(** Decoded JSON documents ([json.loads]). *)
Inductive json :=
| JNull
| JBool (b : bool)
| JNum (n : Z)
| JStr (s : string)
| JArr (l : list json)
| JObj (l : list (string * json)).

(** A value of [pending_acks]: [subscribe] stores the bare topic,
    [_subscribe_with_ack] stores the tuple [(topic, ack_evt)].  Events
    are objects; [ack_evt] is the identity of one. *)
Inductive pending_info :=
| OldFormat (topic : string)
| WithEvent (topic : string) (ack_evt : nat).

Definition pending_topic (p : pending_info) : string :=
  match p with OldFormat t => t | WithEvent t _ => t end.

Inductive level := DEBUG | INFO | WARNING | ERROR.

(** The log records of the methods embedded here, with their arguments. *)
Inductive log_msg :=
| Msg_already_reconnecting
| Msg_attempting_connect
| Msg_throttle (t : Z)
| Msg_attempting_reconnect
| Msg_wait_timeout
| Msg_cleaning_stale (n : nat)
| Msg_failed_initiate (topic : string) (res : Z)
| Msg_failed_resubscribe (topic : string) (res : Z)
| Msg_error_resubscribing (topic : string) (e : exn)
| Msg_unexpected_resubscribing (topic : string) (e : exn)
| Msg_failed_topics (n : nat) (failed : gset string)
| Msg_resubscribed_all (n : nat)
| Msg_connection_timeout
| Msg_connection_error (e : exn)
| Msg_max_attempts (n : nat)
| Msg_message_received (topic msg : string)
| Msg_invalid_json (msg : string)
| Msg_subscribed_to (topic : string)
| Msg_subscribed_unknown (mid : Z)
| Msg_attempting_subscribe (topic : string)
| Msg_client_connected
| Msg_run_timer
| Msg_connection_failed (rc : Z)
| Msg_not_reconnecting
| Msg_server_disconnected (rc : option Z)
| Msg_client_disconnecting
| Msg_connecting (host : string)
| Msg_processing_reconnect
| Msg_starting_timer (t : Z).

(** What the client does to the outside world, in the order it does it. *)
Inductive effect :=
| Log (lv : level) (m : log_msg)
| Sleep (t : Z)                              (* await asyncio.sleep(t) *)
| ApiRequest                                 (* await api._request(post, iot_policy) *)
| TransportWsSetOptions (path host : string) (* client.ws_set_options *)
| TransportConnect (host : string) (port : Z)(* client.connect *)
| TransportDisconnect                        (* client.disconnect *)
| TransportSubscribe (topic : string)        (* client.subscribe(topic, 0) *)
| CreateTask (handle : nat) (first : bool)   (* create_task(_do_reconnect(first)) *)
| EnsureFuture (h : nat) (device_id : option string) (data : json).

(** [paho_mqtt.MQTT_ERR_SUCCESS] *)
Definition MQTT_ERR_SUCCESS : Z := 0.

(** The attributes of [MQTTClient] that the session logic reads or writes.
    The keys of [pending_acks] are the message ids the transport returns
    from [subscribe]: an integer, or [None] when it had no socket.
    [reconnect_timer] is the timer's [_task]: [Some t] when a job sleeping
    [t] seconds is scheduled.  [disconnect_evt] is [Some b] when an event
    object is stored, [b] telling whether it is set.  [ack_sets] records
    every [ack_evt.set()] call, [next_evt] and [next_task] allocate fresh
    object identities. *)
Record MQTTClient := mkClient {
  pending_acks : gmap (option Z) pending_info;
  topics : list string;
  connect_evt : bool;
  connect_task : option nat;
  disconnect_evt : option bool;
  reconnect_evt : bool;
  host : option string;
  port : Z;
  reconnect_timer : option Z;
  _handlers : gmap string (list nat);
  ack_sets : list nat;
  next_evt : nat;
  next_task : nat;
  trace : list effect
}.

(** [MQTTClient.__init__] *)
Definition init : MQTTClient :=
  {| pending_acks := ∅; topics := []; connect_evt := false;
     connect_task := None; disconnect_evt := None; reconnect_evt := false;
     host := None; port := 443; reconnect_timer := None;
     _handlers := <["connect" := []]> (<["disconnect" := []]> (<["update" := []]> ∅));
     ack_sets := []; next_evt := 0%nat; next_task := 0%nat; trace := [] |}.

Section Setters.
Variable s : MQTTClient.

Definition set_pending_acks v := mkClient v (topics s) (connect_evt s)
  (connect_task s) (disconnect_evt s) (reconnect_evt s) (host s) (port s)
  (reconnect_timer s) (_handlers s) (ack_sets s) (next_evt s) (next_task s) (trace s).
Definition set_topics v := mkClient (pending_acks s) v (connect_evt s)
  (connect_task s) (disconnect_evt s) (reconnect_evt s) (host s) (port s)
  (reconnect_timer s) (_handlers s) (ack_sets s) (next_evt s) (next_task s) (trace s).
Definition set_connect_evt v := mkClient (pending_acks s) (topics s) v
  (connect_task s) (disconnect_evt s) (reconnect_evt s) (host s) (port s)
  (reconnect_timer s) (_handlers s) (ack_sets s) (next_evt s) (next_task s) (trace s).
Definition set_connect_task v := mkClient (pending_acks s) (topics s) (connect_evt s)
  v (disconnect_evt s) (reconnect_evt s) (host s) (port s)
  (reconnect_timer s) (_handlers s) (ack_sets s) (next_evt s) (next_task s) (trace s).
Definition set_disconnect_evt v := mkClient (pending_acks s) (topics s) (connect_evt s)
  (connect_task s) v (reconnect_evt s) (host s) (port s)
  (reconnect_timer s) (_handlers s) (ack_sets s) (next_evt s) (next_task s) (trace s).
Definition set_reconnect_evt v := mkClient (pending_acks s) (topics s) (connect_evt s)
  (connect_task s) (disconnect_evt s) v (host s) (port s)
  (reconnect_timer s) (_handlers s) (ack_sets s) (next_evt s) (next_task s) (trace s).
Definition set_host v := mkClient (pending_acks s) (topics s) (connect_evt s)
  (connect_task s) (disconnect_evt s) (reconnect_evt s) v (port s)
  (reconnect_timer s) (_handlers s) (ack_sets s) (next_evt s) (next_task s) (trace s).
Definition set_reconnect_timer v := mkClient (pending_acks s) (topics s) (connect_evt s)
  (connect_task s) (disconnect_evt s) (reconnect_evt s) (host s) (port s)
  v (_handlers s) (ack_sets s) (next_evt s) (next_task s) (trace s).
Definition set_handlers v := mkClient (pending_acks s) (topics s) (connect_evt s)
  (connect_task s) (disconnect_evt s) (reconnect_evt s) (host s) (port s)
  (reconnect_timer s) v (ack_sets s) (next_evt s) (next_task s) (trace s).
Definition set_ack_sets v := mkClient (pending_acks s) (topics s) (connect_evt s)
  (connect_task s) (disconnect_evt s) (reconnect_evt s) (host s) (port s)
  (reconnect_timer s) (_handlers s) v (next_evt s) (next_task s) (trace s).
Definition set_next_evt v := mkClient (pending_acks s) (topics s) (connect_evt s)
  (connect_task s) (disconnect_evt s) (reconnect_evt s) (host s) (port s)
  (reconnect_timer s) (_handlers s) (ack_sets s) v (next_task s) (trace s).
Definition set_next_task v := mkClient (pending_acks s) (topics s) (connect_evt s)
  (connect_task s) (disconnect_evt s) (reconnect_evt s) (host s) (port s)
  (reconnect_timer s) (_handlers s) (ack_sets s) (next_evt s) v (trace s).
Definition set_trace v := mkClient (pending_acks s) (topics s) (connect_evt s)
  (connect_task s) (disconnect_evt s) (reconnect_evt s) (host s) (port s)
  (reconnect_timer s) (_handlers s) (ack_sets s) (next_evt s) (next_task s) v.

(** Append one effect to the trace. *)
Definition emit (e : effect) := set_trace (trace s ++ [e]).
Definition log (lv : level) (m : log_msg) := emit (Log lv m).
End Setters.

(** ** Handler registration *)

(** [add_event_handler(type, target)].  The three return values are
    [False], [True] and (falling off the end) [None]. *)
Definition add_event_handler (type : string) (target : nat) (s : MQTTClient)
  : MQTTClient * option bool :=
  match _handlers s !! type with
  | None => (s, Some false)
  | Some hs =>
      if bool_decide (target ∈ hs) then (s, Some true)
      else (set_handlers s (<[type := hs ++ [target]]> (_handlers s)), None)
  end.

(** ** Strings *)

(** [s.split(sep)] for a one-character separator. *)
Fixpoint split_on (sep : ascii) (s : string) : list string :=
  match s with
  | EmptyString => [EmptyString]
  | String c s' =>
      if bool_decide (c = sep) then EmptyString :: split_on sep s'
      else match split_on sep s' with
           | [] => [String c EmptyString]
           | w :: ws => String c w :: ws
           end
  end.

(** The character class [[a-zA-Z0-9\.\-]]. *)
Definition is_host_char (c : ascii) : bool :=
  let n := nat_of_ascii c in
  ((48 <=? n) && (n <=? 57) || (65 <=? n) && (n <=? 90)
   || (97 <=? n) && (n <=? 122) || (n =? 46) || (n =? 45))%nat.

(** The longest prefix of [s] whose characters satisfy [p], and the rest. *)
Fixpoint span_chars (p : ascii -> bool) (s : string) : string * string :=
  match s with
  | EmptyString => (EmptyString, EmptyString)
  | String c s' =>
      if p c then let '(a, b) := span_chars p s' in (String c a, b)
      else (EmptyString, s)
  end.

(** [s] without the prefix [p], when it starts with [p]. *)
Fixpoint strip_prefix (p s : string) : option string :=
  match p, s with
  | EmptyString, _ => Some s
  | String a p', String b s' =>
      if bool_decide (a = b) then strip_prefix p' s' else None
  | String _ _, EmptyString => None
  end.

Definition newline : ascii := ascii_of_nat 10.

(** The [re.match] of [get_mqtt_info], giving groups 1 and 2.  The
    pattern is the scheme [wss://], a first group of one or more host
    characters, and a second group made of [/mqt], an optional [t] and
    any run of characters other than a newline.  The first group is
    greedy and its class excludes the slash, so it is the whole run of
    host characters after the scheme; the second group starts with
    [/mqt] and runs to the end of the line. *)
Definition wss_match (url : string) : option (string * string) :=
  match strip_prefix "wss://" url with
  | None => None
  | Some rest =>
      let '(h, after) := span_chars is_host_char rest in
      match h with
      | EmptyString => None
      | _ =>
          match strip_prefix "/mqt" after with
          | None => None
          | Some tail =>
              let '(line, _) := span_chars (fun c => negb (bool_decide (c = newline))) tail in
              Some (h, ("/mqt" +:+ line)%string)
          end
      end
  end.

(** [d[key]] on a decoded JSON object keeps the last binding of a
    duplicated key, as [json.loads] does. *)
Fixpoint obj_get (key : string) (l : list (string * json)) : option json :=
  match l with
  | [] => None
  | (k, v) :: l' =>
      match obj_get key l' with
      | Some v' => Some v'
      | None => if bool_decide (k = key) then Some v else None
      end
  end.

(** ** Connection bootstrap *)

(** What [await self.api._request(...)] does. *)
Inductive request_outcome :=
| ReqReturns (wss_data : json)
| ReqRaises (e : exn).

Definition unbound_local (var : string) : exn :=
  Exn UnboundLocalError
    [("cannot access local variable '" +:+ var +:+
      "' where it is not associated with a value")%string].

(** [type(v).__name__] of a decoded JSON value. *)
Definition type_name (v : json) : string :=
  match v with
  | JNull => "NoneType"
  | JBool _ => "bool"
  | JNum _ => "int"
  | JStr _ => "str"
  | JArr _ => "list"
  | JObj _ => "dict"
  end.

(** The [TypeError] of [v["wss_url"]] when [v] is not a dict. *)
Definition subscript_error (v : json) : exn :=
  Exn TypeError
    [match v with
     | JArr _ => "list indices must be integers or slices, not str"
     | JStr _ => "string indices must be integers, not 'str'"
     | _ => "'" +:+ type_name v +:+ "' object is not subscriptable"
     end%string].

(** The [TypeError] of [re.match(pattern, v)] when [v] is not a string. *)
Definition match_error (v : json) : exn :=
  Exn TypeError
    [("expected string or bytes-like object, got '" +:+ type_name v +:+ "'")%string].

(** The part of [get_mqtt_info] after its [try] statement, on the local
    variable [wss_data]: [None] while it is unbound. *)
Definition parse_mqtt_info (wss_data : option json) : result (string * string) :=
  match wss_data with
  | None => Raised (unbound_local "wss_data")
  | Some (JObj l) =>
      match obj_get "wss_url" l with
      | None => Raised (Exn KeyError ["wss_url"])
      | Some (JStr url) =>
          match wss_match url with
          | None => Raised (Exn Exception_ ["Could not find WebSocket/MQTT url"])
          | Some (h, path) => Returned (h, path)
          end
      | Some v => Raised (match_error v)
      end
  | Some v => Raised (subscript_error v)
  end.

(** ** Subscription tracker: the acknowledgment callback *)

(** [Timer.cancel] and [Timer.start], on the timer's [_task]. *)
Definition timer_cancel (s : MQTTClient) : MQTTClient :=
  set_reconnect_timer s None.

Definition timer_start (timeout : Z) (s : MQTTClient) : MQTTClient :=
  set_reconnect_timer (log s DEBUG (Msg_starting_timer timeout)) (Some timeout).

(** [if topic not in self.topics: self.topics.append(topic)] *)
Definition add_topic (topic : string) (s : MQTTClient) : MQTTClient :=
  if bool_decide (topic ∈ topics s) then s
  else set_topics s (topics s ++ [topic]).

(** [_on_subscribe(client, userdata, mid, granted_qos)] *)
Definition _on_subscribe (mid : Z) (s : MQTTClient) : MQTTClient :=
  match pending_acks s !! Some mid with
  | Some pending_info =>
      let s :=
        match pending_info with
        | WithEvent topic ack_evt =>
            let s := log s INFO (Msg_subscribed_to topic) in
            let s := add_topic topic s in
            set_ack_sets s (ack_sets s ++ [ack_evt])
        | OldFormat topic =>
            let s := log s INFO (Msg_subscribed_to topic) in
            add_topic topic s
        end in
      set_pending_acks s (delete (Some mid) (pending_acks s))
  | None => log s INFO (Msg_subscribed_unknown mid)
  end.

(** [subscribe(topic)]: [res] and [msg_id] are what the transport's
    [subscribe] returns. *)
Definition subscribe (topic : string) (res : Z) (msg_id : option Z)
    (s : MQTTClient) : MQTTClient :=
  let s := log s INFO (Msg_attempting_subscribe topic) in
  let s := emit s (TransportSubscribe topic) in
  set_pending_acks s (<[msg_id := OldFormat topic]> (pending_acks s)).

(** [_on_connect(client, user_data, flags, reason_code)] *)
Definition _on_connect (reason_code : Z) (s : MQTTClient) : MQTTClient :=
  let s := log s INFO Msg_client_connected in
  if bool_decide (reason_code = 0) then
    let s := log s INFO Msg_run_timer in
    let s := timer_cancel s in
    let s := timer_start 3600 s in
    set_connect_evt s true
  else log s INFO (Msg_connection_failed reason_code).

(** [asyncio.create_task(self._do_reconnect(first))]: a fresh task handle. *)
Definition create_task (first : bool) (s : MQTTClient) : MQTTClient * nat :=
  let h := next_task s in
  (emit (set_next_task s (S h)) (CreateTask h first), h).

(** [_on_disconnect(client, user_data, reason_code)]; [is_connected] is
    what [self.client.is_connected()] answers when it is asked. *)
Definition _on_disconnect (reason_code : option Z) (is_connected : bool)
    (s : MQTTClient) : MQTTClient :=
  let s :=
    match disconnect_evt s with
    | Some _ =>
        let s := set_disconnect_evt s (Some true) in
        log s INFO Msg_not_reconnecting
    | None =>
        if is_connected then
          let s := log s INFO (Msg_server_disconnected reason_code) in
          let s := timer_cancel s in
          match connect_task s with
          | None =>
              let '(s, h) := create_task true s in
              set_connect_task s (Some h)
          | Some _ => s
          end
        else s
    end in
  set_connect_evt s false.

(** ** Inbound dispatch, callbacks and awaits *)

(** The callbacks the transport fires into the client. *)
Inductive callback :=
| OnConnect (reason_code : Z)
| OnDisconnect (reason_code : option Z) (is_connected : bool)
| OnSubscribe (mid : Z)
| OnMessage (topic payload : string).

(** What happens while a coroutine is suspended at an [await]: the
    callbacks the event loop runs meanwhile, and whether the coroutine is
    resumed by a cancellation. *)
Record await_env := AwaitEnv {
  callbacks : list callback;
  cancelled : bool
}.

Definition cancelled_error : exn := Exn CancelledError [].

Section Session.
(** [json.loads] on a decoded payload: [None] stands for
    [JSONDecodeError].  The other failures of [json.loads], those of
    the decoding and those of the handlers are in [Inbound._on_message]. *)
Variable json_loads : string -> option json.

(** The [for h in self._handlers["update"]] loop of [_on_message].
    [data] is the local variable: [None] while it is unbound. *)
Fixpoint dispatch (hs : list nat) (device_id : option string)
    (data : option json) (s : MQTTClient) : MQTTClient * result unit :=
  match hs with
  | [] => (s, Returned ())
  | h :: hs' =>
      match data with
      | None => (s, Raised (unbound_local "data"))
      | Some d => dispatch hs' device_id data (emit s (EnsureFuture h device_id d))
      end
  end.

(** [_on_message(client, userdata, message)], on the message's topic
    and its payload once decoded to text. *)
Definition _on_message (topic payload : string) (s : MQTTClient)
  : MQTTClient * result unit :=
  let msg := payload in
  let s := log s DEBUG (Msg_message_received topic msg) in
  let '(s, data) :=
    match json_loads msg with
    | Some d => (s, Some d)
    | None => (log s INFO (Msg_invalid_json msg), None)
    end in
  let device_id : result (option string) :=
    if String.prefix "prd/app_subscriptions/" topic then
      match split_on "/" topic !! 2%nat with
      | Some seg => Returned (Some seg)
      | None => Raised (Exn IndexError ["list index out of range"])
      end
    else Returned None in
  match device_id with
  | Raised e => (s, Raised e)
  | Returned device_id =>
      match _handlers s !! "update" with
      | None => (s, Raised (Exn KeyError ["update"]))
      | Some hs => dispatch hs device_id data s
      end
  end.

(** One transport callback.  An exception leaving [_on_message] goes
    to the transport's caller, not to the coroutine that is waiting. *)
Definition run_callback (cb : callback) (s : MQTTClient) : MQTTClient :=
  match cb with
  | OnConnect rc => _on_connect rc s
  | OnDisconnect rc conn => _on_disconnect rc conn s
  | OnSubscribe mid => _on_subscribe mid s
  | OnMessage topic payload => fst (_on_message topic payload s)
  end.

Definition deliver (cbs : list callback) (s : MQTTClient) : MQTTClient :=
  foldl (fun s cb => run_callback cb s) s cbs.

(** The callbacks run while a coroutine waits for [connect_evt]: the
    final client, and whether the event was seen set on the way. *)
Fixpoint deliver_watching (cbs : list callback) (s : MQTTClient)
  : MQTTClient * bool :=
  match cbs with
  | [] => (s, connect_evt s)
  | cb :: cbs' =>
      let '(s', seen) := deliver_watching cbs' (run_callback cb s) in
      (s', connect_evt s || seen)
  end.

(** [get_mqtt_info].  [req] is what the awaited request does when the
    coroutine is left to wait for it; [cancelled w] tells that the wait
    is cut instead, by a cancellation of the task or by the expiry of a
    timeout of the caller.  The bare [except:] clause catches whatever
    comes out of the [await] (a cancellation too), builds an [Exception]
    object and drops it, there being no [raise]; the local [wss_data]
    then is unbound where it is read. *)
Definition get_mqtt_info (req : request_outcome) (w : await_env)
    (s : MQTTClient) : MQTTClient * result (string * string) :=
  let s := emit s ApiRequest in
  let s := deliver (callbacks w) s in
  let awaited := if cancelled w then ReqRaises cancelled_error else req in
  let wss_data : option json :=
    match awaited with
    | ReqReturns d => Some d
    | ReqRaises _ => None
    end in
  (s, parse_mqtt_info wss_data).

(** [connect()]: [tls_outcome] is the exception raised by the set-up
    of the TLS context and of the proxy on the transport, if any (the
    transport's [tls_set_context] raises [ValueError] when it holds a
    context already, as it does when [connect()] is called a second
    time); [connect_outcome] is the exception raised by the transport's
    blocking [connect], if any. *)
Definition connect (req : request_outcome) (w : await_env)
    (tls_outcome connect_outcome : option exn) (cw : await_env) (s : MQTTClient)
  : MQTTClient * result unit :=
  match get_mqtt_info req w s with
  | (s, Raised e) => (s, Raised e)
  | (s, Returned (h, path)) =>
      let s := set_host s (Some h) in
      let s := emit s (TransportWsSetOptions path h) in
      match tls_outcome with
      | Some e => (s, Raised e)
      | None =>
      let s := log s INFO (Msg_connecting h) in
      let s := timer_start 5 s in
      let s := emit s (TransportConnect h (port s)) in
      let s := deliver (callbacks cw) s in
      if cancelled cw then (s, Raised cancelled_error)
      else match connect_outcome with
           | Some e => (s, Raised e)
           | None => (s, Returned ())
           end
      end
  end.

(** [disconnect()] *)
Definition disconnect (s : MQTTClient) : MQTTClient :=
  let s := set_disconnect_evt s (Some false) in
  let s := log s INFO Msg_client_disconnecting in
  emit s TransportDisconnect.

(** *** Subscribe and wait for the acknowledgment *)

(** [_subscribe_with_ack] up to its [await]: either it has returned (or
    raised) already, or it waits on the event it created. *)
Inductive ack_wait :=
| AckDone (r : result (Z * option Z))
| AckWaiting (res : Z) (msg_id : option Z) (ack_evt : nat).

(** [sub] is what [self.client.subscribe(topic, 0)] does. *)
Definition subscribe_with_ack_begin (topic : string)
    (sub : result (Z * option Z)) (s : MQTTClient) : MQTTClient * ack_wait :=
  let ack_evt := next_evt s in
  let s := set_next_evt s (S ack_evt) in
  let s := emit s (TransportSubscribe topic) in
  match sub with
  | Raised e => (s, AckDone (Raised e))
  | Returned (res, msg_id) =>
      if bool_decide (res ≠ MQTT_ERR_SUCCESS) then
        (log s ERROR (Msg_failed_initiate topic res), AckDone (Returned (res, msg_id)))
      else
        (set_pending_acks s (<[msg_id := WithEvent topic ack_evt]> (pending_acks s)),
         AckWaiting res msg_id ack_evt)
  end.

(** The coroutine is resumed: by a cancellation, by its event, or by
    its own timeout when the event is still not set. *)
Definition subscribe_with_ack_resume (topic : string) (w : ack_wait)
    (is_cancelled : bool) (s : MQTTClient) : result (Z * option Z) :=
  match w with
  | AckDone r => r
  | AckWaiting res msg_id ack_evt =>
      if is_cancelled then Raised cancelled_error
      else if bool_decide (ack_evt ∈ ack_sets s) then Returned (res, msg_id)
      else Raised (Exn TimeoutError [])
  end.

(** [except asyncio.TimeoutError: raise RequestError(...)] *)
Definition timeout_to_request_error (topic : string)
    (r : result (Z * option Z)) : result (Z * option Z) :=
  match r with
  | Raised e =>
      if bool_decide (exn_type e = TimeoutError) then
        Raised (Exn RequestError [("Subscription ACK timeout for " +:+ topic)%string])
      else Raised e
  | Returned v => Returned v
  end.

Definition _subscribe_with_ack (topic : string) (sub : result (Z * option Z))
    (w : await_env) (s : MQTTClient) : MQTTClient * result (Z * option Z) :=
  let '(s, k) := subscribe_with_ack_begin topic sub s in
  match k with
  | AckDone r => (s, timeout_to_request_error topic r)
  | AckWaiting _ _ _ =>
      let s := deliver (callbacks w) s in
      (s, timeout_to_request_error topic
            (subscribe_with_ack_resume topic k (cancelled w) s))
  end.
(** *** The reconnect cycle *)

Definition max_attempts : nat := 20.

(** What the outside world does around one re-subscription: the
    transport's answer to [subscribe], the wait for the acknowledgment,
    and whether the [asyncio.timeout(5)] of the caller expires during
    that wait. *)
Record sub_env := SubEnv {
  sub_result : result (Z * option Z);
  sub_wait : await_env;
  outer_timeout : bool
}.

(** What the outside world does during one iteration of the loop.
    [set_order] stands for the order in which the set built from
    [self.topics] yields its elements; see [topics_to_subscribe]. *)
Record attempt_env := AttemptEnv {
  sleep_wait : await_env;
  request : request_outcome;
  request_wait : await_env;
  connect_outcome : option exn;
  connect_wait : await_env;
  connected_wait : await_env;
  resubscribe : string -> sub_env;
  set_order : list string
}.

(** The clean-up of [pending_acks] after a connection is observed. *)
Definition clear_stale_acks (s : MQTTClient) : MQTTClient :=
  let stale_acks := (map_to_list (pending_acks s)).*1 in
  match stale_acks with
  | [] => s
  | _ =>
      let s := log s DEBUG (Msg_cleaning_stale (length stale_acks)) in
      set_pending_acks s (foldl (fun m mid => delete mid m) (pending_acks s) stale_acks)
  end.

(** The body of [for topic in topics_to_subscribe], with its [try].
    The result tells whether the topic joins [successful_subs], and
    carries the exception that no [except] clause catches. *)
Definition resubscribe_one (topic : string) (e : sub_env) (s : MQTTClient)
  : MQTTClient * bool * option exn :=
  let waits :=
    match (subscribe_with_ack_begin topic (sub_result e) s).2 with
    | AckWaiting _ _ _ => true
    | AckDone _ => false
    end in
  let w := AwaitEnv (callbacks (sub_wait e))
                    (cancelled (sub_wait e) || outer_timeout e) in
  let '(s, r) := _subscribe_with_ack topic (sub_result e) w s in
  (* leaving [async with asyncio.timeout(5)] *)
  let r :=
    match r with
    | Raised x =>
        if bool_decide (exn_type x = CancelledError) && waits
           && outer_timeout e && negb (cancelled (sub_wait e))
        then Raised (Exn TimeoutError [])
        else r
    | Returned _ => r
    end in
  match r with
  | Returned (res, _) =>
      if bool_decide (res = MQTT_ERR_SUCCESS) then (s, true, None)
      else (log s ERROR (Msg_failed_resubscribe topic res), false, None)
  | Raised x =>
      if bool_decide (exn_type x = RequestError) then
        (log s ERROR (Msg_error_resubscribing topic x), false, None)
      else if is_Exception (exn_type x) then
        (log s ERROR (Msg_unexpected_resubscribing topic x), false, None)
      else (s, false, Some x)
  end.

Fixpoint resubscribe_all (ts : list string) (env : string -> sub_env)
    (successful_subs : gset string) (s : MQTTClient)
  : MQTTClient * gset string * option exn :=
  match ts with
  | [] => (s, successful_subs, None)
  | topic :: ts' =>
      match resubscribe_one topic (env topic) s with
      | (s, _, Some x) => (s, successful_subs, Some x)
      | (s, ok, None) =>
          resubscribe_all ts' env
            (if ok then {[topic]} ∪ successful_subs else successful_subs) s
      end
  end.

(** The first half of the [try] block of one iteration, up to the test
    of [connect_evt]: [Returned true] when the connection is observed,
    [Returned false] for the [continue] under that test, [Raised] for
    an exception. *)
Definition attempt_connect (a : attempt_env) (s : MQTTClient)
  : MQTTClient * result bool :=
  match get_mqtt_info (request a) (request_wait a) s with
  | (s, Raised e) => (s, Raised e)
  | (s, Returned (h, path)) =>
      let s := set_host s (Some h) in
      let s := emit s (TransportWsSetOptions path h) in
      let s := log s INFO Msg_attempting_reconnect in
      let s := emit s (TransportConnect h (port s)) in
      let s := deliver (callbacks (connect_wait a)) s in
      if cancelled (connect_wait a) then (s, Raised cancelled_error)
      else match connect_outcome a with
      | Some e => (s, Raised e)
      | None =>
          let '(s, seen) := deliver_watching (callbacks (connected_wait a)) s in
          if cancelled (connected_wait a) then (s, Raised cancelled_error)
          else if negb seen then (s, Raised (Exn TimeoutError []))
          else if negb (connect_evt s) then
            (log s INFO Msg_wait_timeout, Returned false)
          else (s, Returned true)
      end
  end.

(** [list(set(self.topics))]: the distinct topics, in the order in
    which the set yields them.  The language does not fix that order: it
    follows the hashes of the strings, which change from one run of the
    interpreter to the next, and the history of the set.  So the order
    is an input: [order] names strings by precedence, the topics it
    names come first, as it orders them, and the other topics follow.
    Every arrangement of the distinct topics is the answer to some
    [order] (the arrangement itself). *)
Definition topics_to_subscribe (order : list string) (s : MQTTClient) : list string :=
  let named := remove_dups (filter (fun topic => topic ∈ topics s) order) in
  named ++ remove_dups (list_difference (topics s) named).

(** The second half of the [try] block, once the connection is
    observed: the stale entries go, every topic is subscribed again,
    and the iteration ends in [break] ([Returned true]) unless an
    exception escapes the inner [try]. *)
Definition restore_subscriptions (order : list string)
    (env : string -> sub_env) (s : MQTTClient) : MQTTClient * result bool :=
  let s := clear_stale_acks s in
  let ts := topics_to_subscribe order s in
  match resubscribe_all ts env ∅ s with
  | (s, _, Some x) => (s, Raised x)
  | (s, successful_subs, None) =>
      let all : gset string := list_to_set ts in
      if bool_decide (successful_subs ≠ all) then
        let failed := all ∖ successful_subs in
        (log s WARNING (Msg_failed_topics (size failed) failed), Returned true)
      else
        (log s INFO (Msg_resubscribed_all (length ts)), Returned true)
  end.

(** The [try] block of one iteration: [Returned true] for [break],
    [Returned false] for [continue], [Raised] for an exception that
    reaches the [except] clauses. *)
Definition attempt_body (a : attempt_env) (s : MQTTClient)
  : MQTTClient * result bool :=
  match attempt_connect a s with
  | (s, Returned true) => restore_subscriptions (set_order a) (resubscribe a) s
  | other => other
  end.

(** How one iteration leaves the loop body. *)
Inductive loop_ctl :=
| Continue
| Break
| Propagate (e : exn).

(** The [except] clauses of the iteration, with the bookkeeping of
    [last_err] that keeps a repeated error from being logged again. *)
Definition attempt (a : attempt_env) (last_err : exn) (s : MQTTClient)
  : MQTTClient * exn * loop_ctl :=
  match attempt_body a s with
  | (s, Returned true) => (s, last_err, Break)
  | (s, Returned false) => (s, last_err, Continue)
  | (s, Raised e) =>
      if bool_decide (exn_type e = CancelledError) then (s, last_err, Propagate e)
      else if bool_decide (exn_type e = TimeoutError) then
        if bool_decide (exn_type last_err ≠ TimeoutError) then
          (log s WARNING Msg_connection_timeout, Exn TimeoutError [], Continue)
        else (s, last_err, Continue)
      else if is_Exception (exn_type e) then
        if bool_decide (exn_type last_err ≠ exn_type e)
           || bool_decide (exn_args last_err ≠ exn_args e) then
          (log s WARNING (Msg_connection_error e), e, Continue)
        else (s, last_err, Continue)
      else (s, last_err, Propagate e)
  end.

(** How the [while] loop was left. *)
Inductive loop_exit :=
| Exhausted          (* the condition became false *)
| Connected          (* [break] *)
| Escaped (e : exn). (* an exception *)

(** The [if not first] block at the head of an iteration: the new
    [t], and whether the sleep was cut by a cancellation. *)
Definition throttle (first : bool) (connect_attempts : nat) (t : Z)
    (w : await_env) (s : MQTTClient) : MQTTClient * Z * bool :=
  if negb first then
    let t := if (6 <? connect_attempts)%nat then 60
             else if (3 <? connect_attempts)%nat then 10
             else t in
    let s := log s DEBUG (Msg_throttle t) in
    let s := emit s (Sleep t) in
    let s := deliver (callbacks w) s in
    (s, t, cancelled w)
  else (s, t, false).

(** The [while connect_attempts < max_attempts] loop over its local
    variables; [env k] is the world's behaviour in the iteration that
    starts with [connect_attempts = k].  The result carries the final
    [connect_attempts]. *)
Fixpoint reconnect_loop (fuel : nat) (env : nat -> attempt_env)
    (first : bool) (connect_attempts : nat) (t : Z) (last_err : exn)
    (s : MQTTClient) : option (MQTTClient * nat * loop_exit) :=
  match fuel with
  | O => None
  | S fuel' =>
      if (connect_attempts <? max_attempts)%nat then
        let a := env connect_attempts in
        let '(s, t, sleep_cancelled) :=
          throttle first connect_attempts t (sleep_wait a) s in
        if sleep_cancelled then Some (s, connect_attempts, Escaped cancelled_error)
        else
          let first := false in
          let connect_attempts := S connect_attempts in
          match attempt a last_err s with
          | (s, last_err, Continue) =>
              reconnect_loop fuel' env first connect_attempts t last_err s
          | (s, _, Break) => Some (s, connect_attempts, Connected)
          | (s, _, Propagate e) => Some (s, connect_attempts, Escaped e)
          end
      else Some (s, connect_attempts, Exhausted)
  end.

(** The guard at the top of [_do_reconnect]: [None] when a cycle is in
    flight already, else the client with the flag set. *)
Definition reconnect_enter (s : MQTTClient) : option MQTTClient :=
  if reconnect_evt s then None
  else Some (set_reconnect_evt (log s INFO Msg_attempting_connect) true).

(** The [finally] clause of [_do_reconnect]. *)
Definition reconnect_finally (s : MQTTClient) : MQTTClient :=
  let s := set_reconnect_evt s false in
  let s := set_disconnect_evt s None in
  set_connect_task s None.

(** [_do_reconnect(first)] *)
Definition _do_reconnect (fuel : nat) (env : nat -> attempt_env)
    (first : bool) (s : MQTTClient) : option (MQTTClient * result unit) :=
  match reconnect_enter s with
  | None => Some (log s INFO Msg_already_reconnecting, Returned ())
  | Some s =>
      match reconnect_loop fuel env first 0 2 (Exn Exception_ []) s with
      | None => None
      | Some (s, connect_attempts, Escaped e) =>
          Some (reconnect_finally s, Raised e)
      | Some (s, connect_attempts, _) =>
          let s :=
            if (max_attempts <=? connect_attempts)%nat then
              log s ERROR (Msg_max_attempts max_attempts)
            else s in
          Some (reconnect_finally s, Returned ())
      end
  end.

(** [_process_reconnect], the job of the health timer.  [None] stands
    for a coroutine that is never resumed: the disconnect it waits for
    is not signalled. *)
Definition _process_reconnect (is_connected : bool) (w : await_env)
    (s : MQTTClient) : MQTTClient * option (result unit) :=
  let s := log s INFO Msg_processing_reconnect in
  let s := set_disconnect_evt s (Some false) in
  let '(s, resumed) :=
    if is_connected then
      let s := emit s TransportDisconnect in
      let s := deliver (callbacks w) s in
      (s, if cancelled w then Some (Raised cancelled_error)
          else match disconnect_evt s with
               | Some true => Some (Returned ())
               | _ => None
               end)
    else (s, Some (Returned ())) in
  match resumed with
  | Some (Returned _) =>
      let '(s, h) := create_task true s in
      (set_connect_task s (Some h), Some (Returned ()))
  | _ => (s, resumed)
  end.
End Session.

(** ** Reading a trace *)

(** The effects that matter for the timing of a cycle: [Some t] for a
    sleep of [t] seconds, [None] for the request that opens a connect
    attempt. *)
Definition timing_of (e : effect) : option (option Z) :=
  match e with
  | Sleep t => Some (Some t)
  | ApiRequest => Some None
  | _ => None
  end.

Definition timing (tr : list effect) : list (option Z) := omap timing_of tr.

(** The time slept before each connect attempt, attempt by attempt. *)
Fixpoint delays_from (acc : Z) (tl : list (option Z)) : list Z :=
  match tl with
  | [] => []
  | Some t :: tl' => delays_from (acc + t) tl'
  | None :: tl' => acc :: delays_from 0 tl'
  end.

Definition delays (tr : list effect) : list Z := delays_from 0 (timing tr).

(** The number of connect attempts in a trace. *)
Definition attempts_made (tr : list effect) : nat := length (delays tr).

(** The wait before the attempt that starts with
    [connect_attempts = k], in a cycle started with [first]. *)
Definition backoff (first : bool) (k : nat) : Z :=
  if first && (k =? 0)%nat then 0
  else if (6 <? k)%nat then 60
  else if (3 <? k)%nat then 10
  else 2.

(** The topics handed to the transport's [subscribe], in order. *)
Definition subscribed_of (e : effect) : option string :=
  match e with
  | TransportSubscribe topic => Some topic
  | _ => None
  end.

Definition subscribed (tr : list effect) : list string := omap subscribed_of tr.

(** The handlers scheduled, in order. *)
Definition scheduled_of (e : effect) : option nat :=
  match e with
  | EnsureFuture h _ _ => Some h
  | _ => None
  end.

Definition scheduled (tr : list effect) : list nat := omap scheduled_of tr.

(** ** The event loop around the client *)

(** The reconnect tasks of the event loop: [created] holds the handles of
    the tasks that have not run yet, [running] those that are past the
    guard of [_do_reconnect] and before its [finally] clause. *)
Record system := System {
  client : MQTTClient;
  created : gset nat;
  running : gset nat
}.

(** The handles allocated between two states of the client. *)
Definition new_tasks (s s' : MQTTClient) : gset nat :=
  list_to_set (seq (next_task s) (next_task s' - next_task s)).

(** The calls of the application into the client. *)
Inductive api_call :=
| CallConnect (req : request_outcome) (w : await_env)
    (tls_outcome connect_outcome : option exn) (cw : await_env)
| CallDisconnect
| CallSubscribe (topic : string) (res : Z) (msg_id : option Z)
| CallAddEventHandler (type : string) (target : nat).

Definition run_api (json_loads : string -> option json) (call : api_call)
    (s : MQTTClient) : MQTTClient :=
  match call with
  | CallConnect req w tls_outcome connect_outcome cw =>
      (connect json_loads req w tls_outcome connect_outcome cw s).1
  | CallDisconnect => disconnect s
  | CallSubscribe topic res msg_id => subscribe topic res msg_id s
  | CallAddEventHandler type target => (add_event_handler type target s).1
  end.

(** One turn of the event loop.  Coroutines run without interruption
    between two [await]s, so a turn is a call of the application, a
    transport callback, the timer job, a task passing (or failing) the
    guard, one iteration of a running cycle, or a running cycle reaching
    its [finally] clause. *)
Inductive step (json_loads : string -> option json) : system -> system -> Prop :=
| step_api call c cr ru :
    let c' := run_api json_loads call c in
    step json_loads (System c cr ru) (System c' (cr ∪ new_tasks c c') ru)
| step_callback cb c cr ru :
    let c' := run_callback json_loads cb c in
    step json_loads (System c cr ru) (System c' (cr ∪ new_tasks c c') ru)
| step_timer conn w c cr ru :
    let c' := (_process_reconnect json_loads conn w c).1 in
    step json_loads (System c cr ru) (System c' (cr ∪ new_tasks c c') ru)
| step_start_noop h c cr ru :
    h ∈ cr -> reconnect_enter c = None ->
    step json_loads (System c cr ru)
      (System (log c INFO Msg_already_reconnecting) (cr ∖ {[h]}) ru)
| step_start h c c' cr ru :
    h ∈ cr -> reconnect_enter c = Some c' ->
    step json_loads (System c cr ru) (System c' (cr ∖ {[h]}) (ru ∪ {[h]}))
| step_throttle h first k t w c cr ru :
    h ∈ ru ->
    let c' := (throttle json_loads first k t w c).1.1 in
    step json_loads (System c cr ru) (System c' (cr ∪ new_tasks c c') ru)
| step_attempt h a last_err c cr ru :
    h ∈ ru ->
    let c' := (attempt json_loads a last_err c).1.1 in
    step json_loads (System c cr ru) (System c' (cr ∪ new_tasks c c') ru)
| step_finish h c cr ru :
    h ∈ ru ->
    step json_loads (System c cr ru) (System (reconnect_finally c) cr (ru ∖ {[h]})).

(** ** Concrete inputs *)

(** A decoder that rejects every payload, and an [await] during which
    nothing happens. *)
Definition reject_all (payload : string) : option json := None.

Definition quiet : await_env := AwaitEnv [] false.

(** ** Reading the handler registry *)

(** A registration for [kind] is accepted when [add_event_handler] does
    not answer [False]. *)
Definition accepted (kind : string) (s : MQTTClient) : Prop :=
  forall target, (add_event_handler kind target s).2 <> Some false.

(** The event kinds of the registry built by [__init__]. *)
Definition event_kinds : list string := ["connect"; "disconnect"; "update"].

(** The registry has the keys that [__init__] gave it. *)
Definition registry_ok (s : MQTTClient) : Prop :=
  forall kind, is_Some (_handlers s !! kind) <-> kind ∈ event_kinds.

(** ** Concurrent subscriptions *)

(** Several callers of [_subscribe_with_ack], each run up to its [await]
    in the order of [calls]; the transport answers every [subscribe] with
    success and the message id paired with the topic. *)
Fixpoint begin_all (calls : list (string * Z)) (s : MQTTClient)
  : MQTTClient * list ack_wait :=
  match calls with
  | [] => (s, [])
  | (topic, mid) :: calls' =>
      let '(s, w) :=
        subscribe_with_ack_begin topic (Returned (MQTT_ERR_SUCCESS, Some mid)) s in
      let '(s, ws) := begin_all calls' s in
      (s, w :: ws)
  end.

(** The event of the caller whose subscription got the message id [m],
    when the first caller's event is [base]. *)
Fixpoint waiter_of (calls : list (string * Z)) (base : nat) (m : Z) : option nat :=
  match calls with
  | [] => None
  | (_, m') :: calls' =>
      if bool_decide (m = m') then Some base else waiter_of calls' (S base) m
  end.

(** The event that an acknowledgment for [m] sets, read off the pending
    entries. *)
Definition evt_at (p : gmap (option Z) pending_info) (m : Z) : option nat :=
  match p !! Some m with
  | Some (WithEvent _ e) => Some e
  | _ => None
  end.

(** The acknowledgments arrive, one callback each. *)
Definition acknowledge (acks : list Z) (s : MQTTClient) : MQTTClient :=
  foldl (fun s m => _on_subscribe m s) s acks.

(** Three callers and the message ids of their requests. *)
Definition three_calls : list (string * Z) :=
  [("prd/app_subscriptions/a", 11); ("prd/app_subscriptions/b", 12);
   ("prd/app_subscriptions/c", 13)].

(** A world in which every request for the connection info fails. *)
Definition fail_env (k : nat) : attempt_env :=
  AttemptEnv quiet (ReqRaises (Exn RequestError ["503 Service Unavailable"]))
    quiet None quiet quiet
    (fun _ => SubEnv (Returned (MQTT_ERR_SUCCESS, Some 1)) quiet false) [].

(** A client whose connection dropped with three topics held and two
    pending entries left over, and a world in which the next attempt
    connects, the first topic is acknowledged and the others are not. *)
Definition dropped : MQTTClient :=
  set_topics
    (set_pending_acks init
       (<[Some 3 := OldFormat "prd/app_subscriptions/x"]>
          (<[None := OldFormat "prd/app_subscriptions/y"]> ∅)))
    ["prd/app_subscriptions/b"; "prd/app_subscriptions/a"; "prd/app_subscriptions/c"].

Definition connect_env : attempt_env :=
  AttemptEnv quiet
    (ReqReturns (JObj [("wss_url", JStr "wss://broker.example.com/mqtt?token=1")]))
    quiet None quiet (AwaitEnv [OnConnect 0] false)
    (fun topic =>
       if bool_decide (topic = "prd/app_subscriptions/a")
       then SubEnv (Returned (MQTT_ERR_SUCCESS, Some 5)) (AwaitEnv [OnSubscribe 5] false) false
       else SubEnv (Returned (MQTT_ERR_SUCCESS, Some 6)) quiet true)
    ["prd/app_subscriptions/c"; "prd/app_subscriptions/a"].

(** ** The invariant of the event loop *)

(** The in-progress flag is set exactly while one task is between the
    guard and the [finally] clause of [_do_reconnect]. *)
Definition one_cycle (sys : system) : Prop :=
  if reconnect_evt (client sys) then exists h, running sys = {[h]}
  else running sys = ∅.

(** ** Frames *)

(** [s'] comes from [s] by code that leaves the reconnect flag alone and
    appends [new] to the trace. *)
Definition grows (s s' : MQTTClient) (new : list effect) : Prop :=
  reconnect_evt s' = reconnect_evt s /\ trace s' = trace s ++ new.

(** A piece of trace without a sleep, a request or a subscription. *)
Definition silent (new : list effect) : Prop :=
  timing new = [] /\ subscribed new = [].

(** ** Reading a cycle *)

(** A re-subscription that ends as re-subscriptions do: acknowledged,
    refused, timed out or failed with an [Exception]; not cut by a
    cancellation of the reconnect task. *)
Definition sub_env_ordinary (e : sub_env) : Prop :=
  cancelled (sub_wait e) = false
  /\ forall x, sub_result e = Raised x -> is_Exception (exn_type x) = true.

(** How the loop of the cycle that [_do_reconnect] runs is left; [None]
    when the guard refuses the cycle. *)
Definition cycle_exit (json_loads : string -> option json) (fuel : nat)
    (env : nat -> attempt_env) (first : bool) (s : MQTTClient)
  : option (MQTTClient * nat * loop_exit) :=
  match reconnect_enter s with
  | None => None
  | Some s => reconnect_loop json_loads fuel env first 0 2 (Exn Exception_ []) s
  end.

(** The tasks created, with the [first] argument of their coroutine. *)
Definition spawn_of (e : effect) : option (nat * bool) :=
  match e with
  | CreateTask h first => Some (h, first)
  | _ => None
  end.

Definition spawned (tr : list effect) : list (nat * bool) := omap spawn_of tr.

(** ** Reading strings *)

(** Every character of [s] satisfies [p]. *)
Fixpoint all_chars (p : ascii -> bool) (s : string) : bool :=
  match s with
  | EmptyString => true
  | String c s' => p c && all_chars p s'
  end.

Definition not_newline (c : ascii) : bool := negb (bool_decide (c = newline)).

Definition not_slash (c : ascii) : bool := negb (bool_decide (c = "/"%char)).

(** [s] is empty or starts with a character that fails [p]. *)
Definition stops_at (p : ascii -> bool) (s : string) : Prop :=
  match s with
  | EmptyString => True
  | String c _ => p c = false
  end.

#[global] Instance callback_eq_dec : EqDecision callback.
Proof. solve_decision. Defined.

(** ** Waiting for a disconnect *)

(** [disconnect_and_wait()]: [None] stands for a coroutine that is never
    resumed, the disconnect it waits for not being signalled. *)
Definition disconnect_and_wait (json_loads : string -> option json)
    (w : await_env) (s : MQTTClient) : MQTTClient * option (result unit) :=
  let s := disconnect s in
  let s := deliver json_loads (callbacks w) s in
  (s, if cancelled w then Some (Raised cancelled_error)
      else match disconnect_evt s with
           | Some true => Some (Returned ())
           | _ => None
           end).

Definition is_disconnect (cb : callback) : bool :=
  match cb with
  | OnDisconnect _ _ => true
  | _ => false
  end.

(** A world in which the first 19 attempts fail at the request and the
    twentieth connects. *)
Definition late_env (k : nat) : attempt_env :=
  if (k <? 19)%nat then fail_env k else connect_env.

(** A world in which the first two attempts fail at the request and the
    reconnect task is cancelled during the sleep before the third. *)
Definition cancel_env (k : nat) : attempt_env :=
  if (k <? 2)%nat then fail_env k
  else AttemptEnv (AwaitEnv [] true) (ReqRaises (Exn RequestError ["503"]))
         quiet None quiet quiet
         (fun _ => SubEnv (Returned (MQTT_ERR_SUCCESS, Some 1)) quiet false) [].

(** ** The socket helper *)

(** [AIOHelper] with the part of the event loop it drives: the sockets
    watched for reading and for writing, the [misc_loop] tasks created
    so far (a task is its number) and those whose cancellation was
    requested. *)
Record AIOHelper := mkHelper {
  readers : gset nat;
  writers : gset nat;
  misc_task : option nat;
  misc_created : nat;
  misc_cancelled : gset nat
}.

(** [AIOHelper.__init__] on a loop that watches nothing. *)
Definition helper_init : AIOHelper := mkHelper ∅ ∅ None 0 ∅.

(** [_on_socket_open(client, userdata, sock)] *)
Definition _on_socket_open (sock : nat) (h : AIOHelper) : AIOHelper :=
  mkHelper ({[sock]} ∪ readers h) (writers h) (Some (misc_created h))
    (S (misc_created h)) (misc_cancelled h).

(** [_on_socket_close(client, userdata, sock)] *)
Definition _on_socket_close (sock : nat) (h : AIOHelper) : AIOHelper :=
  mkHelper (readers h ∖ {[sock]}) (writers h) (misc_task h) (misc_created h)
    (match misc_task h with
     | Some t => {[t]} ∪ misc_cancelled h
     | None => misc_cancelled h
     end).

(** [_on_socket_register_write(client, userdata, sock)] *)
Definition _on_socket_register_write (sock : nat) (h : AIOHelper) : AIOHelper :=
  mkHelper (readers h) ({[sock]} ∪ writers h) (misc_task h) (misc_created h)
    (misc_cancelled h).

(** [_on_socket_unregister_write(client, userdata, sock)] *)
Definition _on_socket_unregister_write (sock : nat) (h : AIOHelper) : AIOHelper :=
  mkHelper (readers h) (writers h ∖ {[sock]}) (misc_task h) (misc_created h)
    (misc_cancelled h).

(** The socket callbacks of the transport. *)
Inductive socket_event :=
| SocketOpen (sock : nat)
| SocketClose (sock : nat)
| SocketRegisterWrite (sock : nat)
| SocketUnregisterWrite (sock : nat).

Definition socket_step (h : AIOHelper) (ev : socket_event) : AIOHelper :=
  match ev with
  | SocketOpen sock => _on_socket_open sock h
  | SocketClose sock => _on_socket_close sock h
  | SocketRegisterWrite sock => _on_socket_register_write sock h
  | SocketUnregisterWrite sock => _on_socket_unregister_write sock h
  end.

(** The transport uses one socket at a time: it opens a socket, asks for
    writes and withdraws them, closes the socket, and only then opens
    the next.  [open] is the socket in use. *)
Fixpoint one_socket_at_a_time (open : option nat) (evs : list socket_event) : Prop :=
  match evs with
  | [] => True
  | SocketOpen sock :: evs' => open = None /\ one_socket_at_a_time (Some sock) evs'
  | SocketClose sock :: evs' => open = Some sock /\ one_socket_at_a_time None evs'
  | SocketRegisterWrite sock :: evs' => open = Some sock /\ one_socket_at_a_time open evs'
  | SocketUnregisterWrite sock :: evs' => open = Some sock /\ one_socket_at_a_time open evs'
  end.

(** The socket in use after [evs]. *)
Fixpoint socket_in_use (open : option nat) (evs : list socket_event) : option nat :=
  match evs with
  | [] => open
  | SocketOpen sock :: evs' => socket_in_use (Some sock) evs'
  | SocketClose _ :: evs' => socket_in_use None evs'
  | _ :: evs' => socket_in_use open evs'
  end.

(** The [misc_loop] tasks that were created and not cancelled. *)
Definition misc_running (h : AIOHelper) : gset nat :=
  list_to_set (seq 0 (misc_created h)) ∖ misc_cancelled h.

(** [misc_loop()]: a tick is what [loop_misc()] returns and whether the
    sleep that follows is cut by a cancellation.  The result is the
    number of ticks the loop saw through when it ends, [None] when the
    ticks given do not end it. *)
Fixpoint misc_loop (ticks : list (Z * bool)) : option nat :=
  match ticks with
  | [] => None
  | (rc, sleep_cancelled) :: ticks' =>
      if bool_decide (rc = MQTT_ERR_SUCCESS) then
        if sleep_cancelled then Some 0%nat
        else S <$> misc_loop ticks'
      else Some 0%nat
  end.

(** ** The timer *)

(** The state of a job of the timer: a task running [_job]. *)
Inductive job_state := JobPending | JobCancelled | JobDone.

(** [Timer] with the tasks it created: [timer_jobs] holds, for each task
    (a task is its position), the timeout it sleeps and its state. *)
Record Timer := mkTimer {
  _task : option nat;
  timer_jobs : list (Z * job_state)
}.

(** [Timer.__init__] *)
Definition Timer_init : Timer := mkTimer None [].

(** [task.cancel()]: a task that is done or cancelled stays as it is. *)
Definition cancel_job (j : nat) (jobs : list (Z * job_state)) : list (Z * job_state) :=
  match jobs !! j with
  | Some (t, JobPending) => <[j := (t, JobCancelled)]> jobs
  | _ => jobs
  end.

(** [Timer.cancel()] *)
Definition Timer_cancel (tm : Timer) : Timer :=
  match _task tm with
  | Some j => mkTimer None (cancel_job j (timer_jobs tm))
  | None => tm
  end.

(** [Timer.start(timeout)] *)
Definition Timer_start (timeout : Z) (tm : Timer) : Timer :=
  let jobs :=
    match _task tm with
    | Some j => cancel_job j (timer_jobs tm)
    | None => timer_jobs tm
    end in
  mkTimer (Some (length jobs)) (jobs ++ [(timeout, JobPending)]).

(** The job [j] sleeps to its end and runs the callback: [Timer._job]
    returns.  The timer keeps the handle of the finished task. *)
Definition Timer_job_done (j : nat) (tm : Timer) : Timer :=
  match timer_jobs tm !! j with
  | Some (t, JobPending) => mkTimer (_task tm) (<[j := (t, JobDone)]> (timer_jobs tm))
  | _ => tm
  end.

Inductive timer_op :=
| OpStart (timeout : Z)
| OpCancel
| OpJobDone (j : nat).

Definition timer_step (tm : Timer) (op : timer_op) : Timer :=
  match op with
  | OpStart timeout => Timer_start timeout tm
  | OpCancel => Timer_cancel tm
  | OpJobDone j => Timer_job_done j tm
  end.

(** The timeouts of the jobs that are still to fire. *)
Definition timer_pending (tm : Timer) : list Z :=
  omap (fun job => match job.2 with JobPending => Some job.1 | _ => None end)
       (timer_jobs tm).

(** The jobs still to fire are at most the one the timer holds. *)
Definition timer_ok (tm : Timer) : Prop :=
  forall i t, timer_jobs tm !! i = Some (t, JobPending) -> _task tm = Some i.

(** What holds between the socket callbacks when the transport uses one
    socket at a time. *)
Definition helper_ok (open : option nat) (h : AIOHelper) : Prop :=
  (forall t, t ∈ misc_cancelled h -> (t < misc_created h)%nat)
  /\ match open with
     | Some sock =>
         readers h = {[sock]}
         /\ exists t, misc_task h = Some t /\ misc_running h = {[t]}
     | None => readers h = ∅ /\ misc_running h = ∅
     end.

(** Every pending entry is for a topic that the Topic Set holds. *)
Definition pending_known (s : MQTTClient) : Prop :=
  forall k p, pending_acks s !! k = Some p -> pending_topic p ∈ topics s.

(** The world acknowledges the re-subscription of [topic] while its
    caller waits. *)
Definition acknowledged_env (e : sub_env) : Prop :=
  exists m cbs,
    e = SubEnv (Returned (MQTT_ERR_SUCCESS, Some m)) (AwaitEnv cbs false) false
    /\ OnSubscribe m ∈ cbs.

(** A world in which the next attempt connects and every
    re-subscription is acknowledged while its caller waits. *)
Definition ack_env : attempt_env :=
  AttemptEnv quiet
    (ReqReturns (JObj [("wss_url", JStr "wss://broker.example.com/mqtt?token=1")]))
    quiet None quiet (AwaitEnv [OnConnect 0] false)
    (fun _ => SubEnv (Returned (MQTT_ERR_SUCCESS, Some 5))
                (AwaitEnv [OnSubscribe 5] false) false)
    ["prd/app_subscriptions/c"].

(** ** Reading a re-subscription *)

(** The world acknowledges a re-subscription while its caller waits:
    the transport accepts the request under a message id, the
    acknowledgment for that id is among the callbacks that run during
    the wait, and the wait is not cut. *)
Definition acknowledges (e : sub_env) : bool :=
  match sub_result e with
  | Returned (res, Some m) =>
      bool_decide (res = MQTT_ERR_SUCCESS)
      && bool_decide (OnSubscribe m ∈ callbacks (sub_wait e))
      && negb (cancelled (sub_wait e)) && negb (outer_timeout e)
  | _ => false
  end.

(** What the world did to a re-subscription that it did not acknowledge,
    as the error record of [_do_reconnect] tells it: the transport
    refused the request, the request raised, the [asyncio.timeout(5)] of
    the loop expired, or the acknowledgment did not come in time. *)
Definition resubscribe_error (topic : string) (e : sub_env) : log_msg :=
  let ack_timeout :=
    Exn RequestError [("Subscription ACK timeout for " +:+ topic)%string] in
  match sub_result e with
  | Returned (res, _) =>
      if bool_decide (res = MQTT_ERR_SUCCESS) then
        if outer_timeout e
        then Msg_unexpected_resubscribing topic (Exn TimeoutError [])
        else Msg_error_resubscribing topic ack_timeout
      else Msg_failed_resubscribe topic res
  | Raised x =>
      if bool_decide (exn_type x = TimeoutError)
      then Msg_error_resubscribing topic ack_timeout
      else if bool_decide (exn_type x = RequestError)
      then Msg_error_resubscribing topic x
      else Msg_unexpected_resubscribing topic x
  end.

(** ** The message callback and what can fail in it *)

(** What [json.loads(msg)] does: it returns the document, it raises
    [JSONDecodeError], or it raises an exception that the [except]
    clause of [_on_message] does not catch (a [RecursionError] on a
    deeply nested document). *)
Inductive loads_outcome :=
| Loaded (data : json)
| DecodeError
| LoadsRaises (e : exn).

(** [message.topic.split("/")[2]] under the prefix, [None] otherwise. *)
Definition device_id_of (topic : string) : result (option string) :=
  if String.prefix "prd/app_subscriptions/" topic then
    match split_on "/" topic !! 2%nat with
    | Some seg => Returned (Some seg)
    | None => Raised (Exn IndexError ["list index out of range"])
    end
  else Returned None.

(** [_on_message] with every call that can fail in it as an input:
    [decoded] is what [message.payload.decode()] does, [loads] what
    [json.loads] does, and [schedule h device_id data] what
    [asyncio.ensure_future(h(device_id, data))] does: [None] when the
    handler is a coroutine function of two arguments, so that the call
    gives a coroutine and the coroutine is scheduled; [Some e] when the
    call of the handler or [ensure_future] raises [e]. *)
Module Inbound.

Fixpoint dispatch (schedule : nat -> option string -> json -> option exn)
    (hs : list nat) (device_id : option string) (data : option json)
    (s : MQTTClient) : MQTTClient * result unit :=
  match hs with
  | [] => (s, Returned ())
  | h :: hs' =>
      match data with
      | None => (s, Raised (unbound_local "data"))
      | Some d =>
          match schedule h device_id d with
          | Some e => (s, Raised e)
          | None => dispatch schedule hs' device_id data
                      (emit s (EnsureFuture h device_id d))
          end
      end
  end.

Definition _on_message (decoded : result string)
    (loads : string -> loads_outcome)
    (schedule : nat -> option string -> json -> option exn)
    (topic : string) (s : MQTTClient) : MQTTClient * result unit :=
  match decoded with
  | Raised e => (s, Raised e)
  | Returned msg =>
      let s := log s DEBUG (Msg_message_received topic msg) in
      let tried : MQTTClient * result (option json) :=
        match loads msg with
        | Loaded d => (s, Returned (Some d))
        | DecodeError => (log s INFO (Msg_invalid_json msg), Returned None)
        | LoadsRaises e => (s, Raised e)
        end in
      match tried with
      | (s, Raised e) => (s, Raised e)
      | (s, Returned data) =>
          match device_id_of topic with
          | Raised e => (s, Raised e)
          | Returned device_id =>
              match _handlers s !! "update" with
              | None => (s, Raised (Exn KeyError ["update"]))
              | Some hs => dispatch schedule hs device_id data s
              end
          end
      end
  end.

End Inbound.

(** [json.loads] when it fails by [JSONDecodeError] only. *)
Definition loads_of (json_loads : string -> option json) (msg : string)
  : loads_outcome :=
  match json_loads msg with
  | Some d => Loaded d
  | None => DecodeError
  end.

(** Handlers that are coroutine functions of two arguments. *)
Definition coroutine_handlers (h : nat) (device_id : option string) (data : json)
  : option exn := None.

(** A document nested too deeply for [json.loads]. *)
Definition recursion_error : exn :=
  Exn RecursionError
    ["maximum recursion depth exceeded while decoding a JSON array from a unicode string"].

(** ** Footprints *)

(** [s'] differs from [s] only in what the connection bookkeeping owns:
    the events and the task handle, the timer, the host, the trace
    (which grows) and the task counter (which grows). *)
Definition same_core (s s' : MQTTClient) : Prop :=
  topics s' = topics s
  /\ _handlers s' = _handlers s
  /\ pending_acks s' = pending_acks s
  /\ ack_sets s' = ack_sets s
  /\ next_evt s' = next_evt s
  /\ port s' = port s
  /\ reconnect_evt s' = reconnect_evt s
  /\ trace s `prefix_of` trace s'
  /\ (next_task s <= next_task s')%nat.

(** A relation between the client before and after a piece of code that
    is kept by every elementary update the session code makes. *)
Record footprint (R : MQTTClient -> MQTTClient -> Prop) : Prop := Footprint {
  fp_refl : forall s, R s s;
  fp_trans : forall s1 s2 s3, R s1 s2 -> R s2 s3 -> R s1 s3;
  fp_benign : forall s s', same_core s s' -> R s s';
  fp_on_subscribe : forall mid s, R s (_on_subscribe mid s);
  fp_begin : forall topic sub s, R s (subscribe_with_ack_begin topic sub s).1;
  fp_subscribe : forall topic res msg_id s, R s (subscribe topic res msg_id s);
  fp_clear : forall s, R s (clear_stale_acks s);
  fp_add_handler : forall type target s, R s (add_event_handler type target s).1;
  fp_flag : forall s b, R s (set_reconnect_evt s b)
}.

(** The Topic Set only grows at its end, and stays free of duplicates. *)
Definition topics_kept (s s' : MQTTClient) : Prop :=
  topics s `prefix_of` topics s'
  /\ (NoDup (topics s) -> NoDup (topics s')).

(** Every handler collection is free of duplicates. *)
Definition handlers_nodup (s : MQTTClient) : Prop :=
  forall kind hs, _handlers s !! kind = Some hs -> NoDup hs.

(** The registry keeps its kinds, and its collections only grow at
    their end and stay free of duplicates. *)
Definition handlers_kept (s s' : MQTTClient) : Prop :=
  (forall kind hs, _handlers s !! kind = Some hs ->
     exists hs', _handlers s' !! kind = Some hs' /\ hs `prefix_of` hs')
  /\ (forall kind, is_Some (_handlers s' !! kind) -> is_Some (_handlers s !! kind))
  /\ (handlers_nodup s -> handlers_nodup s').

(** The acknowledgment events are used properly: every event that was
    set or is waited for was allocated; no event was set twice; an
    event that is waited for was not set; two pending entries never
    share an event. *)
Definition events_ok (s : MQTTClient) : Prop :=
  (forall e, e ∈ ack_sets s -> (e < next_evt s)%nat)
  /\ (forall k t e, pending_acks s !! k = Some (WithEvent t e) -> (e < next_evt s)%nat)
  /\ NoDup (ack_sets s)
  /\ (forall k t e, pending_acks s !! k = Some (WithEvent t e) -> e ∉ ack_sets s)
  /\ (forall k1 k2 t1 t2 e,
        pending_acks s !! k1 = Some (WithEvent t1 e) ->
        pending_acks s !! k2 = Some (WithEvent t2 e) -> k1 = k2).

Definition events_kept (s s' : MQTTClient) : Prop :=
  ack_sets s `prefix_of` ack_sets s'
  /\ (next_evt s <= next_evt s')%nat
  /\ (events_ok s -> events_ok s').

(** * Properties *)


(** ** Handler registry *)

Lemma registry_ok_init : registry_ok init.
Proof.
  intros kind. unfold init, event_kinds; simpl.
  rewrite !lookup_insert, lookup_empty.
  rewrite !elem_of_cons, elem_of_nil.
  repeat case_decide; subst; split; intros Hk;
    try (by eexists); try (by auto); try (by destruct Hk);
    destruct Hk as [?|[?|[?|[]]]]; by subst.
Qed.

Lemma add_event_handler_registry kind target s :
  registry_ok s -> registry_ok (add_event_handler kind target s).1.
Proof.
  intros Hok k. unfold add_event_handler.
  destruct (_handlers s !! kind) as [hs|] eqn:E; simpl; [|apply Hok].
  case_bool_decide; simpl; [apply Hok|].
  rewrite lookup_insert. case_decide; subst.
  - split; [intros _; apply Hok; by eexists | by eexists].
  - apply Hok.
Qed.

Lemma dispatch_bound hs device_id d s :
  dispatch hs device_id (Some d) s
  = (set_trace s (trace s ++ map (fun h => EnsureFuture h device_id d) hs), Returned ()).
Proof.
  revert s. induction hs as [|h hs IH]; intros s; simpl.
  - rewrite app_nil_r. by destruct s.
  - rewrite IH. simpl. by rewrite <- app_assoc.
Qed.

Lemma scheduled_app tr1 tr2 : scheduled (tr1 ++ tr2) = scheduled tr1 ++ scheduled tr2.
Proof. apply omap_app. Qed.

Lemma scheduled_ensure device_id d hs :
  scheduled (map (fun h => EnsureFuture h device_id d) hs) = hs.
Proof. unfold scheduled. induction hs as [|h hs IH]; simpl; [done|]. by f_equal. Qed.

Lemma split_on_nonempty sep s : split_on sep s <> [].
Proof.
  destruct s as [|c s]; simpl; [done|].
  case_bool_decide; [done|]. by destruct (split_on sep s).
Qed.

Lemma device_segment topic :
  String.prefix "prd/app_subscriptions/" topic = true ->
  is_Some (split_on "/" topic !! 2%nat).
Proof.
  intros H.
  repeat match type of H with
  | String.prefix _ ?t = true =>
      destruct t as [|? ?]; simpl in H; [discriminate|];
      match type of H with
      | (if ?d then _ else _) = true => destruct d; [subst|discriminate]
      end
  end.
  simpl. destruct (split_on "/" topic) as [|w ws] eqn:E; [|by eexists].
  by apply split_on_nonempty in E.
Qed.


Lemma on_message_decoded json_loads topic payload d hs s :
  json_loads payload = Some d ->
  _handlers s !! "update" = Some hs ->
  exists s' device_id,
    _on_message json_loads topic payload s = (s', Returned ())
    /\ trace s' = trace s ++ Log DEBUG (Msg_message_received topic payload)
                            :: map (fun h => EnsureFuture h device_id d) hs.
Proof.
  intros Hd Hh. unfold _on_message. rewrite Hd.
  destruct (String.prefix "prd/app_subscriptions/" topic) eqn:Hp.
  - destruct (device_segment topic Hp) as [seg ->].
    simpl. rewrite Hh, dispatch_bound. eexists _, _. split; [done|].
    simpl. by rewrite <- app_assoc.
  - simpl. rewrite Hh, dispatch_bound. eexists _, _. split; [done|].
    simpl. by rewrite <- app_assoc.
Qed.

(** C9 (as amended): the registry takes registrations for exactly the
    kinds [connect], [disconnect] and [update]; any other kind is
    answered [False] and changes nothing.  Registering a target that is
    registered already changes nothing, a new target goes to the end of
    the ordered collection, and [_on_message] schedules the [update]
    handlers in the order of that collection. *)
Theorem add_event_handler_spec json_loads kind target s :
  registry_ok s ->
  (accepted kind s <-> kind ∈ event_kinds)
  /\ (kind ∉ event_kinds -> add_event_handler kind target s = (s, Some false))
  /\ (kind ∈ event_kinds ->
      let s1 := (add_event_handler kind target s).1 in
      add_event_handler kind target s1 = (s1, Some true))
  /\ (forall hs, _handlers s !! kind = Some hs ->
      _handlers (add_event_handler kind target s).1 !! kind
      = Some (if bool_decide (target ∈ hs) then hs else hs ++ [target]))
  /\ (forall topic payload d hs,
      json_loads payload = Some d ->
      _handlers s !! "update" = Some hs ->
      exists s', _on_message json_loads topic payload s = (s', Returned ())
                 /\ scheduled (trace s') = scheduled (trace s) ++ hs).
Proof.
  intros Hok. repeat split.
  - intros Hacc. apply Hok. specialize (Hacc target).
    unfold add_event_handler in Hacc.
    destruct (_handlers s !! kind); [by eexists | done].
  - intros Hk t. apply Hok in Hk as [hs Hhs]. unfold add_event_handler.
    rewrite Hhs. by case_bool_decide.
  - intros Hk. unfold add_event_handler.
    destruct (_handlers s !! kind) as [hs|] eqn:E; [|done].
    exfalso. apply Hk, Hok. by eexists.
  - intros Hk. apply Hok in Hk as [hs Hhs]. unfold add_event_handler.
    rewrite Hhs. case_bool_decide as Hin; simpl.
    + rewrite Hhs. by rewrite bool_decide_eq_true_2.
    + rewrite lookup_insert_eq.
      rewrite bool_decide_eq_true_2; [done|]. set_solver.
  - intros hs Hhs. unfold add_event_handler. rewrite Hhs.
    case_bool_decide; simpl; [done|]. by rewrite lookup_insert_eq.
  - intros topic payload d hs Hd Hhs.
    destruct (on_message_decoded json_loads topic payload d hs s Hd Hhs) as (s' & dev & -> & Htr).
    exists s'. split; [done|]. rewrite Htr, scheduled_app. simpl.
    by rewrite scheduled_ensure.
Qed.

Lemma add_event_handler_spec_witness :
registry_ok init /\ (accepted "update" init <-> "update" ∈ event_kinds).
Proof.
split; [apply registry_ok_init|].
apply (add_event_handler_spec reject_all "update" 0%nat init registry_ok_init).
Defined.

Lemma add_event_handler_connected_refused :
add_event_handler "connected" 7%nat init = (init, Some false)
/\ ~ accepted "connected" init.
Proof.
split; [by vm_compute|].
intros H. by apply (H 7%nat).
Qed.

(** ** Inbound dispatch *)

(** C3: a payload that [json.loads] rejects is logged, and no handler is
    scheduled for it; but with at least one [update] handler registered
    the callback does not return: reading the local [data], which the
    [except] clause left unbound, raises [UnboundLocalError] out of
    [_on_message]. *)
Theorem on_message_invalid_json_raises json_loads topic payload h hs s :
  json_loads payload = None ->
  _handlers s !! "update" = Some (h :: hs) ->
  exists s',
    _on_message json_loads topic payload s = (s', Raised (unbound_local "data"))
    /\ trace s' = trace s ++ [Log DEBUG (Msg_message_received topic payload);
                              Log INFO (Msg_invalid_json payload)]
    /\ scheduled (trace s') = scheduled (trace s).
Proof.
  intros Hd Hh. unfold _on_message. rewrite Hd.
  destruct (String.prefix "prd/app_subscriptions/" topic) eqn:Hp.
  - destruct (device_segment topic Hp) as [seg ->]. simpl. rewrite Hh. simpl.
    eexists. split; [done|]. simpl. rewrite <- app_assoc. split; [done|].
    rewrite scheduled_app. simpl. by rewrite app_nil_r.
  - simpl. rewrite Hh. simpl.
    eexists. split; [done|]. simpl. rewrite <- app_assoc. split; [done|].
    rewrite scheduled_app. simpl. by rewrite app_nil_r.
Qed.

Lemma on_message_invalid_json_raises_witness :
  (_on_message reject_all "prd/app_subscriptions/device-42/state" "not json"
     (add_event_handler "update" 7%nat init).1).2
  = Raised (unbound_local "data").
Proof.
  destruct (on_message_invalid_json_raises reject_all
              "prd/app_subscriptions/device-42/state" "not json" 7%nat []
              (add_event_handler "update" 7%nat init).1 eq_refl eq_refl)
    as (s' & -> & _).
  reflexivity.
Defined.

(** Without a registered handler the loop body never runs and the
    callback returns. *)
Lemma on_message_invalid_json_no_handler json_loads topic payload s :
  json_loads payload = None ->
  _handlers s !! "update" = Some [] ->
  (_on_message json_loads topic payload s).2 = Returned ().
Proof.
  intros Hd Hh. unfold _on_message. rewrite Hd.
  destruct (String.prefix "prd/app_subscriptions/" topic) eqn:Hp.
  - destruct (device_segment topic Hp) as [seg ->]. simpl. by rewrite Hh.
  - simpl. by rewrite Hh.
Qed.

(** ** Connection bootstrap *)

(** C4: when the awaited request raises, whatever it raises,
    [get_mqtt_info] neither re-raises it nor raises the [Exception] that
    its [except] clause builds: the caller gets the [UnboundLocalError]
    of the local [wss_data].  A cancellation that lands on the [await]
    ends the same way. *)
Theorem get_mqtt_info_request_failure json_loads e req cbs w s :
  (get_mqtt_info json_loads (ReqRaises e) w s).2
  = Raised (unbound_local "wss_data")
  /\ (get_mqtt_info json_loads req (AwaitEnv cbs true) s).2
     = Raised (unbound_local "wss_data")
  /\ exn_type (unbound_local "wss_data") = UnboundLocalError.
Proof.
  unfold get_mqtt_info. simpl. repeat split. by destruct (cancelled w).
Qed.

(** A failed fetch never yields a result, and what it raises is an
    [Exception]: the [except Exception] clause of the reconnect loop
    catches it. *)
Lemma get_mqtt_info_failure_raises json_loads req w s :
  (cancelled w = true \/ (exists e, req = ReqRaises e)
   \/ (exists d, req = ReqReturns d /\
        forall l url h p, d = JObj l -> obj_get "wss_url" l = Some (JStr url) ->
                          wss_match url <> Some (h, p))) ->
  exists x, (get_mqtt_info json_loads req w s).2 = Raised x
            /\ is_Exception (exn_type x) = true.
Proof.
  intros H. unfold get_mqtt_info. simpl.
  destruct (cancelled w) eqn:Hc; [by eexists|].
  destruct H as [H|[[e ->]|(d & -> & H)]]; [done|by eexists|].
  simpl. destruct d as [| | | |?|l]; try by eexists.
  destruct (obj_get "wss_url" l) as [v|] eqn:Ho; [|by eexists].
  destruct v as [| | |url| |]; try by eexists.
  destruct (wss_match url) as [[h p]|] eqn:Hm; [|by eexists].
  by destruct (H l url h p).
Qed.

(** ** Subscription tracker *)

Lemma add_topic_topics topic s :
  topics (add_topic topic s)
  = if bool_decide (topic ∈ topics s) then topics s else topics s ++ [topic].
Proof. unfold add_topic. by case_bool_decide. Qed.

Lemma add_topic_NoDup topic s : NoDup (topics s) -> NoDup (topics (add_topic topic s)).
Proof.
  intros Hnd. rewrite add_topic_topics. case_bool_decide; [done|].
  apply NoDup_app. repeat split; [done| |apply NoDup_singleton].
  intros x Hx Hx'. apply list_elem_of_singleton in Hx'. by subst.
Qed.

Lemma on_subscribe_topics mid s :
  topics (_on_subscribe mid s)
  = match pending_acks s !! Some mid with
    | Some p => topics (add_topic (pending_topic p) s)
    | None => topics s
    end.
Proof.
  unfold _on_subscribe. destruct (pending_acks s !! Some mid) as [[t|t e]|]; simpl; [| |done].
  - rewrite !add_topic_topics. done.
  - rewrite !add_topic_topics. done.
Qed.

Lemma on_subscribe_pending mid s :
  pending_acks (_on_subscribe mid s) = delete (Some mid) (pending_acks s).
Proof.
  unfold _on_subscribe. destruct (pending_acks s !! Some mid) as [[t|t e]|] eqn:E; simpl.
  - unfold add_topic. by case_bool_decide.
  - unfold add_topic. by case_bool_decide.
  - symmetry. by apply delete_id.
Qed.

Lemma on_subscribe_NoDup mid s : NoDup (topics s) -> NoDup (topics (_on_subscribe mid s)).
Proof.
  intros Hnd. rewrite on_subscribe_topics.
  destruct (pending_acks s !! Some mid); [by apply add_topic_NoDup|done].
Qed.

Lemma add_topic_mono x topic s : x ∈ topics s -> x ∈ topics (add_topic topic s).
Proof. rewrite add_topic_topics. case_bool_decide; set_solver. Qed.

Lemma add_topic_elem topic s : topic ∈ topics (add_topic topic s).
Proof. rewrite add_topic_topics. case_bool_decide; set_solver. Qed.

Lemma on_subscribe_mono x mid s : x ∈ topics s -> x ∈ topics (_on_subscribe mid s).
Proof.
  intros Hx. rewrite on_subscribe_topics.
  destruct (pending_acks s !! Some mid); [by apply add_topic_mono|done].
Qed.

Lemma on_subscribe_adds mid p s :
  pending_acks s !! Some mid = Some p -> pending_topic p ∈ topics (_on_subscribe mid s).
Proof. intros Hp. rewrite on_subscribe_topics, Hp. apply add_topic_elem. Qed.

Lemma count_occ_once (l : list string) x :
  NoDup l -> x ∈ l -> count_occ String.string_dec l x = 1%nat.
Proof.
  intros Hnd Hin. apply NoDup_ListNoDup in Hnd.
  pose proof (proj1 (List.NoDup_count_occ String.string_dec l) Hnd x).
  apply list_elem_of_In in Hin.
  pose proof (proj1 (List.count_occ_In String.string_dec l x) Hin). lia.
Qed.

(** C8: the acknowledgment callback keeps the Topic Set free of
    duplicates; an acknowledgment for a topic that is in the set already
    leaves the set as it is; and after two subscriptions to one topic,
    both acknowledged (in either order), the topic is in the set once. *)
Theorem topic_set_idempotent s :
  NoDup (topics s) ->
  (forall mid, NoDup (topics (_on_subscribe mid s)))
  /\ (forall mid p, pending_acks s !! Some mid = Some p ->
        pending_topic p ∈ topics s ->
        topics (_on_subscribe mid s) = topics s)
  /\ (forall topic res1 res2 m1 m2,
        m1 <> m2 ->
        let s2 := subscribe topic res2 (Some m2) (subscribe topic res1 (Some m1) s) in
        let after12 := _on_subscribe m2 (_on_subscribe m1 s2) in
        let after21 := _on_subscribe m1 (_on_subscribe m2 s2) in
        count_occ String.string_dec (topics after12) topic = 1%nat
        /\ count_occ String.string_dec (topics after21) topic = 1%nat).
Proof.
  intros Hnd. split; [|split].
  - intros mid. by apply on_subscribe_NoDup.
  - intros mid p Hp Hin. rewrite on_subscribe_topics, Hp, add_topic_topics.
    by rewrite bool_decide_eq_true_2.
  - intros topic res1 res2 m1 m2 Hne s2 after12 after21.
    assert (H1 : pending_acks s2 !! Some m1 = Some (OldFormat topic)).
    { subst s2. simpl. rewrite lookup_insert_ne by congruence.
      by rewrite lookup_insert_eq. }
    assert (H2 : pending_acks s2 !! Some m2 = Some (OldFormat topic)).
    { subst s2. simpl. by rewrite lookup_insert_eq. }
    assert (Hnd2 : NoDup (topics s2)) by done.
    split; apply count_occ_once.
    + by do 2 apply on_subscribe_NoDup.
    + apply on_subscribe_mono. apply (on_subscribe_adds m1 _ _ H1).
    + by do 2 apply on_subscribe_NoDup.
    + apply on_subscribe_mono. apply (on_subscribe_adds m2 _ _ H2).
Qed.

Lemma topic_set_idempotent_witness :
  NoDup (topics init)
  /\ count_occ String.string_dec
       (topics (_on_subscribe 2 (_on_subscribe 1
          (subscribe "prd/app_subscriptions/d1" 0 (Some 2)
             (subscribe "prd/app_subscriptions/d1" 0 (Some 1) init))))) 
       "prd/app_subscriptions/d1" = 1%nat.
Proof.
  assert (H : NoDup (topics init)) by apply NoDup_nil_2.
  split; [exact H|].
  apply (topic_set_idempotent init H). 
  discriminate.
Defined.

(** ** Acknowledgment correlation *)

Lemma on_subscribe_ack_sets mid s :
  ack_sets (_on_subscribe mid s)
  = ack_sets s ++ option_list (evt_at (pending_acks s) mid).
Proof.
  unfold _on_subscribe, evt_at.
  destruct (pending_acks s !! Some mid) as [[t|t e]|]; simpl.
  - unfold add_topic. case_bool_decide; simpl; by rewrite app_nil_r.
  - unfold add_topic. by case_bool_decide.
  - by rewrite app_nil_r.
Qed.

Lemma evt_at_delete_ne p m m' : m <> m' -> evt_at (delete (Some m) p) m' = evt_at p m'.
Proof. intros Hne. unfold evt_at. rewrite lookup_delete_ne by congruence. done. Qed.

Lemma omap_ext_in {A B} (f g : A -> option B) (l : list A) :
  (forall x, x ∈ l -> f x = g x) -> omap f l = omap g l.
Proof.
  induction l as [|x l IH]; intros H; csimpl; [done|].
  rewrite (H x) by set_solver. rewrite IH; [done|]. intros y Hy. apply H. set_solver.
Qed.

Lemma acknowledge_cons m acks s :
  acknowledge (m :: acks) s = acknowledge acks (_on_subscribe m s).
Proof. done. Qed.

Lemma acknowledge_ack_sets acks s :
  NoDup acks ->
  ack_sets (acknowledge acks s)
  = ack_sets s ++ omap (evt_at (pending_acks s)) acks.
Proof.
  revert s. induction acks as [|m acks IH]; intros s Hnd.
  - simpl. by rewrite app_nil_r.
  - apply NoDup_cons in Hnd as [Hm Hnd]. rewrite acknowledge_cons.
    rewrite IH by done. rewrite on_subscribe_ack_sets, on_subscribe_pending.
    rewrite <- app_assoc. f_equal.
    rewrite (omap_ext_in (evt_at (delete (Some m) (pending_acks s)))
                         (evt_at (pending_acks s))).
    + simpl. by destruct (evt_at (pending_acks s) m).
    + intros x Hx. apply evt_at_delete_ne. intros ->. done.
Qed.

Lemma acknowledge_pending acks s k :
  pending_acks (acknowledge acks s) !! k
  = if bool_decide (k ∈ Some <$> acks) then None else pending_acks s !! k.
Proof.
  revert s. induction acks as [|m acks IH]; intros s.
  - case_bool_decide as H; [|done]. by apply elem_of_nil in H.
  - rewrite acknowledge_cons, IH, on_subscribe_pending. rewrite fmap_cons.
    destruct (decide (k = Some m)) as [->|Hne].
    + rewrite lookup_delete_eq. rewrite (bool_decide_eq_true_2 (_ ∈ _ :: _)) by set_solver.
      by case_bool_decide.
    + rewrite lookup_delete_ne by done.
      case_bool_decide as H1; case_bool_decide as H2; try done; set_solver.
Qed.

Lemma begin_all_fields calls s :
  ack_sets (begin_all calls s).1 = ack_sets s
  /\ topics (begin_all calls s).1 = topics s
  /\ next_evt (begin_all calls s).1 = (next_evt s + length calls)%nat
  /\ (forall k, k ∉ Some <$> calls.*2 ->
       pending_acks (begin_all calls s).1 !! k = pending_acks s !! k).
Proof.
  revert s. induction calls as [|[t m] calls IH]; intros s.
  - simpl. repeat split. lia.
  - simpl. unfold subscribe_with_ack_begin. simpl.
    match goal with |- context [begin_all calls ?s0] =>
      specialize (IH s0); destruct (begin_all calls s0) as [s' ws] end.
    simpl in *. destruct IH as (Ha & Ht & Hn & Hp). repeat split; try done.
    + lia.
    + intros k Hk. rewrite Hp by set_solver. rewrite lookup_insert_ne; [done|]. set_solver.
Qed.

Lemma begin_all_waiters calls s :
  (begin_all calls s).2
  = imap (fun i c => AckWaiting MQTT_ERR_SUCCESS (Some c.2) (next_evt s + i)%nat) calls.
Proof.
  revert s. induction calls as [|[t m] calls IH]; intros s; [done|].
  simpl. unfold subscribe_with_ack_begin. simpl.
  match goal with |- context [begin_all calls ?s0] =>
    specialize (IH s0); destruct (begin_all calls s0) as [s' ws] end.
  simpl in *. subst ws. f_equal; [by rewrite Nat.add_0_r|].
  apply imap_ext. intros i c _. simpl. f_equal. lia.
Qed.

Lemma begin_all_evt_at calls s m :
  NoDup calls.*2 -> m ∈ calls.*2 ->
  evt_at (pending_acks (begin_all calls s).1) m = waiter_of calls (next_evt s) m.
Proof.
  revert s. induction calls as [|[t m0] calls IH]; intros s Hnd Hin.
  - by apply elem_of_nil in Hin.
  - simpl in Hnd. apply NoDup_cons in Hnd as [Hm0 Hnd].
    simpl. unfold subscribe_with_ack_begin. simpl.
    match goal with |- context [begin_all calls ?s0] =>
      pose proof (begin_all_fields calls s0) as (_ & _ & _ & Hp);
      specialize (IH s0); destruct (begin_all calls s0) as [s' ws] end.
    simpl in *. case_bool_decide as Hmm.
    + subst m0. unfold evt_at. rewrite Hp.
      * by rewrite lookup_insert_eq.
      * intros Hx. apply Hm0. apply list_elem_of_fmap in Hx as (y & Hy & Hy').
        by simplify_eq.
    + apply IH; [done|]. set_solver.
Qed.

Lemma waiters_in_order calls base :
  NoDup calls.*2 ->
  omap (waiter_of calls base) calls.*2 = seq base (length calls).
Proof.
  revert base. induction calls as [|[t m] calls IH]; intros base Hnd; [done|].
  simpl in Hnd. apply NoDup_cons in Hnd as [Hm Hnd].
  simpl. rewrite bool_decide_eq_true_2 by done. f_equal.
  rewrite <- IH by done. apply omap_ext_in. intros x Hx.
  rewrite bool_decide_eq_false_2; [done|]. by intros ->.
Qed.

Lemma waiter_of_lookup calls base i topic m :
  NoDup calls.*2 -> calls !! i = Some (topic, m) ->
  waiter_of calls base m = Some (base + i)%nat.
Proof.
  revert base i. induction calls as [|[t m0] calls IH]; intros base i Hnd Hi; [done|].
  simpl in Hnd. apply NoDup_cons in Hnd as [Hm0 Hnd].
  destruct i as [|i]; simpl in *.
  - simplify_eq. rewrite bool_decide_eq_true_2 by done. f_equal. lia.
  - rewrite bool_decide_eq_false_2.
    + rewrite (IH (S base) i) by done. f_equal. lia.
    + intros ->. apply Hm0. apply list_elem_of_fmap. exists (topic, m0).
      split; [done|]. by eapply list_elem_of_lookup_2.
Qed.

Lemma count_occ_once_nat (l : list nat) x :
  NoDup l -> x ∈ l -> count_occ Nat.eq_dec l x = 1%nat.
Proof.
  intros Hnd Hin. apply NoDup_ListNoDup in Hnd.
  pose proof (proj1 (List.NoDup_count_occ Nat.eq_dec l) Hnd x).
  apply list_elem_of_In in Hin.
  pose proof (proj1 (List.count_occ_In Nat.eq_dec l x) Hin). lia.
Qed.

(** C5: several callers subscribe with acknowledgment and wait; the
    transport gave their requests distinct message ids.  Whatever the
    order in which the acknowledgments come back, each acknowledgment
    sets the event of the caller whose message id it carries and no
    other ([waiter_of]), so every caller's event is set exactly once;
    the caller then resumes with its own message id, and its pending
    entry is gone. *)
Theorem ack_correlation (calls : list (string * Z)) (acks : list Z) s :
  NoDup calls.*2 ->
  acks ≡ₚ calls.*2 ->
  let base := next_evt s in
  let s1 := (begin_all calls s).1 in
  let s2 := acknowledge acks s1 in
  let new : list nat := omap (waiter_of calls base) acks in
  (begin_all calls s).2
    = imap (fun i c => AckWaiting MQTT_ERR_SUCCESS (Some c.2) (base + i)%nat) calls
  /\ ack_sets s2 = ack_sets s ++ new
  /\ (forall i topic m, calls !! i = Some (topic, m) ->
        waiter_of calls base m = Some (base + i)%nat
        /\ count_occ Nat.eq_dec new (base + i)%nat = 1%nat
        /\ pending_acks s2 !! Some m = None
        /\ subscribe_with_ack_resume topic
             (AckWaiting MQTT_ERR_SUCCESS (Some m) (base + i)%nat) false s2
           = Returned (MQTT_ERR_SUCCESS, Some m)).
Proof.
  intros Hnd Hperm base s1 s2 new.
  assert (Hnda : NoDup acks) by (by rewrite Hperm).
  assert (Hsets : ack_sets s2 = ack_sets s ++ new).
  { subst s1 s2 new. rewrite acknowledge_ack_sets by done.
    destruct (begin_all_fields calls s) as (-> & _). f_equal.
    apply omap_ext_in. intros m Hm. apply begin_all_evt_at; [done|].
    by rewrite <- Hperm. }
  assert (Hnew : new ≡ₚ seq base (length calls)).
  { subst new. rewrite Hperm. by rewrite waiters_in_order. }
  split; [apply begin_all_waiters|]. split; [done|].
  intros i topic m Hi.
  assert (Hlt : (i < length calls)%nat) by (by eapply lookup_lt_Some).
  assert (Hin : (base + i)%nat ∈ new).
  { rewrite Hnew. apply elem_of_seq. lia. }
  assert (Hndnew : NoDup new) by (rewrite Hnew; apply NoDup_seq).
  repeat split.
  - by eapply waiter_of_lookup.
  - by apply count_occ_once_nat.
  - subst s1 s2. rewrite acknowledge_pending. rewrite bool_decide_eq_true_2; [done|].
    apply list_elem_of_fmap. exists m. split; [done|]. rewrite Hperm.
    apply list_elem_of_fmap. exists (topic, m). split; [done|].
    by eapply list_elem_of_lookup_2.
  - unfold subscribe_with_ack_resume. rewrite Hsets.
    rewrite bool_decide_eq_true_2; [done|]. set_solver.
Qed.

Lemma ack_correlation_witness :
  NoDup three_calls.*2
  /\ [13; 11; 12] ≡ₚ three_calls.*2
  /\ ack_sets (acknowledge [13; 11; 12] (begin_all three_calls init).1) = [2; 0; 1]%nat.
Proof.
  assert (Hnd : NoDup three_calls.*2) by (apply (bool_decide_unpack _); by vm_compute).
  assert (Hp : [13; 11; 12] ≡ₚ three_calls.*2) by (apply (bool_decide_unpack _); by vm_compute).
  split; [exact Hnd|]. split; [exact Hp|].
  destruct (ack_correlation three_calls [13; 11; 12] init Hnd Hp) as (_ & H & _).
  exact H.
Defined.

(** ** Frames of the callbacks and of the steps of a cycle *)

Lemma timing_app tr1 tr2 : timing (tr1 ++ tr2) = timing tr1 ++ timing tr2.
Proof. apply omap_app. Qed.

Lemma subscribed_app tr1 tr2 : subscribed (tr1 ++ tr2) = subscribed tr1 ++ subscribed tr2.
Proof. apply omap_app. Qed.

Lemma silent_app n1 n2 : silent n1 -> silent n2 -> silent (n1 ++ n2).
Proof.
  intros [H1 H2] [H3 H4]. split.
  - by rewrite timing_app, H1, H3.
  - by rewrite subscribed_app, H2, H4.
Qed.

Lemma grows_refl s : grows s s [].
Proof. split; [done|]. by rewrite app_nil_r. Qed.

Lemma grows_trans s s1 s2 n1 n2 :
  grows s s1 n1 -> grows s1 s2 n2 -> grows s s2 (n1 ++ n2).
Proof.
  intros [H1 H2] [H3 H4]. split; [congruence|].
  by rewrite H4, H2, app_assoc.
Qed.

(** Closes [exists new, grows s s' new /\ silent new] when [s'] is [s]
    under a fixed number of setters. *)
Ltac frame_now :=
  eexists; split;
  [ split; [ reflexivity
           | simpl; rewrite <- ?app_assoc;
             first [ reflexivity | symmetry; apply app_nil_r ] ]
  | split; reflexivity ].

Lemma add_topic_frame topic s : exists new, grows s (add_topic topic s) new /\ silent new.
Proof. unfold add_topic. case_bool_decide; frame_now. Qed.

Lemma on_subscribe_frame mid s :
  exists new, grows s (_on_subscribe mid s) new /\ silent new.
Proof.
  unfold _on_subscribe, add_topic.
  destruct (pending_acks s !! Some mid) as [[t|t e]|]; simpl;
    try case_bool_decide; frame_now.
Qed.

Lemma on_connect_frame rc s : exists new, grows s (_on_connect rc s) new /\ silent new.
Proof. unfold _on_connect. case_bool_decide; frame_now. Qed.

Lemma on_disconnect_frame rc conn s :
  exists new, grows s (_on_disconnect rc conn s) new /\ silent new.
Proof.
  unfold _on_disconnect.
  destruct (disconnect_evt s), conn; simpl; try destruct (connect_task s); frame_now.
Qed.

Lemma dispatch_frame hs device_id data s :
  exists new, grows s (dispatch hs device_id data s).1 new /\ silent new.
Proof.
  revert s. induction hs as [|h hs IH]; intros s; simpl; [frame_now|].
  destruct data as [d|]; [|frame_now].
  destruct (IH (emit s (EnsureFuture h device_id d))) as (new & Hg & Hs).
  exists ([EnsureFuture h device_id d] ++ new). split.
  - eapply grows_trans; [|exact Hg]. by split.
  - by apply silent_app.
Qed.

Lemma on_message_frame json_loads topic payload s :
  exists new, grows s (_on_message json_loads topic payload s).1 new /\ silent new.
Proof.
  unfold _on_message.
  set (s0 := log s DEBUG (Msg_message_received topic payload)).
  assert (H0 : exists new, grows s s0 new /\ silent new) by (subst s0; frame_now).
  set (sd := match json_loads payload with
             | Some d => (s0, Some d)
             | None => (log s0 INFO (Msg_invalid_json payload), None)
             end).
  assert (H1 : exists new, grows s sd.1 new /\ silent new).
  { subst sd. destruct (json_loads payload); [exact H0|]. subst s0. frame_now. }
  destruct sd as [s1 data]. simpl in H1. destruct H1 as (n1 & Hg1 & Hs1).
  destruct (if String.prefix _ topic then _ else _) as [dev|e];
    [|exists n1; split; [exact Hg1|exact Hs1]].
  destruct (_handlers s1 !! "update") as [hs|];
    [|exists n1; split; [exact Hg1|exact Hs1]].
  destruct (dispatch_frame hs dev data s1) as (n2 & Hg2 & Hs2).
  exists (n1 ++ n2). split; [by eapply grows_trans|by apply silent_app].
Qed.

Lemma run_callback_frame json_loads cb s :
  exists new, grows s (run_callback json_loads cb s) new /\ silent new.
Proof.
  destruct cb; simpl.
  - apply on_connect_frame.
  - apply on_disconnect_frame.
  - apply on_subscribe_frame.
  - apply on_message_frame.
Qed.

Lemma deliver_frame json_loads cbs s :
  exists new, grows s (deliver json_loads cbs s) new /\ silent new.
Proof.
  revert s. induction cbs as [|cb cbs IH]; intros s; simpl.
  - exists []. split; [apply grows_refl|done].
  - destruct (run_callback_frame json_loads cb s) as (n1 & Hg1 & Hs1).
    destruct (IH (run_callback json_loads cb s)) as (n2 & Hg2 & Hs2).
    exists (n1 ++ n2). split; [by eapply grows_trans|by apply silent_app].
Qed.

Lemma deliver_watching_state json_loads cbs s :
  (deliver_watching json_loads cbs s).1 = deliver json_loads cbs s.
Proof.
  revert s. induction cbs as [|cb cbs IH]; intros s; simpl; [done|].
  specialize (IH (run_callback json_loads cb s)).
  by destruct (deliver_watching json_loads cbs (run_callback json_loads cb s)).
Qed.

Lemma get_mqtt_info_frame json_loads req w s :
  exists new, grows s (get_mqtt_info json_loads req w s).1 (ApiRequest :: new)
              /\ silent new.
Proof.
  unfold get_mqtt_info. simpl.
  destruct (deliver_frame json_loads (callbacks w) (emit s ApiRequest)) as (n & Hg & Hs).
  exists n. split; [|done].
  change (ApiRequest :: n) with ([ApiRequest] ++ n).
  eapply grows_trans; [|exact Hg]. by split.
Qed.

Lemma subscribe_with_ack_begin_frame topic sub s :
  exists new, grows s (subscribe_with_ack_begin topic sub s).1
                (TransportSubscribe topic :: new) /\ silent new.
Proof.
  unfold subscribe_with_ack_begin.
  destruct sub as [[res mid]|e]; simpl; [case_bool_decide|]; simpl.
  - exists [Log ERROR (Msg_failed_initiate topic res)]. repeat split.
    simpl. by rewrite <- app_assoc.
  - exists []. by repeat split.
  - exists []. by repeat split.
Qed.

Lemma subscribe_with_ack_frame json_loads topic sub w s :
  exists new, grows s (_subscribe_with_ack json_loads topic sub w s).1
                (TransportSubscribe topic :: new) /\ silent new.
Proof.
  unfold _subscribe_with_ack.
  destruct (subscribe_with_ack_begin_frame topic sub s) as (n & Hg & Hs).
  destruct (subscribe_with_ack_begin topic sub s) as [s1 k]. simpl in Hg.
  destruct k as [r|res mid e]; simpl; [by exists n|].
  destruct (deliver_frame json_loads (callbacks w) s1) as (n2 & Hg2 & Hs2).
  exists (n ++ n2). split; [|by apply silent_app].
  change (TransportSubscribe topic :: n ++ n2)
    with ((TransportSubscribe topic :: n) ++ n2).
  by eapply grows_trans.
Qed.

Lemma resubscribe_one_frame json_loads topic e s :
  exists new, grows s (resubscribe_one json_loads topic e s).1.1
                (TransportSubscribe topic :: new) /\ silent new.
Proof.
  unfold resubscribe_one.
  match goal with |- context [_subscribe_with_ack json_loads topic ?sub ?w s] =>
    destruct (subscribe_with_ack_frame json_loads topic sub w s) as (n & Hg & Hs);
    destruct (_subscribe_with_ack json_loads topic sub w s) as [s1 r] end.
  simpl in Hg.
  set (r' := match r with Raised x => _ | Returned _ => r end).
  clearbody r'. 
  assert (Hlog : forall m, exists new, grows s (log s1 ERROR m) (TransportSubscribe topic :: new) /\ silent new).
  { intros m. exists (n ++ [Log ERROR m]). split; [|by apply silent_app].
    change (TransportSubscribe topic :: n ++ [Log ERROR m])
      with ((TransportSubscribe topic :: n) ++ [Log ERROR m]).
    eapply grows_trans; [exact Hg|]. by split. }
  destruct r' as [[res mid]|x]; repeat case_bool_decide;
    try match goal with |- context [is_Exception ?c] => destruct (is_Exception c) end;
    simpl; try apply Hlog; by exists n.
Qed.

(** The topics handed to [subscribe] by the re-subscription loop are the
    topics of its list, in order, as long as no exception escapes. *)
Lemma resubscribe_all_frame json_loads ts env succ s :
  exists new,
    grows s (resubscribe_all json_loads ts env succ s).1.1 new
    /\ timing new = []
    /\ ((resubscribe_all json_loads ts env succ s).2 = None -> subscribed new = ts).
Proof.
  revert succ s. induction ts as [|t ts IH]; intros succ s; simpl.
  - exists []. split; [apply grows_refl|done].
  - destruct (resubscribe_one_frame json_loads t (env t) s) as (n & Hg & Hs1 & Hs2).
    destruct (resubscribe_one json_loads t (env t) s) as [[s1 ok] [x|]]; simpl in Hg; simpl.
    + exists (TransportSubscribe t :: n). split; [exact Hg|]. split; [|done].
      change (TransportSubscribe t :: n) with ([TransportSubscribe t] ++ n).
      by rewrite timing_app, Hs1.
    + match goal with |- context [resubscribe_all json_loads ts env ?sc s1] =>
        destruct (IH sc s1) as (n2 & Hg2 & Ht2 & Hsub2) end.
      exists ((TransportSubscribe t :: n) ++ n2). split; [by eapply grows_trans|].
      split.
      * change (TransportSubscribe t :: n) with ([TransportSubscribe t] ++ n).
        by rewrite !timing_app, Ht2, Hs1.
      * intros Hnone. rewrite subscribed_app, Hsub2 by done.
        change (TransportSubscribe t :: n) with ([TransportSubscribe t] ++ n).
        by rewrite subscribed_app, Hs2.
Qed.

Lemma delete_all_lookup (l : list (option Z)) (m : gmap (option Z) pending_info) i :
  i ∈ l \/ m !! i = None -> foldl (fun m mid => delete mid m) m l !! i = None.
Proof.
  revert m. induction l as [|a l IH]; intros m [Hi|Hi]; simpl; try done.
  - by apply elem_of_nil in Hi.
  - apply IH. apply elem_of_cons in Hi as [->|Hi]; [right|by left].
    apply lookup_delete_eq.
  - apply IH. right. destruct (decide (a = i)) as [->|];
      [apply lookup_delete_eq|by rewrite lookup_delete_ne].
Qed.

Lemma clear_stale_acks_pending s : pending_acks (clear_stale_acks s) = ∅.
Proof.
  unfold clear_stale_acks.
  assert (Hall : foldl (fun m mid => delete mid m) (pending_acks s)
                   ((map_to_list (pending_acks s)).*1) = ∅).
  { apply map_eq. intros i. rewrite lookup_empty. apply delete_all_lookup.
    destruct (pending_acks s !! i) as [p|] eqn:Hp; [left|by right].
    apply list_elem_of_fmap. exists (i, p). split; [done|].
    by apply elem_of_map_to_list. }
  destruct ((map_to_list (pending_acks s)).*1) as [|k ks] eqn:E.
  - apply fmap_nil_inv in E. by apply map_to_list_empty_iff in E.
  - exact Hall.
Qed.

Lemma clear_stale_acks_frame s :
  exists new, grows s (clear_stale_acks s) new /\ silent new.
Proof.
  unfold clear_stale_acks.
  destruct ((map_to_list (pending_acks s)).*1); frame_now.
Qed.

Lemma clear_stale_acks_topics s : topics (clear_stale_acks s) = topics s.
Proof. unfold clear_stale_acks. by destruct ((map_to_list (pending_acks s)).*1). Qed.

Lemma resubscribe_one_no_escape json_loads topic e s :
  sub_env_ordinary e -> (resubscribe_one json_loads topic e s).2 = None.
Proof.
  intros [Hc Hx]. unfold resubscribe_one, _subscribe_with_ack.
  rewrite Hc. simpl.
  unfold subscribe_with_ack_begin.
  destruct (sub_result e) as [[res mid]|x] eqn:Hsub; simpl.
  - case_bool_decide as Hres; simpl.
    + rewrite bool_decide_eq_false_2 by done. done.
    + destruct (outer_timeout e); simpl.
      * done.
      * case_bool_decide; simpl; [|done].
        by rewrite bool_decide_eq_true_2.
  - specialize (Hx x eq_refl). unfold timeout_to_request_error.
    case_bool_decide as Ht; simpl; [done|].
    rewrite andb_false_r. simpl. case_bool_decide; [done|]. by rewrite Hx.
Qed.

Lemma resubscribe_all_no_escape json_loads ts env succ s :
  (forall topic, sub_env_ordinary (env topic)) ->
  (resubscribe_all json_loads ts env succ s).2 = None.
Proof.
  intros Hord. revert succ s. induction ts as [|t ts IH]; intros succ s; simpl; [done|].
  pose proof (resubscribe_one_no_escape json_loads t (env t) s (Hord t)) as H1.
  destruct (resubscribe_one json_loads t (env t) s) as [[s1 ok] o]. simpl in H1. subst o.
  apply IH.
Qed.

Lemma remove_dups_id {A} `{EqDecision A} (l : list A) : NoDup l -> remove_dups l = l.
Proof.
  induction 1 as [|x l Hx Hnd IH]; simpl; [done|].
  destruct (decide_rel elem_of x l); [done|]. by rewrite IH.
Qed.

(** Whatever the order of the set, the list made from it holds every
    topic once; and every arrangement of the distinct topics is the
    list of some order. *)
Lemma topics_to_subscribe_spec order s :
  NoDup (topics_to_subscribe order s)
  /\ (forall x, x ∈ topics_to_subscribe order s <-> x ∈ topics s)
  /\ (forall p, NoDup p -> (forall x, x ∈ p <-> x ∈ topics s) ->
                topics_to_subscribe p s = p).
Proof.
  unfold topics_to_subscribe. split; [|split].
  - apply NoDup_app. split; [apply NoDup_remove_dups|]. split; [|apply NoDup_remove_dups].
    intros x Hx Hx'. apply elem_of_remove_dups, list_elem_of_difference in Hx'. tauto.
  - intros x. rewrite elem_of_app, !elem_of_remove_dups, list_elem_of_difference,
      elem_of_remove_dups, list_elem_of_filter.
    destruct (decide (x ∈ order)); tauto.
  - intros p Hnd Hp.
    assert (Hf : filter (fun topic => topic ∈ topics s) p = p).
    { clear Hnd. assert (Hall : forall x, x ∈ p -> x ∈ topics s) by (intros; by apply Hp).
      clear Hp. induction p as [|x p IH]; [done|].
      rewrite filter_cons_True by (apply Hall; set_solver).
      f_equal. apply IH. intros; apply Hall; set_solver. }
    rewrite Hf, (remove_dups_id p Hnd).
    assert (Hd : list_difference (topics s) p = []).
    { destruct (list_difference (topics s) p) as [|x l'] eqn:E; [done|]. exfalso.
      assert (Hx : x ∈ list_difference (topics s) p) by (rewrite E; left).
      apply list_elem_of_difference in Hx as [Hx Hn]. by apply Hn, Hp. }
    rewrite Hd. simpl. apply app_nil_r.
Qed.

Lemma topics_to_subscribe_cleared order s :
  topics_to_subscribe order (clear_stale_acks s) = topics_to_subscribe order s.
Proof. unfold topics_to_subscribe. by rewrite clear_stale_acks_topics. Qed.

Lemma restore_subscriptions_frame json_loads order env s :
  exists new,
    grows s (restore_subscriptions json_loads order env s).1 new
    /\ timing new = [].
Proof.
  unfold restore_subscriptions.
  destruct (clear_stale_acks_frame s) as (n0 & Hg0 & Hs0 & _).
  set (s0 := clear_stale_acks s) in *.
  destruct (resubscribe_all_frame json_loads (topics_to_subscribe order s0) env ∅ s0)
    as (n1 & Hg1 & Ht1 & _).
  destruct (resubscribe_all json_loads (topics_to_subscribe order s0) env ∅ s0)
    as [[s1 succ] [x|]]; simpl in *.
  - exists (n0 ++ n1). split; [by eapply grows_trans|].
    by rewrite timing_app, Hs0, Ht1.
  - case_bool_decide; simpl.
    + eexists (n0 ++ n1 ++ [_]). split.
      * eapply grows_trans; [exact Hg0|]. eapply grows_trans; [exact Hg1|]. by split.
      * by rewrite !timing_app, Hs0, Ht1.
    + eexists (n0 ++ n1 ++ [_]). split.
      * eapply grows_trans; [exact Hg0|]. eapply grows_trans; [exact Hg1|]. by split.
      * by rewrite !timing_app, Hs0, Ht1.
Qed.

Lemma attempt_connect_frame json_loads a s :
  exists new, grows s (attempt_connect json_loads a s).1 (ApiRequest :: new)
              /\ silent new.
Proof.
  unfold attempt_connect.
  destruct (get_mqtt_info_frame json_loads (request a) (request_wait a) s)
    as (n0 & Hg0 & Hs0).
  destruct (get_mqtt_info json_loads (request a) (request_wait a) s)
    as [s0 [[h path]|e]]; simpl in Hg0; [|by exists n0].
  set (s1 := emit (log (emit (set_host s0 (Some h)) (TransportWsSetOptions path h))
                     INFO Msg_attempting_reconnect) (TransportConnect h (port s0))).
  assert (H1 : exists new, grows s0 s1 new /\ silent new) by (subst s1; frame_now).
  destruct H1 as (n1 & Hg1 & Hs1).
  destruct (deliver_frame json_loads (callbacks (connect_wait a)) s1) as (n2 & Hg2 & Hs2).
  set (s2 := deliver json_loads (callbacks (connect_wait a)) s1) in *.
  assert (H2 : grows s s2 (ApiRequest :: n0 ++ n1 ++ n2)).
  { change (ApiRequest :: n0 ++ n1 ++ n2) with ((ApiRequest :: n0) ++ n1 ++ n2).
    eapply grows_trans; [exact Hg0|]. by eapply grows_trans. }
  assert (Hsil2 : silent (n0 ++ n1 ++ n2)) by (by repeat apply silent_app).
  change (deliver json_loads (callbacks (connect_wait a))
            (emit (log (emit (set_host s0 (Some h)) (TransportWsSetOptions path h))
                     INFO Msg_attempting_reconnect)
               (TransportConnect h (port (log (emit (set_host s0 (Some h))
                  (TransportWsSetOptions path h)) INFO Msg_attempting_reconnect)))))
    with s2.
  destruct (cancelled (connect_wait a)); [by eexists|].
  destruct (connect_outcome a); [by eexists|].
  pose proof (deliver_watching_state json_loads (callbacks (connected_wait a)) s2) as Hw.
  destruct (deliver_frame json_loads (callbacks (connected_wait a)) s2) as (n3 & Hg3 & Hs3).
  destruct (deliver_watching json_loads (callbacks (connected_wait a)) s2) as [s3 seen].
  simpl in Hw. rewrite <- Hw in Hg3.
  assert (H3 : grows s s3 (ApiRequest :: (n0 ++ n1 ++ n2) ++ n3)).
  { change (ApiRequest :: (n0 ++ n1 ++ n2) ++ n3)
      with ((ApiRequest :: n0 ++ n1 ++ n2) ++ n3). by eapply grows_trans. }
  assert (Hsil3 : silent ((n0 ++ n1 ++ n2) ++ n3)) by (by apply silent_app).
  destruct (cancelled (connected_wait a)); [by eexists|].
  destruct seen; simpl; [|by eexists].
  destruct (connect_evt s3); simpl; [by eexists|].
  exists (((n0 ++ n1 ++ n2) ++ n3) ++ [Log INFO Msg_wait_timeout]). split.
  - change (ApiRequest :: ((n0 ++ n1 ++ n2) ++ n3) ++ [Log INFO Msg_wait_timeout])
      with ((ApiRequest :: (n0 ++ n1 ++ n2) ++ n3) ++ [Log INFO Msg_wait_timeout]).
    eapply grows_trans; [exact H3|]. by split.
  - by apply silent_app.
Qed.

Lemma attempt_body_frame json_loads a s :
  exists new, grows s (attempt_body json_loads a s).1 new /\ timing new = [None].
Proof.
  unfold attempt_body.
  destruct (attempt_connect_frame json_loads a s) as (n0 & Hg0 & Hs0 & _).
  assert (Ht0 : timing (ApiRequest :: n0) = [None]).
  { change (ApiRequest :: n0) with ([ApiRequest] ++ n0). by rewrite timing_app, Hs0. }
  destruct (attempt_connect json_loads a s) as [s0 [[|]|e]]; simpl in Hg0;
    try (by eexists).
  destruct (restore_subscriptions_frame json_loads (set_order a) (resubscribe a) s0)
    as (n1 & Hg1 & Ht1).
  exists ((ApiRequest :: n0) ++ n1). split; [by eapply grows_trans|].
  by rewrite timing_app, Ht0, Ht1.
Qed.

Lemma attempt_frame json_loads a last_err s :
  exists new, grows s (attempt json_loads a last_err s).1.1 new /\ timing new = [None].
Proof.
  unfold attempt.
  destruct (attempt_body_frame json_loads a s) as (n & Hg & Ht).
  destruct (attempt_body json_loads a s) as [s0 [[|]|e]]; simpl in Hg;
    try (by eexists).
  assert (Hlog : forall lv m, exists new, grows s (log s0 lv m) new /\ timing new = [None]).
  { intros lv m. exists (n ++ [Log lv m]). split.
    - eapply grows_trans; [exact Hg|]. by split.
    - by rewrite timing_app, Ht. }
  repeat case_bool_decide;
    try match goal with |- context [is_Exception ?c] => destruct (is_Exception c) end;
    simpl; try apply Hlog; by eexists.
Qed.

Lemma throttle_frame json_loads (first : bool) (k : nat) (t : Z) w s :
  let t' := if first then t
            else if (6 <? k)%nat then 60 else if (3 <? k)%nat then 10 else t in
  (throttle json_loads first k t w s).1.2 = t'
  /\ (first = true -> throttle json_loads first k t w s = (s, t, false))
  /\ exists new, grows s (throttle json_loads first k t w s).1.1 new
                 /\ timing new = if first then [] else [Some t'].
Proof.
  intros t'. unfold throttle. destruct first; simpl.
  - split; [done|]. split; [done|]. exists []. split; [apply grows_refl|done].
  - split; [done|]. split; [done|].
    match goal with |- context [deliver json_loads (callbacks w) ?s0] =>
      destruct (deliver_frame json_loads (callbacks w) s0) as (n & Hg & Hs & _) end.
    eexists ([_; Sleep t'] ++ n). split.
    + eapply grows_trans; [|exact Hg]. split; [done|]. simpl. by rewrite <- app_assoc.
    + rewrite timing_app, Hs. done.
Qed.

(** ** The reconnect loop *)

Lemma backoff_step (first0 : bool) (k : nat) (t : Z) :
  ((k <= 3)%nat -> t = 2) ->
  (if first0 && (k =? 0)%nat then 0
   else if (6 <? k)%nat then 60 else if (3 <? k)%nat then 10 else t)
  = backoff first0 k.
Proof.
  intros Ht. unfold backoff. destruct (first0 && (k =? 0)%nat); [done|].
  destruct (6 <? k)%nat; [done|].
  destruct (3 <? k)%nat eqn:E; [done|]. apply Ht. apply Nat.ltb_ge in E. lia.
Qed.

(** The loop ends for every behaviour of the world, after at most
    [max_attempts] iterations in all; the time slept before each of its
    attempts is the [backoff] of the attempt count; and it is left by
    its condition only when the count has reached [max_attempts]. *)
Lemma reconnect_loop_spec json_loads env (first0 : bool) fuel :
  forall (k : nat) (t : Z) last_err s,
    (k <= max_attempts)%nat ->
    (max_attempts - k < fuel)%nat ->
    ((k <= 3)%nat -> t = 2) ->
    exists s' n why new,
      reconnect_loop json_loads fuel env (first0 && (k =? 0)%nat) k t last_err s
      = Some (s', n, why)
      /\ (k <= n <= max_attempts)%nat
      /\ grows s s' new
      /\ delays_from 0 (timing new) = map (backoff first0) (seq k (n - k))
      /\ (why = Exhausted -> n = max_attempts).
Proof.
  induction fuel as [|fuel IH]; intros k t last_err s Hk Hfuel Ht; [lia|].
  simpl. destruct (k <? max_attempts)%nat eqn:Hlt.
  - apply Nat.ltb_lt in Hlt.
    pose proof (throttle_frame json_loads (first0 && (k =? 0)%nat) k t
                  (sleep_wait (env k)) s) as (Ht1 & _ & n1 & Hg1 & Htm1).
    destruct (throttle json_loads (first0 && (k =? 0)%nat) k t (sleep_wait (env k)) s)
      as [[s1 t1] c]. simpl in Ht1, Hg1.
    assert (Hd : forall tl, delays_from 0 (timing n1 ++ None :: tl)
                            = backoff first0 k :: delays_from 0 tl).
    { intros tl. rewrite Htm1. rewrite <- (backoff_step first0 k t Ht).
      destruct (first0 && (k =? 0)%nat); simpl; [done|].
      by rewrite ?Ht1, Z.add_0_l. }
    assert (Hd0 : delays_from 0 (timing n1) = []).
    { rewrite Htm1. by destruct (first0 && (k =? 0)%nat). }
    destruct c.
    + exists s1, k, (Escaped cancelled_error), n1. split; [done|].
      split; [lia|]. split; [done|]. split; [|done].
      by rewrite Nat.sub_diag.
    + destruct (attempt_frame json_loads (env k) last_err s1) as (n2 & Hg2 & Htm2).
      destruct (attempt json_loads (env k) last_err s1) as [[s2 le2] ctl].
      simpl in Hg2.
      assert (Hg12 : grows s s2 (n1 ++ n2)) by (by eapply grows_trans).
      assert (Hd12 : delays_from 0 (timing (n1 ++ n2)) = [backoff first0 k]).
      { rewrite timing_app, Htm2. by rewrite Hd. }
      assert (Hseq : seq k (S k - k) = [k]).
      { by replace (S k - k)%nat with 1%nat by lia. }
      destruct ctl as [| |e].
      * destruct (IH (S k) t1 le2 s2) as (s' & n & why & n3 & Hrun & Hn & Hg3 & Hd3 & Hex).
        { lia. } { lia. }
        { intros Hk3. rewrite ?Ht1.
          destruct (first0 && (k =? 0)%nat); [apply Ht; lia|].
          replace (6 <? k)%nat with false by (symmetry; apply Nat.ltb_ge; lia).
          replace (3 <? k)%nat with false by (symmetry; apply Nat.ltb_ge; lia).
          apply Ht. lia. }
        rewrite andb_false_r in Hrun.
        exists s', n, why, ((n1 ++ n2) ++ n3). split; [done|]. split; [lia|].
        split; [by eapply grows_trans|]. split; [|done].
        rewrite !timing_app, Htm2, <- app_assoc. simpl. rewrite Hd, Hd3.
        replace (n - k)%nat with (S (n - S k)) by lia. done.
      * exists s2, (S k), Connected, (n1 ++ n2). split; [done|]. split; [lia|].
        split; [done|]. split; [|done]. by rewrite Hseq.
      * exists s2, (S k), (Escaped e), (n1 ++ n2). split; [done|]. split; [lia|].
        split; [done|]. split; [|done]. by rewrite Hseq.
  - apply Nat.ltb_ge in Hlt. exists s, k, Exhausted, [].
    split; [done|]. split; [lia|]. split; [apply grows_refl|].
    split; [by rewrite Nat.sub_diag|]. intros _. lia.
Qed.

Lemma backoff_monotone (first : bool) (j k : nat) :
  (j <= k)%nat -> backoff first j <= backoff first k.
Proof.
  intros Hjk. unfold backoff.
  destruct first; simpl;
    destruct (j =? 0)%nat eqn:Ej; destruct (k =? 0)%nat eqn:Ek;
    destruct (6 <? j)%nat eqn:E1; destruct (3 <? j)%nat eqn:E2;
    destruct (6 <? k)%nat eqn:E3; destruct (3 <? k)%nat eqn:E4;
    try lia;
    repeat match goal with
    | H : (_ <? _)%nat = true |- _ => apply Nat.ltb_lt in H
    | H : (_ <? _)%nat = false |- _ => apply Nat.ltb_ge in H
    | H : (_ =? _)%nat = true |- _ => apply Nat.eqb_eq in H
    | H : (_ =? _)%nat = false |- _ => apply Nat.eqb_neq in H
    end; lia.
Qed.

Lemma backoff_table (k : nat) :
  backoff true 0 = 0
  /\ ((1 <= k <= 3)%nat -> backoff true k = 2)
  /\ ((4 <= k <= 6)%nat -> backoff true k = 10)
  /\ ((7 <= k)%nat -> backoff true k = 60).
Proof.
  unfold backoff. split; [done|]. repeat split; intros Hk;
    destruct k as [|k]; try lia; simpl;
    destruct (6 <? S k)%nat eqn:E1; destruct (3 <? S k)%nat eqn:E2; try done;
    repeat match goal with
    | H : (_ <? _)%nat = true |- _ => apply Nat.ltb_lt in H
    | H : (_ <? _)%nat = false |- _ => apply Nat.ltb_ge in H
    end; lia.
Qed.

(** ** The reconnect cycle *)

Lemma reconnect_enter_spec s :
  reconnect_evt s = false ->
  exists s0, reconnect_enter s = Some s0
             /\ reconnect_evt s0 = true
             /\ trace s0 = trace s ++ [Log INFO Msg_attempting_connect].
Proof. intros H. unfold reconnect_enter. rewrite H. by eexists. Qed.

Lemma cycle_exit_spec json_loads env (first : bool) s :
  reconnect_evt s = false ->
  exists s_loop n why new,
    cycle_exit json_loads (S max_attempts) env first s = Some (s_loop, n, why)
    /\ (n <= max_attempts)%nat
    /\ trace s_loop = trace s ++ new
    /\ delays new = map (backoff first) (seq 0 n)
    /\ (why = Exhausted -> n = max_attempts).
Proof.
  intros Hflag. unfold cycle_exit.
  destruct (reconnect_enter_spec s Hflag) as (s0 & -> & _ & Htr0).
  destruct (reconnect_loop_spec json_loads env first (S max_attempts) 0 2
              (Exn Exception_ []) s0)
    as (s' & n & why & new & Hrun & Hn & [_ Hg] & Hd & Hex); [lia|lia|done|].
  simpl in Hrun. rewrite andb_true_r in Hrun.
  exists s', n, why, ([Log INFO Msg_attempting_connect] ++ new).
  split; [done|]. split; [lia|]. split; [by rewrite Hg, Htr0, <- app_assoc|].
  split; [|done]. unfold delays. rewrite timing_app. simpl.
  by rewrite Hd, Nat.sub_0_r.
Qed.

Lemma do_reconnect_unfold json_loads fuel env first s :
  _do_reconnect json_loads fuel env first s
  = match reconnect_enter s with
    | None => Some (log s INFO Msg_already_reconnecting, Returned ())
    | Some _ =>
        match cycle_exit json_loads fuel env first s with
        | None => None
        | Some (s1, n, Escaped e) => Some (reconnect_finally s1, Raised e)
        | Some (s1, n, _) =>
            Some (reconnect_finally
                    (if (max_attempts <=? n)%nat
                     then log s1 ERROR (Msg_max_attempts max_attempts) else s1),
                  Returned ())
        end
    end.
Proof.
  unfold _do_reconnect, cycle_exit. destruct (reconnect_enter s); [|done].
  destruct (reconnect_loop _ _ _ _ _ _ _ _) as [[[s1 n] [| |e]]|]; done.
Qed.

(** C10: a cycle that passes the guard ends, however the loop is left
    (a connection, the attempts exhausted, an exception or a
    cancellation), and when [_do_reconnect] returns or raises the
    in-progress flag is clear, the pending disconnect signal is absent
    and the stored task handle is cleared. *)
Theorem reconnect_always_cleans_up json_loads env first s :
  reconnect_evt s = false ->
  (exists s' r, _do_reconnect json_loads (S max_attempts) env first s = Some (s', r))
  /\ (forall fuel s' r,
        _do_reconnect json_loads fuel env first s = Some (s', r) ->
        reconnect_evt s' = false /\ disconnect_evt s' = None /\ connect_task s' = None).
Proof.
  intros Hflag. split.
  - rewrite do_reconnect_unfold.
    destruct (reconnect_enter_spec s Hflag) as (s0 & -> & _).
    destruct (cycle_exit_spec json_loads env first s Hflag)
      as (s1 & n & why & new & -> & _).
    destruct why; by eexists _, _.
  - intros fuel s' r. rewrite do_reconnect_unfold.
    destruct (reconnect_enter_spec s Hflag) as (s0 & -> & _).
    destruct (cycle_exit json_loads fuel env first s) as [[[s1 n] why]|]; [|done].
    destruct why; intros [= <- <-]; done.
Qed.

Lemma reconnect_always_cleans_up_witness :
  reconnect_evt init = false
  /\ exists s' r, _do_reconnect reject_all (S max_attempts) fail_env true init = Some (s', r)
                  /\ reconnect_evt s' = false /\ disconnect_evt s' = None
                  /\ connect_task s' = None.
Proof.
  split; [reflexivity|].
  destruct (reconnect_always_cleans_up reject_all fail_env true init eq_refl)
    as [(s' & r & Hrun) Hclean].
  exists s', r. split; [exact Hrun|]. exact (Hclean _ _ _ Hrun).
Defined.

(** C1: a cycle makes at most 20 connect attempts, whatever the world
    does.  When the loop is left by its condition, that is when all 20
    attempts ended without a connection, [_do_reconnect] logs that it
    gives up and returns without raising; after the last attempt it only
    writes that log record and runs its [finally] clause, so it creates
    no task, leaves the timer as it found it and stores no task handle. *)
Theorem reconnect_bounded json_loads env first s :
  reconnect_evt s = false ->
  exists s_loop n why new,
    cycle_exit json_loads (S max_attempts) env first s = Some (s_loop, n, why)
    /\ trace s_loop = trace s ++ new
    /\ attempts_made new = n
    /\ (n <= 20)%nat
    /\ (why = Exhausted ->
        let s' := reconnect_finally (log s_loop ERROR (Msg_max_attempts 20)) in
        n = 20%nat
        /\ _do_reconnect json_loads (S max_attempts) env first s = Some (s', Returned ())
        /\ trace s' = trace s_loop ++ [Log ERROR (Msg_max_attempts 20)]
        /\ reconnect_timer s' = reconnect_timer s_loop
        /\ next_task s' = next_task s_loop
        /\ connect_task s' = None
        /\ reconnect_evt s' = false).
Proof.
  intros Hflag.
  destruct (cycle_exit_spec json_loads env first s Hflag)
    as (s1 & n & why & new & Hexit & Hn & Htr & Hd & Hex).
  exists s1, n, why, new. split; [done|]. split; [done|].
  split; [unfold attempts_made; by rewrite Hd, length_map, length_seq|].
  split; [done|]. intros ->. specialize (Hex eq_refl). subst n.
  repeat split. rewrite do_reconnect_unfold, Hexit.
  by destruct (reconnect_enter_spec s Hflag) as (s0 & -> & _).
Qed.

Lemma reconnect_bounded_witness :
  reconnect_evt init = false
  /\ snd <$> _do_reconnect reject_all (S max_attempts) fail_env true init
     = Some (Returned ()).
Proof.
  split; [reflexivity|].
  destruct (reconnect_bounded reject_all fail_env true init eq_refl)
    as (s_loop & n & why & new & Hexit & _ & _ & _ & Hgive).
  assert (Hwhy : why = Exhausted).
  { vm_compute in Hexit. by injection Hexit as _ _ <-. }
  destruct (Hgive Hwhy) as (_ & -> & _). reflexivity.
Defined.

Lemma attempt_request_fails json_loads a last_err s e :
  request a = ReqRaises e ->
  (attempt json_loads a last_err s).2 = Continue.
Proof.
  intros Hreq. unfold attempt, attempt_body, attempt_connect, get_mqtt_info.
  rewrite Hreq. destruct (cancelled (request_wait a)); simpl;
    repeat case_bool_decide; done.
Qed.

(** The loop is left by its condition when every attempt fails at the
    request for the connection info and no sleep is cancelled. *)
Lemma cycle_exhausted_when_requests_fail json_loads env first s :
  reconnect_evt s = false ->
  (forall k, cancelled (sleep_wait (env k)) = false
             /\ exists e, request (env k) = ReqRaises e) ->
  exists s_loop,
    cycle_exit json_loads (S max_attempts) env first s
    = Some (s_loop, max_attempts, Exhausted).
Proof.
  intros Hflag Henv. unfold cycle_exit.
  destruct (reconnect_enter_spec s Hflag) as (s0 & -> & _).
  assert (H : forall fuel k first t le s1,
             (k <= max_attempts)%nat -> (max_attempts - k < fuel)%nat ->
             exists s', reconnect_loop json_loads fuel env first k t le s1
                        = Some (s', max_attempts, Exhausted)).
  { induction fuel as [|fuel IH]; intros k f t le s1 Hk Hfuel; [lia|].
    simpl. destruct (k <? max_attempts)%nat eqn:Hlt.
    - apply Nat.ltb_lt in Hlt. destruct (Henv k) as [Hc [e He]].
      assert (Hthr : (throttle json_loads f k t (sleep_wait (env k)) s1).2 = false).
      { unfold throttle. by destruct f. }
      destruct (throttle json_loads f k t (sleep_wait (env k)) s1) as [[s2 t2] c].
      simpl in Hthr. subst c.
      pose proof (attempt_request_fails json_loads (env k) le s2 e He) as Hatt.
      destruct (attempt json_loads (env k) le s2) as [[s3 le3] ctl].
      simpl in Hatt. subst ctl. apply IH; lia.
    - apply Nat.ltb_ge in Hlt. exists s1. repeat f_equal. lia. }
  apply H; lia.
Qed.

Lemma on_disconnect_spawned rc conn s :
  spawned (trace (_on_disconnect rc conn s))
  = spawned (trace s)
    ++ match disconnect_evt s, conn, connect_task s with
       | None, true, None => [(next_task s, true)]
       | _, _, _ => []
       end.
Proof.
  unfold _on_disconnect, spawned.
  destruct (disconnect_evt s), conn; simpl; try destruct (connect_task s); simpl;
    rewrite ?omap_app; simpl; by rewrite ?app_nil_r.
Qed.

Lemma spawned_app tr1 tr2 : spawned (tr1 ++ tr2) = spawned tr1 ++ spawned tr2.
Proof. apply omap_app. Qed.

(** Every task that a callback creates runs [_do_reconnect(True)]. *)
Lemma run_callback_spawned json_loads cb s :
  exists l, spawned (trace (run_callback json_loads cb s)) = spawned (trace s) ++ l
            /\ Forall (fun hf => hf.2 = true) l.
Proof.
  destruct cb as [rc|rc conn|mid|topic payload]; cbn [run_callback].
  - exists []. split; [|done]. unfold _on_connect, spawned.
    case_bool_decide; simpl; rewrite ?omap_app; simpl; by rewrite ?app_nil_r.
  - rewrite on_disconnect_spawned. eexists. split; [done|].
    destruct (disconnect_evt s), conn, (connect_task s); repeat constructor.
  - exists []. split; [|done]. unfold _on_subscribe, add_topic, spawned.
    destruct (pending_acks s !! Some mid) as [[t|t e]|]; simpl;
      try case_bool_decide; simpl; rewrite ?omap_app; simpl; by rewrite ?app_nil_r.
  - exists []. split; [|done]. rewrite app_nil_r. unfold _on_message.
    set (sd := match json_loads payload with
               | Some d => (log s DEBUG (Msg_message_received topic payload), Some d)
               | None => (log (log s DEBUG (Msg_message_received topic payload)) INFO
                            (Msg_invalid_json payload), None)
               end).
    assert (H1 : spawned (trace sd.1) = spawned (trace s)).
    { subst sd. destruct (json_loads payload); simpl;
        rewrite ?spawned_app; simpl; by rewrite ?app_nil_r. }
    destruct sd as [s1 data]. simpl in H1.
    destruct (if String.prefix _ topic then _ else _) as [dev|e]; [|done].
    destruct (_handlers s1 !! "update") as [hs|]; [|done].
    rewrite <- H1. clear H1. revert s1. induction hs as [|h hs IH]; intros s1; [done|].
    simpl. destruct data as [d|]; [|done]. rewrite IH. simpl.
    rewrite spawned_app. simpl. by rewrite app_nil_r.
Qed.

Lemma deliver_spawned json_loads cbs s :
  exists l, spawned (trace (deliver json_loads cbs s)) = spawned (trace s) ++ l
            /\ Forall (fun hf => hf.2 = true) l.
Proof.
  revert s. induction cbs as [|cb cbs IH]; intros s; simpl.
  - exists []. by rewrite app_nil_r.
  - destruct (run_callback_spawned json_loads cb s) as (l1 & H1 & F1).
    destruct (IH (run_callback json_loads cb s)) as (l2 & H2 & F2).
    exists (l1 ++ l2). split; [by rewrite H2, H1, app_assoc|by apply Forall_app].
Qed.

Lemma process_reconnect_spawned json_loads conn w s :
  exists l, spawned (trace (_process_reconnect json_loads conn w s).1)
            = spawned (trace s) ++ l
            /\ Forall (fun hf => hf.2 = true) l.
Proof.
  unfold _process_reconnect. destruct conn.
  - match goal with |- context [deliver json_loads (callbacks w) ?s0] =>
      destruct (deliver_spawned json_loads (callbacks w) s0) as (l & Hl & Fl);
      set (s1 := deliver json_loads (callbacks w) s0) in * end.
    simpl in Hl. rewrite !spawned_app in Hl. simpl in Hl. rewrite !app_nil_r in Hl.
    destruct (cancelled w); simpl; [by exists l|].
    destruct (disconnect_evt s1) as [[|]|]; simpl; try (by exists l).
    exists (l ++ [(next_task s1, true)]). split.
    + rewrite spawned_app, Hl. simpl. by rewrite app_assoc.
    + apply Forall_app. split; [done|]. by repeat constructor.
  - simpl. exists [(next_task s, true)]. split; [|by repeat constructor].
    rewrite !spawned_app. simpl. by rewrite app_nil_r.
Qed.

(** C2: in a cycle started as the two triggers start it, with
    [first = True], the time slept before each connect attempt is the
    [backoff] of the number of attempts made so far: nothing before the
    first attempt, 2 seconds while at most 3 attempts have been made,
    10 seconds once more than 3 have been made, 60 seconds once more
    than 6 have been made and from then on.  The delays of a cycle never
    decrease, and every task that the disconnect callback or the timer
    job creates is started with [first = True]. *)
Theorem backoff_schedule json_loads env s :
  (exists s' r new,
      _do_reconnect json_loads (S max_attempts) env true s = Some (s', r)
      /\ trace s' = trace s ++ new
      /\ delays new = map (backoff true) (seq 0 (attempts_made new))
      /\ (forall i j di dj, (i <= j)%nat ->
            delays new !! i = Some di -> delays new !! j = Some dj -> di <= dj))
  /\ backoff true 0 = 0
  /\ (forall k, (1 <= k <= 3)%nat -> backoff true k = 2)
  /\ (forall k, (4 <= k <= 6)%nat -> backoff true k = 10)
  /\ (forall k, (7 <= k)%nat -> backoff true k = 60)
  /\ (forall rc conn c,
        exists l, spawned (trace (_on_disconnect rc conn c)) = spawned (trace c) ++ l
                  /\ Forall (fun hf => hf.2 = true) l)
  /\ (forall conn w c,
        exists l, spawned (trace (_process_reconnect json_loads conn w c).1)
                  = spawned (trace c) ++ l
                  /\ Forall (fun hf => hf.2 = true) l).
Proof.
  split; [|split; [done|]; split; [intros k; apply backoff_table|];
           split; [intros k; apply backoff_table|];
           split; [intros k; apply backoff_table|];
           split; [intros rc conn c;
                   apply (run_callback_spawned json_loads (OnDisconnect rc conn) c)
                  |intros; apply process_reconnect_spawned]].
  assert (Hmono : forall (new : list effect) n,
             delays new = map (backoff true) (seq 0 n) ->
             delays new = map (backoff true) (seq 0 (attempts_made new))
             /\ forall i j di dj, (i <= j)%nat ->
                  delays new !! i = Some di -> delays new !! j = Some dj -> di <= dj).
  { intros new n Hd. unfold attempts_made. rewrite Hd, length_map, length_seq.
    split; [done|]. intros i j di dj Hij Hi Hj.
    rewrite list_lookup_fmap in Hi, Hj.
    destruct (seq 0 n !! i) as [i'|] eqn:Ei; [|done].
    destruct (seq 0 n !! j) as [j'|] eqn:Ej; [|done].
    apply lookup_seq in Ei as [-> _]. apply lookup_seq in Ej as [-> _].
    simpl in Hi, Hj. simplify_eq. apply backoff_monotone. lia. }
  rewrite do_reconnect_unfold.
  destruct (reconnect_evt s) eqn:Hflag.
  - unfold reconnect_enter. rewrite Hflag.
    eexists _, _, [_]. split; [done|]. split; [done|]. by apply (Hmono _ 0%nat).
  - destruct (reconnect_enter_spec s Hflag) as (s0 & -> & _).
    destruct (cycle_exit_spec json_loads env true s Hflag)
      as (s1 & n & why & new & -> & Hn & Htr & Hd & Hex).
    assert (Hlog : delays (new ++ [Log ERROR (Msg_max_attempts max_attempts)])
                   = map (backoff true) (seq 0 n)).
    { unfold delays in *. rewrite timing_app. simpl. by rewrite app_nil_r. }
    destruct why as [| |e].
    + destruct (max_attempts <=? n)%nat.
      * eexists _, _, (new ++ [_]). split; [done|]. simpl. rewrite Htr, <- app_assoc.
        split; [done|]. by apply (Hmono _ n).
      * eexists _, _, new. split; [done|]. split; [done|]. by apply (Hmono _ n).
    + destruct (max_attempts <=? n)%nat.
      * eexists _, _, (new ++ [_]). split; [done|]. simpl. rewrite Htr, <- app_assoc.
        split; [done|]. by apply (Hmono _ n).
      * eexists _, _, new. split; [done|]. split; [done|]. by apply (Hmono _ n).
    + eexists _, _, new. split; [done|]. split; [done|]. by apply (Hmono _ n).
Qed.

(** ** One cycle at a time *)

Lemma process_reconnect_flag json_loads conn w s :
  reconnect_evt (_process_reconnect json_loads conn w s).1 = reconnect_evt s.
Proof.
  unfold _process_reconnect. destruct conn; simpl; [|done].
  match goal with |- context [deliver json_loads (callbacks w) ?s0] =>
    destruct (deliver_frame json_loads (callbacks w) s0) as (n & [Hf _] & _);
    set (s1 := deliver json_loads (callbacks w) s0) in * end.
  simpl in Hf. destruct (cancelled w); simpl; [done|].
  destruct (disconnect_evt s1) as [[|]|]; done.
Qed.

Lemma run_api_flag json_loads call s :
  reconnect_evt (run_api json_loads call s) = reconnect_evt s.
Proof.
  destruct call as [req w tls co cw| |topic res mid|type target]; simpl; try done.
  - unfold connect.
    destruct (get_mqtt_info_frame json_loads req w s) as (n & [Hf _] & _).
    destruct (get_mqtt_info json_loads req w s) as [s0 [[h path]|e]];
      simpl in Hf; [|done].
    destruct tls as [e|]; [simpl; by rewrite <- Hf|].
    match goal with |- context [deliver json_loads (callbacks cw) ?s1] =>
      destruct (deliver_frame json_loads (callbacks cw) s1) as (n1 & [Hf1 _] & _);
      set (s2 := deliver json_loads (callbacks cw) s1) in * end.
    simpl in Hf1. rewrite <- Hf, <- Hf1.
    destruct (cancelled cw); [done|]. by destruct co.
  - unfold add_event_handler. destruct (_handlers s !! type); [|done].
    by case_bool_decide.
Qed.

Lemma step_one_cycle json_loads sys sys' :
  step json_loads sys sys' -> one_cycle sys -> one_cycle sys'.
Proof.
  unfold one_cycle.
  destruct 1 as [call c cr ru c'|cb c cr ru c'|conn w c cr ru c'|h c cr ru Hh Hent
                |h c c' cr ru Hh Hent
                |h first k t w c cr ru Hh c'|h a le c cr ru Hh c'|h c cr ru Hh];
    simpl; intros Hinv.
  - subst c'. by rewrite run_api_flag.
  - destruct (run_callback_frame json_loads cb c) as (n & [Hf _] & _).
    subst c'. by rewrite Hf.
  - subst c'. by rewrite process_reconnect_flag.
  - done.
  - unfold reconnect_enter in Hent. destruct (reconnect_evt c); [done|].
    simplify_eq. simpl. exists h. set_solver.
  - destruct (throttle_frame json_loads first k t w c) as (_ & _ & n & [Hf _] & _).
    subst c'. by rewrite Hf.
  - destruct (attempt_frame json_loads a le c) as (n & [Hf _] & _).
    subst c'. by rewrite Hf.
  - destruct (reconnect_evt c).
    + destruct Hinv as [h0 ->]. set_solver.
    + set_solver.
Qed.

Lemma steps_one_cycle json_loads sys sys' :
  rtc (step json_loads) sys sys' -> one_cycle sys -> one_cycle sys'.
Proof.
  induction 1 as [|x y z Hxy Hyz IH]; [done|].
  intros Hx. apply IH. by eapply step_one_cycle.
Qed.

Lemma on_disconnect_task rc conn s h :
  connect_task s = Some h ->
  connect_task (_on_disconnect rc conn s) = Some h
  /\ disconnect_evt (_on_disconnect rc conn s)
     = match disconnect_evt s with Some _ => Some true | None => None end.
Proof.
  intros Ht. unfold _on_disconnect.
  destruct (disconnect_evt s) eqn:Hd, conn; simpl; rewrite ?Ht; simpl;
    by rewrite ?Ht, ?Hd.
Qed.

Lemma disconnect_burst_quiet json_loads (rcs : list (option Z * bool)) s h :
  connect_task s = Some h ->
  spawned (trace (deliver json_loads
                    (map (fun rc => OnDisconnect rc.1 rc.2) rcs) s))
  = spawned (trace s).
Proof.
  revert s. induction rcs as [|[rc conn] rcs IH]; intros s Ht; [done|].
  simpl. destruct (on_disconnect_task rc conn s h Ht) as [Ht' _].
  rewrite (IH _ Ht'). rewrite on_disconnect_spawned, Ht.
  destruct (disconnect_evt s), conn; by rewrite app_nil_r.
Qed.

(** C7: [_do_reconnect] called while the in-progress flag is set only
    logs and returns; along every run of the event loop that starts with
    the flag clear and no cycle running, at most one cycle is between
    the guard and the [finally] clause; and a burst of disconnect
    callbacks on a connected client that has no reconnect task creates
    exactly one task, whatever the later callbacks of the burst report. *)
Theorem single_reconnect_cycle json_loads :
  (forall fuel env first s,
      reconnect_evt s = true ->
      _do_reconnect json_loads fuel env first s
      = Some (log s INFO Msg_already_reconnecting, Returned ()))
  /\ (forall sys0 sys,
        reconnect_evt (client sys0) = false -> running sys0 = ∅ ->
        rtc (step json_loads) sys0 sys ->
        size (running sys) <= 1)%nat
  /\ (forall s rc (rcs : list (option Z * bool)),
        disconnect_evt s = None -> connect_task s = None ->
        let burst := OnDisconnect rc true
                     :: map (fun rc => OnDisconnect rc.1 rc.2) rcs in
        spawned (trace (deliver json_loads burst s))
        = spawned (trace s) ++ [(next_task s, true)]).
Proof.
  split; [|split].
  - intros fuel env first s Hflag. unfold _do_reconnect, reconnect_enter.
    by rewrite Hflag.
  - intros sys0 sys Hflag Hrun Hsteps.
    assert (Hinv : one_cycle sys).
    { apply (steps_one_cycle json_loads sys0 sys Hsteps).
      unfold one_cycle. by rewrite Hflag. }
    unfold one_cycle in Hinv. destruct (reconnect_evt (client sys)).
    + destruct Hinv as [h ->]. rewrite size_singleton. lia.
    + rewrite Hinv, size_empty. lia.
  - intros s rc rcs Hd Ht burst. subst burst. simpl.
    assert (Hspawn := on_disconnect_spawned rc true s). rewrite Hd, Ht in Hspawn.
    assert (Htask : connect_task (_on_disconnect rc true s) = Some (next_task s)).
    { unfold _on_disconnect. rewrite Hd. simpl. by rewrite Ht. }
    by rewrite (disconnect_burst_quiet json_loads rcs _ _ Htask).
Qed.

Lemma single_reconnect_cycle_witness :
  reconnect_evt init = false
  /\ disconnect_evt init = None /\ connect_task init = None
  /\ spawned (trace (deliver reject_all
                       [OnDisconnect (Some 7) true; OnDisconnect None true;
                        OnDisconnect (Some 7) false] init))
     = [(0%nat, true)]
  /\ (forall sys, rtc (step reject_all) (System init ∅ ∅) sys -> (size (running sys) <= 1)%nat).
Proof.
  destruct (single_reconnect_cycle reject_all) as (_ & Hone & Hburst).
  split; [reflexivity|]. split; [reflexivity|]. split; [reflexivity|]. split.
  - exact (Hburst init (Some 7) [(None, true); (Some 7, false)] eq_refl eq_refl).
  - intros sys. exact (Hone (System init ∅ ∅) sys eq_refl eq_refl).
Defined.

Lemma backoff_schedule_witness :
  backoff true 0 = 0 /\ backoff true 2 = 2 /\ backoff true 5 = 10 /\ backoff true 9 = 60
  /\ exists s' r new,
       _do_reconnect reject_all (S max_attempts) fail_env true init = Some (s', r)
       /\ trace s' = trace init ++ new
       /\ delays new = map (backoff true) (seq 0 (attempts_made new)).
Proof.
  destruct (backoff_schedule reject_all fail_env init)
    as ((s' & r & new & Hrun & Htr & Hd & _) & H0 & H2 & H10 & H60 & _).
  split; [exact H0|]. split; [apply H2; lia|]. split; [apply H10; lia|].
  split; [apply H60; lia|]. by exists s', r, new.
Defined.

(** * Further properties *)

(** ** The endpoint pattern *)

Lemma append_cons c (a b : string) : String c a +:+ b = String c (a +:+ b).
Proof. reflexivity. Qed.

Lemma append_nil (b : string) : "" +:+ b = b.
Proof. reflexivity. Qed.

Lemma strip_prefix_app p s : strip_prefix p (p +:+ s) = Some s.
Proof.
  induction p as [|a p IH]; [by destruct s|].
  rewrite append_cons. simpl. by rewrite bool_decide_eq_true_2.
Qed.

Lemma strip_prefix_Some p s r : strip_prefix p s = Some r -> s = p +:+ r.
Proof.
  revert s. induction p as [|a p IH]; intros s H; simpl in *.
  - destruct s; by simplify_eq.
  - destruct s as [|b s]; [done|]. case_bool_decide; [|done]. subst.
    rewrite append_cons. f_equal. by apply IH.
Qed.

Lemma span_chars_spec p s a b :
  span_chars p s = (a, b) ->
  s = a +:+ b /\ all_chars p a = true /\ stops_at p b.
Proof.
  revert a b. induction s as [|c s IH]; intros a b H; simpl in H.
  - by simplify_eq.
  - destruct (p c) eqn:Hc.
    + destruct (span_chars p s) as [a' b'] eqn:E. simplify_eq.
      destruct (IH a' b eq_refl) as (-> & Ha & Hb). rewrite append_cons.
      simpl. by rewrite Hc, Ha.
    + simplify_eq. rewrite append_nil. simpl. by rewrite Hc.
Qed.

Lemma span_chars_app p a b :
  all_chars p a = true -> stops_at p b -> span_chars p (a +:+ b) = (a, b).
Proof.
  intros Ha Hb. induction a as [|c a IH].
  - rewrite append_nil. destruct b as [|c b]; simpl in *; [done|]. by rewrite Hb.
  - rewrite append_cons. simpl in *.
    apply andb_true_iff in Ha as [Hc Ha]. rewrite Hc. by rewrite IH.
Qed.

Lemma string_app_assoc (a b c : string) : (a +:+ b) +:+ c = a +:+ (b +:+ c).
Proof. induction a as [|x a IH]; [done|]. by rewrite !append_cons, IH. Qed.

Lemma string_app_nil_r (a : string) : a +:+ "" = a.
Proof. induction a as [|x a IH]; [done|]. by rewrite append_cons, IH. Qed.

(** X1: what the endpoint pattern accepts has the shape it was written
    for: the url is the scheme, a non-empty host made of host characters
    only, a path that starts with [/mqt] and runs to the end of the
    first line, and whatever follows that line. *)
Theorem wss_match_sound url h path :
  wss_match url = Some (h, path) ->
  h <> ""
  /\ all_chars is_host_char h = true
  /\ exists rest tail,
       path = "/mqt" +:+ rest
       /\ all_chars not_newline rest = true
       /\ stops_at not_newline tail
       /\ url = "wss://" +:+ h +:+ path +:+ tail.
Proof.
  unfold wss_match. intros H.
  destruct (strip_prefix "wss://" url) as [r|] eqn:E1; [|done].
  apply strip_prefix_Some in E1. subst url.
  destruct (span_chars is_host_char r) as [h' after] eqn:E2.
  apply span_chars_spec in E2 as (-> & Hh & _).
  destruct h' as [|c h']; [done|].
  destruct (strip_prefix "/mqt" after) as [tl|] eqn:E3; [|done].
  apply strip_prefix_Some in E3. subst after.
  destruct (span_chars _ tl) as [line rest] eqn:E4.
  apply span_chars_spec in E4 as (-> & Hl & Hr). simplify_eq.
  split; [done|]. split; [done|]. exists line, rest.
  split; [done|]. split; [done|]. split; [done|].
  simpl. by rewrite !string_app_assoc.
Qed.

Lemma wss_match_sound_witness :
  wss_match "wss://a1.iot.example.com/mqtt?X-Amz=1"
  = Some ("a1.iot.example.com", "/mqtt?X-Amz=1")
  /\ all_chars is_host_char "a1.iot.example.com" = true.
Proof.
  split; [reflexivity|].
  apply (wss_match_sound "wss://a1.iot.example.com/mqtt?X-Amz=1"
           "a1.iot.example.com" "/mqtt?X-Amz=1" eq_refl).
Defined.

Lemma wss_match_complete h rest tail :
  h <> "" -> all_chars is_host_char h = true ->
  all_chars not_newline rest = true -> stops_at not_newline tail ->
  wss_match ("wss://" +:+ h +:+ "/mqt" +:+ rest +:+ tail)
  = Some (h, "/mqt" +:+ rest).
Proof.
  intros Hne Hh Hr Ht. unfold wss_match.
  rewrite strip_prefix_app.
  rewrite (span_chars_app is_host_char h ("/mqt" +:+ rest +:+ tail)) by done.
  destruct h as [|c h]; [done|].
  rewrite strip_prefix_app.
  change (fun c0 : ascii => negb (bool_decide (c0 = newline))) with not_newline.
  by rewrite (span_chars_app not_newline rest tail).
Qed.

(** X2: an endpoint descriptor whose [wss_url] is the scheme, a
    non-empty host of host characters and a path that starts with
    [/mqt] is split into exactly that host and that path, the path cut
    at the first newline; the fetch then returns them, whatever
    callbacks run while it waits. *)
Theorem get_mqtt_info_round_trip json_loads l h rest tail cbs s :
  h <> "" -> all_chars is_host_char h = true ->
  all_chars not_newline rest = true -> stops_at not_newline tail ->
  obj_get "wss_url" l = Some (JStr ("wss://" +:+ h +:+ "/mqt" +:+ rest +:+ tail)) ->
  (get_mqtt_info json_loads (ReqReturns (JObj l)) (AwaitEnv cbs false) s).2
  = Returned (h, "/mqt" +:+ rest).
Proof.
  intros Hne Hh Hr Ht Hl. unfold get_mqtt_info. simpl. rewrite Hl.
  by rewrite wss_match_complete.
Qed.

Lemma get_mqtt_info_round_trip_witness :
  (get_mqtt_info reject_all
     (ReqReturns (JObj [("wss_url", JStr "wss://broker-1.example.com/mqtt?sig=abc")]))
     quiet init).2
  = Returned ("broker-1.example.com", "/mqtt?sig=abc").
Proof.
  apply (get_mqtt_info_round_trip reject_all
           [("wss_url", JStr "wss://broker-1.example.com/mqtt?sig=abc")]
           "broker-1.example.com" "t?sig=abc" "" [] init);
    (discriminate || reflexivity || exact I).
Defined.

(** ** Routing of inbound messages *)

Lemma split_on_head sep id rest :
  all_chars (fun c => negb (bool_decide (c = sep))) id = true ->
  stops_at (fun c => negb (bool_decide (c = sep))) rest ->
  exists tl, split_on sep (id +:+ rest) = id :: tl.
Proof.
  intros Hid Hrest. induction id as [|c id IH].
  - rewrite append_nil. destruct rest as [|c r]; simpl in *; [by eexists|].
    apply negb_false_iff in Hrest. rewrite Hrest. by eexists.
  - rewrite append_cons. simpl in *. apply andb_true_iff in Hid as [Hc Hid].
    apply negb_true_iff in Hc. rewrite Hc.
    destruct (IH Hid) as [tl ->]. by eexists.
Qed.

Lemma prefix_append p s : String.prefix p (p +:+ s) = true.
Proof.
  induction p as [|a p IH]; [by destruct s|].
  rewrite append_cons. simpl. by destruct (ascii_dec a a).
Qed.

Lemma device_id_third_segment id rest :
  all_chars not_slash id = true -> stops_at not_slash rest ->
  split_on "/" ("prd/app_subscriptions/" +:+ id +:+ rest) !! 2%nat = Some id.
Proof.
  intros Hid Hrest.
  destruct (split_on_head "/" id rest Hid Hrest) as [tl Htl].
  change ("prd/app_subscriptions/" +:+ id +:+ rest)
    with ("prd" +:+ String "/" ("app_subscriptions" +:+ String "/" (id +:+ rest))).
  assert (Hseg : forall (w : string) (r : string) l,
             all_chars not_slash w = true ->
             split_on "/" r = l ->
             split_on "/" (w +:+ String "/" r) = w :: l).
  { intros w r l Hw <-. induction w as [|c w IH].
    - rewrite append_nil. simpl. done.
    - rewrite append_cons. simpl in *. apply andb_true_iff in Hw as [Hc Hw].
      apply negb_true_iff in Hc. rewrite Hc. by rewrite (IH Hw). }
  rewrite (Hseg "prd" _ _ eq_refl eq_refl).
  rewrite (Hseg "app_subscriptions" _ _ eq_refl eq_refl).
  by rewrite Htl.
Qed.

(** X3: a message that decodes is handed to every [update] handler, in
    registration order, with a routing key read off the topic: the third
    segment of a topic under [prd/app_subscriptions/], that is the text
    between that prefix and the next slash (or the end), and no key for
    a topic that does not start with the prefix. *)
Theorem on_message_routing json_loads topic payload d hs s :
  json_loads payload = Some d ->
  _handlers s !! "update" = Some hs ->
  (forall id rest,
      all_chars not_slash id = true -> stops_at not_slash rest ->
      topic = "prd/app_subscriptions/" +:+ id +:+ rest ->
      exists s', _on_message json_loads topic payload s = (s', Returned ())
                 /\ trace s' = trace s ++ Log DEBUG (Msg_message_received topic payload)
                                        :: map (fun h => EnsureFuture h (Some id) d) hs)
  /\ (String.prefix "prd/app_subscriptions/" topic = false ->
      exists s', _on_message json_loads topic payload s = (s', Returned ())
                 /\ trace s' = trace s ++ Log DEBUG (Msg_message_received topic payload)
                                        :: map (fun h => EnsureFuture h None d) hs).
Proof.
  intros Hd Hh. split.
  - intros id rest Hid Hrest ->. unfold _on_message. rewrite Hd.
    rewrite prefix_append, (device_id_third_segment id rest Hid Hrest).
    simpl. rewrite Hh, dispatch_bound. eexists. split; [done|].
    simpl. by rewrite <- app_assoc.
  - intros Hp. unfold _on_message. rewrite Hd, Hp.
    simpl. rewrite Hh, dispatch_bound. eexists. split; [done|].
    simpl. by rewrite <- app_assoc.
Qed.

Lemma on_message_routing_witness :
  scheduled (trace (_on_message (fun _ => Some (JObj [])) 
                      "prd/app_subscriptions/device-42/state" "{}"
                      (add_event_handler "update" 7%nat init).1).1) = [7%nat]
  /\ exists s', _on_message (fun _ => Some (JObj []))
                  "prd/app_subscriptions/device-42/state" "{}"
                  (add_event_handler "update" 7%nat init).1 = (s', Returned ())
       /\ trace s' = [Log DEBUG (Msg_message_received
                                   "prd/app_subscriptions/device-42/state" "{}");
                      EnsureFuture 7%nat (Some "device-42") (JObj [])].
Proof.
  split; [reflexivity|].
  destruct (on_message_routing (fun _ => Some (JObj []))
              "prd/app_subscriptions/device-42/state" "{}" (JObj []) [7%nat]
              (add_event_handler "update" 7%nat init).1 eq_refl eq_refl) as [H _].
  exact (H "device-42" "/state" eq_refl eq_refl eq_refl).
Defined.

(** ** Footprints of the methods *)

Lemma same_core_refl s : same_core s s.
Proof. by repeat split. Qed.

Lemma same_core_trans s1 s2 s3 : same_core s1 s2 -> same_core s2 s3 -> same_core s1 s3.
Proof.
  intros (?&?&?&?&?&?&?&?&?) (?&?&?&?&?&?&?&?&?).
  repeat split; try congruence; [by etrans|lia].
Qed.

(** Closes [same_core s s'] when [s'] is [s] under setters of the
    connection bookkeeping. *)
Ltac core_now :=
  repeat split; simpl; try done;
  first [ reflexivity | rewrite <- ?app_assoc; by eexists | lia ].

Lemma on_connect_core rc s : same_core s (_on_connect rc s).
Proof. unfold _on_connect. case_bool_decide; core_now. Qed.

Lemma on_disconnect_core rc conn s : same_core s (_on_disconnect rc conn s).
Proof.
  unfold _on_disconnect.
  destruct (disconnect_evt s), conn; simpl; try destruct (connect_task s); core_now.
Qed.

Lemma dispatch_core hs device_id data s : same_core s (dispatch hs device_id data s).1.
Proof.
  revert s. induction hs as [|h hs IH]; intros s; simpl; [apply same_core_refl|].
  destruct data as [d|]; [|apply same_core_refl].
  eapply same_core_trans; [|apply IH]. core_now.
Qed.

Lemma on_message_core json_loads topic payload s :
  same_core s (_on_message json_loads topic payload s).1.
Proof.
  unfold _on_message.
  set (sd := match json_loads payload with
             | Some d => (log s DEBUG (Msg_message_received topic payload), Some d)
             | None => (log (log s DEBUG (Msg_message_received topic payload)) INFO
                          (Msg_invalid_json payload), None)
             end).
  assert (H1 : same_core s sd.1) by (subst sd; destruct (json_loads payload); core_now).
  destruct sd as [s1 data]. simpl in H1.
  destruct (if String.prefix _ topic then _ else _) as [dev|e]; [|done].
  destruct (_handlers s1 !! "update") as [hs|]; [|done].
  eapply same_core_trans; [exact H1|apply dispatch_core].
Qed.

Section Footprint.
Context (R : MQTTClient -> MQTTClient -> Prop) (HR : footprint R).
Variable json_loads : string -> option json.

Lemma run_callback_fp cb s : R s (run_callback json_loads cb s).
Proof.
  destruct cb; cbn [run_callback].
  - apply (fp_benign R HR), on_connect_core.
  - apply (fp_benign R HR), on_disconnect_core.
  - apply (fp_on_subscribe R HR).
  - apply (fp_benign R HR), on_message_core.
Qed.

Lemma deliver_fp cbs s : R s (deliver json_loads cbs s).
Proof.
  revert s. induction cbs as [|cb cbs IH]; intros s; simpl; [apply (fp_refl R HR)|].
  eapply (fp_trans R HR); [apply run_callback_fp|apply IH].
Qed.

Lemma benign_then s s1 s2 : same_core s s1 -> R s1 s2 -> R s s2.
Proof. intros H1 H2. eapply (fp_trans R HR); [by apply (fp_benign R HR)|done]. Qed.

Lemma then_benign s s1 s2 : R s s1 -> same_core s1 s2 -> R s s2.
Proof. intros H1 H2. eapply (fp_trans R HR); [done|by apply (fp_benign R HR)]. Qed.

Lemma get_mqtt_info_fp req w s : R s (get_mqtt_info json_loads req w s).1.
Proof.
  unfold get_mqtt_info. simpl. eapply benign_then; [|apply deliver_fp]. core_now.
Qed.

Lemma subscribe_with_ack_fp topic sub w s :
  R s (_subscribe_with_ack json_loads topic sub w s).1.
Proof.
  unfold _subscribe_with_ack.
  pose proof (fp_begin R HR topic sub s) as Hb.
  destruct (subscribe_with_ack_begin topic sub s) as [s1 k]. simpl in Hb.
  destruct k; simpl; [done|].
  eapply (fp_trans R HR); [exact Hb|apply deliver_fp].
Qed.

Lemma resubscribe_one_fp topic e s :
  R s (resubscribe_one json_loads topic e s).1.1.
Proof.
  unfold resubscribe_one.
  match goal with |- context [_subscribe_with_ack json_loads topic ?sub ?w s] =>
    pose proof (subscribe_with_ack_fp topic sub w s) as Hs;
    destruct (_subscribe_with_ack json_loads topic sub w s) as [s1 r] end.
  simpl in Hs.
  set (r' := match r with Raised x => _ | Returned _ => r end). clearbody r'.
  assert (Hlog : forall m, R s (log s1 ERROR m)).
  { intros m. eapply then_benign; [exact Hs|]. core_now. }
  destruct r' as [[res mid]|x]; repeat case_bool_decide;
    try match goal with |- context [is_Exception ?c] => destruct (is_Exception c) end;
    simpl; try apply Hlog; done.
Qed.

Lemma resubscribe_all_fp ts env succ s :
  R s (resubscribe_all json_loads ts env succ s).1.1.
Proof.
  revert succ s. induction ts as [|t ts IH]; intros succ s; simpl;
    [apply (fp_refl R HR)|].
  pose proof (resubscribe_one_fp t (env t) s) as H1.
  destruct (resubscribe_one json_loads t (env t) s) as [[s1 ok] [x|]]; simpl in H1;
    [done|].
  eapply (fp_trans R HR); [exact H1|apply IH].
Qed.

Lemma restore_subscriptions_fp order env s :
  R s (restore_subscriptions json_loads order env s).1.
Proof.
  unfold restore_subscriptions.
  pose proof (fp_clear R HR s) as Hc. set (s0 := clear_stale_acks s) in *.
  pose proof (resubscribe_all_fp (topics_to_subscribe order s0) env ∅ s0) as Ha.
  destruct (resubscribe_all json_loads (topics_to_subscribe order s0) env ∅ s0)
    as [[s1 succ] [x|]]; simpl in Ha.
  - by eapply (fp_trans R HR).
  - assert (H1 : R s s1) by (by eapply (fp_trans R HR)).
    case_bool_decide; simpl; (eapply then_benign; [exact H1|core_now]).
Qed.

Lemma attempt_connect_fp a s : R s (attempt_connect json_loads a s).1.
Proof.
  unfold attempt_connect.
  pose proof (get_mqtt_info_fp (request a) (request_wait a) s) as H0.
  destruct (get_mqtt_info json_loads (request a) (request_wait a) s)
    as [s0 [[h path]|e]]; simpl in H0; [|done].
  match goal with |- context [deliver json_loads (callbacks (connect_wait a)) ?s1] =>
    assert (H1 : R s s1) by (eapply then_benign; [exact H0|core_now]);
    pose proof (deliver_fp (callbacks (connect_wait a)) s1) as H2;
    set (s2 := deliver json_loads (callbacks (connect_wait a)) s1) in * end.
  assert (H12 : R s s2) by (by eapply (fp_trans R HR)).
  destruct (cancelled (connect_wait a)); [done|].
  destruct (connect_outcome a); [done|].
  pose proof (deliver_watching_state json_loads (callbacks (connected_wait a)) s2) as Hw.
  pose proof (deliver_fp (callbacks (connected_wait a)) s2) as H3.
  destruct (deliver_watching json_loads (callbacks (connected_wait a)) s2) as [s3 seen].
  simpl in Hw. rewrite <- Hw in H3.
  assert (H123 : R s s3) by (by eapply (fp_trans R HR)).
  destruct (cancelled (connected_wait a)); [done|].
  destruct seen; simpl; [|done].
  destruct (connect_evt s3); simpl; [done|].
  eapply then_benign; [exact H123|core_now].
Qed.

Lemma attempt_body_fp a s : R s (attempt_body json_loads a s).1.
Proof.
  unfold attempt_body.
  pose proof (attempt_connect_fp a s) as H0.
  destruct (attempt_connect json_loads a s) as [s0 [[|]|e]]; simpl in H0; try done.
  eapply (fp_trans R HR); [exact H0|apply restore_subscriptions_fp].
Qed.

Lemma attempt_fp a last_err s : R s (attempt json_loads a last_err s).1.1.
Proof.
  unfold attempt.
  pose proof (attempt_body_fp a s) as H0.
  destruct (attempt_body json_loads a s) as [s0 [[|]|e]]; simpl in H0; try done.
  assert (Hlog : forall lv m, R s (log s0 lv m)).
  { intros lv m. eapply then_benign; [exact H0|]. core_now. }
  repeat case_bool_decide;
    try match goal with |- context [is_Exception ?c] => destruct (is_Exception c) end;
    simpl; try apply Hlog; done.
Qed.

Lemma throttle_fp (first : bool) (k : nat) (t : Z) w s :
  R s (throttle json_loads first k t w s).1.1.
Proof.
  unfold throttle. destruct first; simpl; [apply (fp_refl R HR)|].
  eapply benign_then; [|apply deliver_fp]. core_now.
Qed.

Lemma process_reconnect_fp conn w s : R s (_process_reconnect json_loads conn w s).1.
Proof.
  unfold _process_reconnect. destruct conn.
  - match goal with |- context [deliver json_loads (callbacks w) ?s0] =>
      assert (H1 : R s (deliver json_loads (callbacks w) s0))
        by (eapply benign_then; [|apply deliver_fp]; core_now);
      set (s1 := deliver json_loads (callbacks w) s0) in * end.
    destruct (cancelled w); simpl; [done|].
    destruct (disconnect_evt s1) as [[|]|]; simpl; try done.
    eapply then_benign; [exact H1|core_now].
  - simpl. apply (fp_benign R HR). core_now.
Qed.

Lemma connect_fp req w tls co cw s : R s (connect json_loads req w tls co cw s).1.
Proof.
  unfold connect.
  pose proof (get_mqtt_info_fp req w s) as H0.
  destruct (get_mqtt_info json_loads req w s) as [s0 [[h path]|e]]; simpl in H0; [|done].
  destruct tls as [e|]; [simpl; eapply then_benign; [exact H0|core_now]|].
  match goal with |- context [deliver json_loads (callbacks cw) ?s1] =>
    assert (H1 : R s s1) by (eapply then_benign; [exact H0|core_now]);
    pose proof (deliver_fp (callbacks cw) s1) as H2;
    set (s2 := deliver json_loads (callbacks cw) s1) in * end.
  assert (H12 : R s s2) by (by eapply (fp_trans R HR)).
  destruct (cancelled cw); [done|]. by destruct co.
Qed.

Lemma run_api_fp call s : R s (run_api json_loads call s).
Proof.
  destruct call; cbn [run_api].
  - apply connect_fp.
  - apply (fp_benign R HR). unfold disconnect. core_now.
  - apply (fp_subscribe R HR).
  - apply (fp_add_handler R HR).
Qed.

Lemma reconnect_finally_fp s : R s (reconnect_finally s).
Proof.
  unfold reconnect_finally. eapply then_benign; [apply (fp_flag R HR s false)|].
  core_now.
Qed.

Lemma reconnect_enter_fp s s' : reconnect_enter s = Some s' -> R s s'.
Proof.
  unfold reconnect_enter. destruct (reconnect_evt s); [done|]. intros [= <-].
  eapply benign_then; [|apply (fp_flag R HR)]. core_now.
Qed.

Lemma reconnect_loop_fp env fuel :
  forall first k t last_err s s' n why,
    reconnect_loop json_loads fuel env first k t last_err s = Some (s', n, why) ->
    R s s'.
Proof.
  induction fuel as [|fuel IH]; intros first k t le s s' n why; [done|].
  simpl. destruct (k <? max_attempts)%nat.
  - pose proof (throttle_fp first k t (sleep_wait (env k)) s) as H1.
    destruct (throttle json_loads first k t (sleep_wait (env k)) s) as [[s1 t1] c].
    simpl in H1. destruct c; [by intros [= <- <- <-]|].
    pose proof (attempt_fp (env k) le s1) as H2.
    destruct (attempt json_loads (env k) le s1) as [[s2 le2] ctl]. simpl in H2.
    assert (H12 : R s s2) by (by eapply (fp_trans R HR)).
    destruct ctl.
    + intros Hrun. eapply (fp_trans R HR); [exact H12|by eapply IH].
    + by intros [= <- <- <-].
    + by intros [= <- <- <-].
  - intros [= <- <- <-]. apply (fp_refl R HR).
Qed.

Lemma do_reconnect_fp fuel env first s s' r :
  _do_reconnect json_loads fuel env first s = Some (s', r) -> R s s'.
Proof.
  unfold _do_reconnect.
  destruct (reconnect_enter s) as [s0|] eqn:He.
  - apply reconnect_enter_fp in He.
    destruct (reconnect_loop json_loads fuel env first 0 2 _ s0)
      as [[[s1 n] why]|] eqn:Hl; [|done].
    apply reconnect_loop_fp in Hl.
    assert (H1 : R s s1) by (by eapply (fp_trans R HR)).
    assert (Hlog : forall b : bool,
               R s (if b then log s1 ERROR (Msg_max_attempts max_attempts) else s1)).
    { intros [|]; [|done]. eapply then_benign; [exact H1|core_now]. }
    destruct why; intros [= <- <-];
      (eapply (fp_trans R HR); [|apply reconnect_finally_fp]);
      first [apply Hlog | exact H1].
  - intros [= <- <-]. apply (fp_benign R HR). core_now.
Qed.

Lemma step_fp sys sys' : step json_loads sys sys' -> R (client sys) (client sys').
Proof.
  destruct 1; simpl.
  - apply run_api_fp.
  - apply run_callback_fp.
  - apply process_reconnect_fp.
  - apply (fp_benign R HR). core_now.
  - by apply reconnect_enter_fp.
  - apply throttle_fp.
  - apply attempt_fp.
  - apply reconnect_finally_fp.
Qed.

Lemma steps_fp sys sys' :
  rtc (step json_loads) sys sys' -> R (client sys) (client sys').
Proof.
  induction 1 as [|x y z Hxy Hyz IH]; [apply (fp_refl R HR)|].
  eapply (fp_trans R HR); [by apply step_fp|done].
Qed.
End Footprint.

(** ** What every method keeps *)

Lemma add_event_handler_fields type target s :
  let s' := (add_event_handler type target s).1 in
  topics s' = topics s /\ pending_acks s' = pending_acks s
  /\ ack_sets s' = ack_sets s /\ next_evt s' = next_evt s.
Proof.
  unfold add_event_handler. destruct (_handlers s !! type); [|done].
  by case_bool_decide.
Qed.

Lemma begin_fields topic sub s :
  let s' := (subscribe_with_ack_begin topic sub s).1 in
  topics s' = topics s /\ _handlers s' = _handlers s /\ ack_sets s' = ack_sets s
  /\ next_evt s' = S (next_evt s)
  /\ (pending_acks s' = pending_acks s
      \/ exists msg_id, pending_acks s'
                        = <[msg_id := WithEvent topic (next_evt s)]> (pending_acks s)).
Proof.
  unfold subscribe_with_ack_begin. destruct sub as [[res mid]|e]; simpl.
  - case_bool_decide; simpl; repeat split; eauto.
  - repeat split; eauto.
Qed.

Lemma clear_stale_acks_fields s :
  let s' := clear_stale_acks s in
  topics s' = topics s /\ _handlers s' = _handlers s /\ ack_sets s' = ack_sets s
  /\ next_evt s' = next_evt s.
Proof. unfold clear_stale_acks. by destruct ((map_to_list (pending_acks s)).*1). Qed.

Lemma on_subscribe_fields mid s :
  _handlers (_on_subscribe mid s) = _handlers s
  /\ next_evt (_on_subscribe mid s) = next_evt s.
Proof.
  unfold _on_subscribe, add_topic.
  destruct (pending_acks s !! Some mid) as [[t|t e]|]; simpl;
    try case_bool_decide; done.
Qed.

Lemma topics_kept_footprint : footprint topics_kept.
Proof.
  split; unfold topics_kept.
  - intros s. split; [reflexivity|done].
  - intros s1 s2 s3 [H1 H2] [H3 H4]. split; [by etrans|auto].
  - intros s s' (Ht & _). rewrite Ht. split; [reflexivity|done].
  - intros mid s. split; [|apply on_subscribe_NoDup].
    rewrite on_subscribe_topics. destruct (pending_acks s !! Some mid); [|reflexivity].
    rewrite add_topic_topics. case_bool_decide; [reflexivity|by eexists].
  - intros topic sub s. destruct (begin_fields topic sub s) as (-> & _).
    split; [reflexivity|done].
  - intros topic res msg_id s. split; [reflexivity|done].
  - intros s. rewrite clear_stale_acks_topics. split; [reflexivity|done].
  - intros type target s. destruct (add_event_handler_fields type target s) as (-> & _).
    split; [reflexivity|done].
  - intros s b. split; [reflexivity|done].
Qed.

Lemma handlers_kept_refl s : handlers_kept s s.
Proof. split; [|done]. intros kind hs H. by exists hs. Qed.

Lemma handlers_kept_same s s' : _handlers s' = _handlers s -> handlers_kept s s'.
Proof.
  intros H. unfold handlers_kept, handlers_nodup. rewrite H.
  split; [|done]. intros kind hs Hk. by exists hs.
Qed.

Lemma handlers_kept_footprint : footprint handlers_kept.
Proof.
  split.
  - apply handlers_kept_refl.
  - intros s1 s2 s3 (H1 & H2 & H3) (H4 & H5 & H6). split; [|split; [auto|auto]].
    intros kind hs Hk. destruct (H1 kind hs Hk) as (hs2 & Hk2 & Hp2).
    destruct (H4 kind hs2 Hk2) as (hs3 & Hk3 & Hp3). exists hs3. split; [done|by etrans].
  - intros s s' (_ & Hh & _). by apply handlers_kept_same.
  - intros mid s. apply handlers_kept_same, on_subscribe_fields.
  - intros topic sub s. apply handlers_kept_same. by destruct (begin_fields topic sub s) as (_ & -> & _).
  - intros topic res msg_id s. by apply handlers_kept_same.
  - intros s. apply handlers_kept_same. by destruct (clear_stale_acks_fields s) as (_ & -> & _).
  - intros type target s. unfold add_event_handler.
    destruct (_handlers s !! type) as [hs0|] eqn:E; simpl; [|apply handlers_kept_refl].
    case_bool_decide as Hin; simpl; [apply handlers_kept_refl|].
    unfold handlers_kept, handlers_nodup. simpl. split; [|split].
    + intros kind hs Hk. destruct (decide (kind = type)) as [->|Hne].
      * rewrite lookup_insert_eq. simplify_eq. eexists. split; [done|by eexists].
      * rewrite lookup_insert_ne by done. exists hs. done.
    + intros kind. destruct (decide (kind = type)) as [->|Hne].
      * intros _. by eexists.
      * by rewrite lookup_insert_ne.
    + intros Hnd kind hs. destruct (decide (kind = type)) as [->|Hne].
      * rewrite lookup_insert_eq. intros [= <-]. apply NoDup_app.
        split; [by eapply Hnd|]. split; [|apply NoDup_singleton].
        intros x Hx Hx'. apply list_elem_of_singleton in Hx'. by subst.
      * rewrite lookup_insert_ne by done. apply Hnd.
  - intros s b. by apply handlers_kept_same.
Qed.

Lemma events_kept_same s s' :
  pending_acks s' = pending_acks s -> ack_sets s' = ack_sets s ->
  next_evt s' = next_evt s -> events_kept s s'.
Proof.
  intros Hp Ha Hn. unfold events_kept, events_ok. rewrite Hp, Ha, Hn.
  split; [reflexivity|]. split; [lia|done].
Qed.

Lemma events_ok_on_subscribe mid s : events_ok s -> events_ok (_on_subscribe mid s).
Proof.
  intros (H1 & H2 & H3 & H4 & H5). unfold events_ok.
  rewrite on_subscribe_pending, on_subscribe_ack_sets.
  destruct (on_subscribe_fields mid s) as [_ ->].
  unfold evt_at. destruct (pending_acks s !! Some mid) as [[t|t e0]|] eqn:E; simpl;
    rewrite ?app_nil_r.
  - split; [done|]. split; [|split; [done|split]].
    + intros k t' e Hk. apply lookup_delete_Some in Hk as [_ Hk]. eauto.
    + intros k t' e Hk. apply lookup_delete_Some in Hk as [_ Hk]. eauto.
    + intros k1 k2 t1 t2 e Hk1 Hk2. apply lookup_delete_Some in Hk1 as [_ Hk1].
      apply lookup_delete_Some in Hk2 as [_ Hk2]. eauto.
  - split; [|split; [|split; [|split]]].
    + intros e He. apply elem_of_app in He as [He|He]; [auto|].
      apply list_elem_of_singleton in He. subst. eauto.
    + intros k t' e Hk. apply lookup_delete_Some in Hk as [_ Hk]. eauto.
    + apply NoDup_app. split; [done|]. split; [|apply NoDup_singleton].
      intros x Hx Hx'. apply list_elem_of_singleton in Hx'. subst. by eapply H4.
    + intros k t' e Hk. apply lookup_delete_Some in Hk as [Hne Hk].
      intros He. apply elem_of_app in He as [He|He]; [by eapply H4|].
      apply list_elem_of_singleton in He. subst.
      apply Hne. symmetry. by eapply H5.
    + intros k1 k2 t1 t2 e Hk1 Hk2. apply lookup_delete_Some in Hk1 as [_ Hk1].
      apply lookup_delete_Some in Hk2 as [_ Hk2]. eauto.
  - rewrite delete_id by done. done.
Qed.

Lemma events_ok_insert_old msg_id topic s s' :
  pending_acks s' = <[msg_id := OldFormat topic]> (pending_acks s) ->
  ack_sets s' = ack_sets s -> next_evt s' = next_evt s ->
  events_ok s -> events_ok s'.
Proof.
  intros Hp Ha Hn (H1 & H2 & H3 & H4 & H5). unfold events_ok. rewrite Hp, Ha, Hn.
  assert (Hold : forall k t e,
             <[msg_id := OldFormat topic]> (pending_acks s) !! k = Some (WithEvent t e) ->
             pending_acks s !! k = Some (WithEvent t e)).
  { intros k t e Hk. apply lookup_insert_Some in Hk as [[_ ?]|[_ Hk]]; done. }
  split; [done|]. split; [eauto|]. split; [done|]. split; [eauto|]. eauto.
Qed.

Lemma events_ok_insert_new msg_id topic s s' :
  pending_acks s' = <[msg_id := WithEvent topic (next_evt s)]> (pending_acks s) ->
  ack_sets s' = ack_sets s -> next_evt s' = S (next_evt s) ->
  events_ok s -> events_ok s'.
Proof.
  intros Hp Ha Hn (H1 & H2 & H3 & H4 & H5). unfold events_ok. rewrite Hp, Ha, Hn.
  split; [|split; [|split; [|split]]].
  - intros e He. apply H1 in He. lia.
  - intros k t e Hk. apply lookup_insert_Some in Hk as [[_ ?]|[_ Hk]].
    + simplify_eq. lia.
    + apply H2 in Hk. lia.
  - done.
  - intros k t e Hk. apply lookup_insert_Some in Hk as [[_ ?]|[_ Hk]].
    + simplify_eq. intros He. apply H1 in He. lia.
    + by eapply H4.
  - intros k1 k2 t1 t2 e Hk1 Hk2.
    apply lookup_insert_Some in Hk1 as [[<- ?]|[Hn1 Hk1]];
      apply lookup_insert_Some in Hk2 as [[<- ?]|[Hn2 Hk2]]; simplify_eq; try done.
    + apply H2 in Hk2. lia.
    + apply H2 in Hk1. lia.
    + eauto.
Qed.

Lemma events_kept_footprint : footprint events_kept.
Proof.
  split; unfold events_kept.
  - intros s. by apply events_kept_same.
  - intros s1 s2 s3 (H1 & H2 & H3) (H4 & H5 & H6).
    split; [by etrans|]. split; [lia|auto].
  - intros s s' (_ & _ & Hp & Ha & Hn & _). by apply events_kept_same.
  - intros mid s. split; [|split].
    + rewrite on_subscribe_ack_sets. by eexists.
    + destruct (on_subscribe_fields mid s) as [_ ->]. lia.
    + apply events_ok_on_subscribe.
  - intros topic sub s.
    destruct (begin_fields topic sub s) as (_ & _ & Ha & Hn & Hp).
    split; [by rewrite Ha|]. split; [lia|].
    destruct Hp as [Hp|[msg_id Hp]].
    + intros (H1 & H2 & H3 & H4 & H5). unfold events_ok. rewrite Hp, Ha, Hn.
      split; [intros e He; apply H1 in He; lia|].
      split; [intros k t e Hk; apply H2 in Hk; lia|]. done.
    + by eapply events_ok_insert_new.
  - intros topic res msg_id s. split; [reflexivity|]. split; [done|].
    by apply (events_ok_insert_old msg_id topic).
  - intros s. destruct (clear_stale_acks_fields s) as (_ & _ & Ha & Hn).
    split; [by rewrite Ha|]. split; [lia|].
    intros (H1 & H2 & H3 & H4 & H5). unfold events_ok.
    rewrite clear_stale_acks_pending, Ha, Hn.
    split; [done|]. split; [by intros k t e Hk|]. split; [done|].
    split; by intros ?.
  - intros type target s.
    destruct (add_event_handler_fields type target s) as (_ & Hp & Ha & Hn).
    by apply events_kept_same.
  - intros s b. by apply events_kept_same.
Qed.

(** ** Invariants of every run *)

(** X5: no method of the client and no turn of the event loop ever
    removes or reorders a topic of the Topic Set: along every run, and
    across a whole reconnect cycle, the set only grows at its end, and a
    set without duplicates stays without duplicates. *)
Theorem topic_set_never_shrinks json_loads :
  (forall sys sys',
      rtc (step json_loads) sys sys' ->
      topics (client sys) `prefix_of` topics (client sys')
      /\ (NoDup (topics (client sys)) -> NoDup (topics (client sys'))))
  /\ (forall fuel env first s s' r,
        _do_reconnect json_loads fuel env first s = Some (s', r) ->
        topics s `prefix_of` topics s'
        /\ (NoDup (topics s) -> NoDup (topics s'))).
Proof.
  split.
  - intros sys sys' Hrun.
    apply (steps_fp topics_kept topics_kept_footprint json_loads sys sys' Hrun).
  - intros fuel env first s s' r Hrun.
    apply (do_reconnect_fp topics_kept topics_kept_footprint json_loads
             fuel env first s s' r Hrun).
Qed.

Lemma topic_set_never_shrinks_witness :
  exists s' r,
    _do_reconnect reject_all (S max_attempts) (fun _ => connect_env) true dropped
    = Some (s', r)
    /\ topics dropped `prefix_of` topics s' /\ NoDup (topics s').
Proof.
  assert (Hrun : exists s' r,
             _do_reconnect reject_all (S max_attempts) (fun _ => connect_env) true dropped
             = Some (s', r)).
  { eexists _, _. vm_compute. reflexivity. }
  destruct Hrun as (s' & r & Hrun). exists s', r. split; [exact Hrun|].
  destruct (topic_set_never_shrinks reject_all) as [_ Hcycle].
  destruct (Hcycle _ _ _ _ _ _ Hrun) as [Hp Hnd]. split; [exact Hp|].
  apply Hnd. apply (bool_decide_unpack _). by vm_compute.
Defined.

Lemma registry_ok_kept s s' : handlers_kept s s' -> registry_ok s -> registry_ok s'.
Proof.
  intros (H1 & H2 & _) Hok kind. split.
  - intros Hs. apply Hok. by apply H2.
  - intros Hk. apply Hok in Hk as [hs Hhs].
    destruct (H1 kind hs Hhs) as (hs' & -> & _). by eexists.
Qed.

Lemma handlers_nodup_init : handlers_nodup init.
Proof.
  intros kind hs. unfold init; simpl. rewrite !lookup_insert, lookup_empty.
  repeat case_decide; intros [= <-]; apply NoDup_nil_2.
Qed.

(** X6: along every run of the event loop the handler registry keeps
    exactly the kinds it has, no handler is ever removed or moved (each
    collection only grows at its end), and no collection ever holds a
    handler twice. *)
Theorem handler_registry_kept json_loads sys sys' :
  rtc (step json_loads) sys sys' ->
  registry_ok (client sys) -> handlers_nodup (client sys) ->
  registry_ok (client sys')
  /\ handlers_nodup (client sys')
  /\ forall kind hs,
       _handlers (client sys) !! kind = Some hs ->
       exists hs', _handlers (client sys') !! kind = Some hs' /\ hs `prefix_of` hs'.
Proof.
  intros Hrun Hok Hnd.
  pose proof (steps_fp handlers_kept handlers_kept_footprint json_loads sys sys' Hrun)
    as Hk.
  split; [by eapply registry_ok_kept|]. destruct Hk as (H1 & _ & H3). auto.
Qed.

Lemma handler_registry_kept_witness :
  registry_ok init /\ handlers_nodup init
  /\ forall sys, rtc (step reject_all) (System init ∅ ∅) sys ->
                 registry_ok (client sys) /\ handlers_nodup (client sys).
Proof.
  split; [apply registry_ok_init|]. split; [apply handlers_nodup_init|].
  intros sys Hrun.
  destruct (handler_registry_kept reject_all (System init ∅ ∅) sys Hrun
              registry_ok_init handlers_nodup_init) as (H1 & H2 & _).
  by split.
Defined.

Lemma events_ok_init : events_ok init.
Proof.
  unfold events_ok, init; simpl. split; [by intros e He; apply elem_of_nil in He|].
  split; [by intros k t e Hk|]. split; [apply NoDup_nil_2|].
  split; by intros ?.
Qed.

(** X7: along every run of the event loop each acknowledgment event is
    set at most once, an event that is still waited for has not been
    set, two pending requests never wait on one event, and a set event
    stays set: the record of the events set only grows. *)
Theorem ack_events_set_once json_loads sys sys' :
  rtc (step json_loads) sys sys' ->
  events_ok (client sys) ->
  events_ok (client sys')
  /\ NoDup (ack_sets (client sys'))
  /\ ack_sets (client sys) `prefix_of` ack_sets (client sys').
Proof.
  intros Hrun Hok.
  destruct (steps_fp events_kept events_kept_footprint json_loads sys sys' Hrun)
    as (Hp & _ & Hkeep).
  specialize (Hkeep Hok). split; [done|]. split; [|done]. by destruct Hkeep as (_ & _ & ? & _).
Qed.

Lemma ack_events_set_once_witness :
  events_ok init
  /\ forall sys, rtc (step reject_all) (System init ∅ ∅) sys ->
                 NoDup (ack_sets (client sys)).
Proof.
  split; [apply events_ok_init|]. intros sys Hrun.
  by destruct (ack_events_set_once reject_all (System init ∅ ∅) sys Hrun events_ok_init)
    as (_ & H & _).
Defined.

(** ** The wait for an acknowledgment *)

Lemma run_callback_pending json_loads cb s :
  pending_acks (run_callback json_loads cb s)
  = match cb with
    | OnSubscribe mid => delete (Some mid) (pending_acks s)
    | _ => pending_acks s
    end.
Proof.
  destruct cb as [rc|rc conn|mid|topic payload]; cbn [run_callback].
  - by destruct (on_connect_core rc s) as (_ & _ & -> & _).
  - by destruct (on_disconnect_core rc conn s) as (_ & _ & -> & _).
  - apply on_subscribe_pending.
  - by destruct (on_message_core json_loads topic payload s) as (_ & _ & -> & _).
Qed.

Lemma deliver_cons json_loads cb cbs s :
  deliver json_loads (cb :: cbs) s = deliver json_loads cbs (run_callback json_loads cb s).
Proof. done. Qed.

Lemma deliver_pending_none json_loads cbs s k :
  pending_acks s !! k = None -> pending_acks (deliver json_loads cbs s) !! k = None.
Proof.
  revert s. induction cbs as [|cb cbs IH]; intros s Hk; [done|].
  rewrite deliver_cons. apply IH. rewrite run_callback_pending.
  destruct cb; try done. apply lookup_delete_None. by right.
Qed.

(** Callbacks that do not acknowledge [m] leave its pending entry. *)
Lemma deliver_pending_kept json_loads cbs s m p :
  OnSubscribe m ∉ cbs ->
  pending_acks s !! Some m = Some p ->
  pending_acks (deliver json_loads cbs s) !! Some m = Some p.
Proof.
  revert s. induction cbs as [|cb cbs IH]; intros s Hnot Hp; [done|].
  rewrite deliver_cons. apply IH; [set_solver|].
  rewrite run_callback_pending. destruct cb as [| |m'|]; try done.
  rewrite lookup_delete_ne; [done|]. intros [= ->]. set_solver.
Qed.

(** The acknowledgment of [m] sets the event of its pending entry,
    records its topic and removes the entry. *)
Lemma deliver_acknowledged json_loads cbs s m topic e :
  OnSubscribe m ∈ cbs ->
  pending_acks s !! Some m = Some (WithEvent topic e) ->
  let s' := deliver json_loads cbs s in
  e ∈ ack_sets s' /\ topic ∈ topics s' /\ pending_acks s' !! Some m = None.
Proof.
  revert s. induction cbs as [|cb cbs IH]; intros s Hin Hp; [by apply elem_of_nil in Hin|].
  rewrite deliver_cons.
  destruct (decide (cb = OnSubscribe m)) as [->|Hne].
  - clear IH Hin. cbn [run_callback].
    set (s1 := _on_subscribe m s).
    assert (He : e ∈ ack_sets s1).
    { subst s1. rewrite on_subscribe_ack_sets. unfold evt_at. rewrite Hp. set_solver. }
    assert (Ht : topic ∈ topics s1) by apply (on_subscribe_adds m _ s Hp).
    assert (Hn : pending_acks s1 !! Some m = None).
    { subst s1. rewrite on_subscribe_pending. apply lookup_delete_eq. }
    destruct (deliver_fp events_kept events_kept_footprint json_loads cbs s1)
      as ([k1 Hk1] & _).
    destruct (deliver_fp topics_kept topics_kept_footprint json_loads cbs s1)
      as ([k2 Hk2] & _).
    simpl. rewrite Hk1, Hk2. split; [set_solver|]. split; [set_solver|].
    by apply deliver_pending_none.
  - apply IH; [set_solver|]. rewrite run_callback_pending.
    destruct cb as [| |m'|]; try done.
    rewrite lookup_delete_ne; [done|]. intros [= ->]. done.
Qed.

(** X8: a subscription that the transport accepts under the message id
    [m] and that is acknowledged while its caller waits returns
    [(MQTT_ERR_SUCCESS, m)] to its caller, whatever other callbacks run
    meanwhile; the topic is then in the Topic Set and the pending entry
    is gone. *)
Theorem subscribe_with_ack_acknowledged json_loads topic m cbs s :
  OnSubscribe m ∈ cbs ->
  let run := _subscribe_with_ack json_loads topic
               (Returned (MQTT_ERR_SUCCESS, Some m)) (AwaitEnv cbs false) s in
  run.2 = Returned (MQTT_ERR_SUCCESS, Some m)
  /\ topic ∈ topics run.1
  /\ pending_acks run.1 !! Some m = None.
Proof.
  intros Hin. unfold _subscribe_with_ack, subscribe_with_ack_begin. simpl.
  match goal with |- context [deliver json_loads cbs ?s1] =>
    destruct (deliver_acknowledged json_loads cbs s1 m topic (next_evt s) Hin)
      as (He & Ht & Hp); [simpl; apply lookup_insert_eq|] end.
  simpl. rewrite bool_decide_eq_true_2 by done. done.
Qed.

Lemma subscribe_with_ack_acknowledged_witness :
  (_subscribe_with_ack reject_all "prd/app_subscriptions/a"
     (Returned (MQTT_ERR_SUCCESS, Some 4))
     (AwaitEnv [OnConnect 0; OnSubscribe 9; OnSubscribe 4] false) init).2
  = Returned (MQTT_ERR_SUCCESS, Some 4).
Proof.
  apply (subscribe_with_ack_acknowledged reject_all "prd/app_subscriptions/a" 4
           [OnConnect 0; OnSubscribe 9; OnSubscribe 4] init).
  apply (bool_decide_unpack _). by vm_compute.
Defined.

(** X9: a subscription that the transport accepts under the message id
    [m] and that is not acknowledged while its caller waits ends in
    [RequestError] for the caller, and its pending entry is left in
    place: an acknowledgment that comes later still records the topic
    in the Topic Set and removes the entry. *)
Theorem subscribe_with_ack_timeout json_loads topic m cbs s :
  events_ok s ->
  OnSubscribe m ∉ cbs ->
  let run := _subscribe_with_ack json_loads topic
               (Returned (MQTT_ERR_SUCCESS, Some m)) (AwaitEnv cbs false) s in
  run.2 = Raised (Exn RequestError [("Subscription ACK timeout for " +:+ topic)%string])
  /\ pending_acks run.1 !! Some m = Some (WithEvent topic (next_evt s))
  /\ topic ∈ topics (_on_subscribe m run.1)
  /\ pending_acks (_on_subscribe m run.1) !! Some m = None.
Proof.
  intros Hok Hnot. unfold _subscribe_with_ack.
  pose proof (fp_begin events_kept events_kept_footprint topic
                (Returned (MQTT_ERR_SUCCESS, Some m)) s) as (_ & _ & Hok1).
  specialize (Hok1 Hok).
  unfold subscribe_with_ack_begin in *. simpl in *.
  match goal with |- context [deliver json_loads cbs ?x] => set (s1 := x) in * end.
  pose proof (deliver_pending_kept json_loads cbs s1 m
                (WithEvent topic (next_evt s)) Hnot) as Hp.
  destruct (deliver_fp events_kept events_kept_footprint json_loads cbs s1)
    as (_ & _ & Hok2).
  specialize (Hok2 Hok1).
  assert (Hp1 : pending_acks s1 !! Some m = Some (WithEvent topic (next_evt s)))
    by (subst s1; simpl; apply lookup_insert_eq).
  specialize (Hp Hp1).
  set (s2 := deliver json_loads cbs s1) in *.
  assert (Hnotset : next_evt s ∉ ack_sets s2).
  { destruct Hok2 as (_ & _ & _ & H4 & _). by eapply H4. }
  rewrite bool_decide_eq_false_2 by done. simpl.
  split; [done|]. split; [done|].
  split; [apply (on_subscribe_adds m _ s2 Hp)|].
  rewrite on_subscribe_pending. apply lookup_delete_eq.
Qed.

Lemma subscribe_with_ack_timeout_witness :
  events_ok init
  /\ (_subscribe_with_ack reject_all "prd/app_subscriptions/a"
        (Returned (MQTT_ERR_SUCCESS, Some 4))
        (AwaitEnv [OnSubscribe 9; OnConnect 0] false) init).2
     = Raised (Exn RequestError ["Subscription ACK timeout for prd/app_subscriptions/a"]).
Proof.
  split; [apply events_ok_init|].
  apply (subscribe_with_ack_timeout reject_all "prd/app_subscriptions/a" 4
           [OnSubscribe 9; OnConnect 0] init events_ok_init).
  apply (bool_decide_unpack _). by vm_compute.
Defined.

(** X10: once the pending entries are cleaned up after a reconnect, an
    acknowledgment for a request made before the drop finds no entry:
    it is logged and otherwise ignored, so the topic of that request is
    not recorded in the Topic Set and no event is set. *)
Theorem stale_ack_ignored mid s :
  let s0 := clear_stale_acks s in
  let s1 := _on_subscribe mid s0 in
  topics s1 = topics s
  /\ ack_sets s1 = ack_sets s
  /\ pending_acks s1 = ∅
  /\ trace s1 = trace s0 ++ [Log INFO (Msg_subscribed_unknown mid)].
Proof.
  intros s0 s1. subst s1. unfold _on_subscribe.
  assert (Hp : pending_acks s0 = ∅) by apply clear_stale_acks_pending.
  rewrite Hp, lookup_empty. simpl.
  destruct (clear_stale_acks_fields s) as (Ht & _ & Ha & _). done.
Qed.

(** ** Requested disconnects *)

Lemma dispatch_local hs device_id data s :
  let s' := (dispatch hs device_id data s).1 in
  disconnect_evt s' = disconnect_evt s /\ connect_task s' = connect_task s
  /\ next_task s' = next_task s /\ spawned (trace s') = spawned (trace s).
Proof.
  revert s. induction hs as [|h hs IH]; intros s; simpl; [done|].
  destruct data as [d|]; [|done].
  destruct (IH (emit s (EnsureFuture h device_id d))) as (-> & -> & -> & ->).
  simpl. rewrite spawned_app. simpl. by rewrite app_nil_r.
Qed.

Lemma on_message_local json_loads topic payload s :
  let s' := (_on_message json_loads topic payload s).1 in
  disconnect_evt s' = disconnect_evt s /\ connect_task s' = connect_task s
  /\ next_task s' = next_task s /\ spawned (trace s') = spawned (trace s).
Proof.
  unfold _on_message.
  set (sd := match json_loads payload with
             | Some d => (log s DEBUG (Msg_message_received topic payload), Some d)
             | None => (log (log s DEBUG (Msg_message_received topic payload)) INFO
                          (Msg_invalid_json payload), None)
             end).
  assert (H1 : disconnect_evt sd.1 = disconnect_evt s /\ connect_task sd.1 = connect_task s
               /\ next_task sd.1 = next_task s /\ spawned (trace sd.1) = spawned (trace s)).
  { subst sd. destruct (json_loads payload); simpl;
      rewrite ?spawned_app; simpl; by rewrite ?app_nil_r. }
  destruct sd as [s1 data]. simpl in H1.
  destruct (if String.prefix _ topic then _ else _) as [dev|e]; [|done].
  destruct (_handlers s1 !! "update") as [hs|]; [|done].
  destruct (dispatch_local hs dev data s1) as (-> & -> & -> & ->). done.
Qed.

(** While a disconnect signal is stored, no callback creates a task; the
    signal is set by the first disconnect callback and stays. *)
Lemma run_callback_local json_loads cb s b :
  disconnect_evt s = Some b ->
  let s' := run_callback json_loads cb s in
  disconnect_evt s' = Some (b || is_disconnect cb)
  /\ connect_task s' = connect_task s
  /\ next_task s' = next_task s
  /\ spawned (trace s') = spawned (trace s).
Proof.
  intros Hd. destruct cb as [rc|rc conn|mid|topic payload]; cbn [run_callback is_disconnect].
  - unfold _on_connect. case_bool_decide; simpl;
      rewrite ?spawned_app; simpl; by rewrite ?app_nil_r, Hd, orb_false_r.
  - unfold _on_disconnect. rewrite Hd. simpl.
    rewrite spawned_app. simpl. by rewrite app_nil_r, orb_true_r.
  - unfold _on_subscribe, add_topic.
    destruct (pending_acks s !! Some mid) as [[t|t e]|]; simpl;
      try case_bool_decide; simpl; rewrite ?spawned_app; simpl;
      by rewrite ?app_nil_r, Hd, orb_false_r.
  - destruct (on_message_local json_loads topic payload s) as (-> & -> & -> & ->).
    by rewrite Hd, orb_false_r.
Qed.

Lemma deliver_local json_loads cbs s b :
  disconnect_evt s = Some b ->
  let s' := deliver json_loads cbs s in
  disconnect_evt s' = Some (b || existsb is_disconnect cbs)
  /\ connect_task s' = connect_task s
  /\ next_task s' = next_task s
  /\ spawned (trace s') = spawned (trace s).
Proof.
  revert s b. induction cbs as [|cb cbs IH]; intros s b Hd.
  - simpl. by rewrite orb_false_r.
  - rewrite deliver_cons.
    destruct (run_callback_local json_loads cb s b Hd) as (H1 & H2 & H3 & H4).
    destruct (IH _ _ H1) as (H5 & H6 & H7 & H8). simpl.
    rewrite H5, H6, H7, H8, H2, H3, H4. by rewrite orb_assoc.
Qed.

(** X11: a disconnect that the application asked for never starts a
    reconnect: whatever transport callbacks run while
    [disconnect_and_wait] waits, no task is created; the wait ends
    exactly when a disconnect callback has come, and otherwise never
    ends. *)
Theorem disconnect_and_wait_no_reconnect json_loads cbs s :
  let run := disconnect_and_wait json_loads (AwaitEnv cbs false) s in
  spawned (trace run.1) = spawned (trace s)
  /\ connect_task run.1 = connect_task s
  /\ run.2 = (if existsb is_disconnect cbs then Some (Returned ()) else None).
Proof.
  unfold disconnect_and_wait. simpl.
  destruct (deliver_local json_loads cbs (disconnect s) false eq_refl)
    as (Hd & Ht & _ & Hs).
  rewrite Hd, Ht, Hs. simpl. unfold disconnect. simpl.
  rewrite !spawned_app. simpl. rewrite !app_nil_r.
  by destruct (existsb is_disconnect cbs).
Qed.

(** X12: the timer job creates exactly one reconnect task, started with
    [first = True], when it gets to the end: at once on a client that is
    not connected, and after the disconnect it requested is signalled on
    one that is; the disconnect callbacks of that wait create no task of
    their own.  When that disconnect is never signalled the job never
    resumes and no task is created. *)
Theorem process_reconnect_one_task json_loads conn w s :
  let run := _process_reconnect json_loads conn w s in
  let resumes := negb conn || negb (cancelled w) && existsb is_disconnect (callbacks w) in
  spawned (trace run.1)
  = spawned (trace s) ++ (if resumes then [(next_task s, true)] else [])
  /\ (resumes = true ->
      run.2 = Some (Returned ()) /\ connect_task run.1 = Some (next_task s))
  /\ (conn = true -> cancelled w = false ->
      existsb is_disconnect (callbacks w) = false -> run.2 = None).
Proof.
  unfold _process_reconnect. destruct conn; simpl.
  - match goal with |- context [deliver json_loads (callbacks w) ?x] =>
      destruct (deliver_local json_loads (callbacks w) x false eq_refl)
        as (Hd & Ht & Hn & Hs);
      set (s1 := deliver json_loads (callbacks w) x) in * end.
    simpl in Hd, Hn, Hs. rewrite !spawned_app in Hs. simpl in Hs.
    rewrite !app_nil_r in Hs.
    destruct (cancelled w); simpl.
    + rewrite Hs, app_nil_r. split; [done|]. split; done.
    + rewrite Hd. destruct (existsb is_disconnect (callbacks w)); simpl.
      * rewrite spawned_app, Hs, Hn. simpl. split; [done|]. split; done.
      * rewrite Hs, app_nil_r. split; [done|]. split; done.
  - rewrite !spawned_app. simpl. rewrite app_nil_r. split; [done|]. split; done.
Qed.

Lemma process_reconnect_one_task_witness :
  spawned (trace (_process_reconnect reject_all true
                    (AwaitEnv [OnDisconnect (Some 0) false; OnDisconnect None false] false)
                    init).1)
  = [(0%nat, true)].
Proof.
  destruct (process_reconnect_one_task reject_all true
              (AwaitEnv [OnDisconnect (Some 0) false; OnDisconnect None false] false)
              init) as (H & _).
  exact H.
Defined.

(** ** Edges of the reconnect cycle *)

(** X13: a cycle that connects at its twentieth attempt still logs that
    the maximum number of attempts was reached and that it gives up,
    because the test after the loop looks at the attempt count only; a
    cycle that connects earlier does not. *)
Theorem giving_up_logged_on_last_attempt json_loads env first s s1 n :
  cycle_exit json_loads (S max_attempts) env first s = Some (s1, n, Connected) ->
  _do_reconnect json_loads (S max_attempts) env first s
  = Some (reconnect_finally
            (if (n =? 20)%nat then log s1 ERROR (Msg_max_attempts 20) else s1),
          Returned ()).
Proof.
  intros Hexit. rewrite do_reconnect_unfold, Hexit.
  assert (Hflag : reconnect_evt s = false).
  { unfold cycle_exit, reconnect_enter in Hexit. by destruct (reconnect_evt s). }
  destruct (reconnect_enter_spec s Hflag) as (s0 & -> & _).
  destruct (cycle_exit_spec json_loads env first s Hflag)
    as (s1' & n' & why & new & Hexit' & Hn & _).
  rewrite Hexit in Hexit'. simplify_eq.
  replace (max_attempts <=? n')%nat with (n' =? 20)%nat; [done|].
  unfold max_attempts in *.
  destruct (n' =? 20)%nat eqn:E1; destruct (20 <=? n')%nat eqn:E2; try done.
  - apply Nat.eqb_eq in E1. apply Nat.leb_gt in E2. lia.
  - apply Nat.eqb_neq in E1. apply Nat.leb_le in E2. lia.
Qed.

Lemma giving_up_logged_on_last_attempt_witness :
  exists s1,
    cycle_exit reject_all (S max_attempts) late_env true dropped = Some (s1, 20%nat, Connected)
    /\ _do_reconnect reject_all (S max_attempts) late_env true dropped
       = Some (reconnect_finally (log s1 ERROR (Msg_max_attempts 20)), Returned ()).
Proof.
  assert (H : exists s1, cycle_exit reject_all (S max_attempts) late_env true dropped
                         = Some (s1, 20%nat, Connected)).
  { eexists. vm_compute. reflexivity. }
  destruct H as [s1 H]. exists s1. split; [exact H|].
  exact (giving_up_logged_on_last_attempt reject_all late_env true dropped s1 20 H).
Defined.

Lemma attempt_fetch_fails json_loads a last_err s :
  (cancelled (request_wait a) = true \/ exists e, request a = ReqRaises e) ->
  (attempt json_loads a last_err s).2 = Continue.
Proof.
  intros H. unfold attempt, attempt_body, attempt_connect, get_mqtt_info.
  destruct (cancelled (request_wait a)) eqn:Hc; simpl.
  - repeat case_bool_decide; done.
  - destruct H as [H|[e He]]; [done|]. rewrite He. simpl.
    repeat case_bool_decide; done.
Qed.

Lemma loop_runs_out json_loads env fuel :
  (forall k, cancelled (sleep_wait (env k)) = false
             /\ (cancelled (request_wait (env k)) = true
                 \/ exists e, request (env k) = ReqRaises e)) ->
  forall (k : nat) (first : bool) (t : Z) le s1,
    (k <= max_attempts)%nat -> (max_attempts - k < fuel)%nat ->
    exists s', reconnect_loop json_loads fuel env first k t le s1
               = Some (s', max_attempts, Exhausted).
Proof.
  intros Henv. induction fuel as [|fuel IH]; intros k f t le s1 Hk Hfuel; [lia|].
  simpl. destruct (k <? max_attempts)%nat eqn:Hlt.
  - apply Nat.ltb_lt in Hlt. destruct (Henv k) as [Hc He].
    assert (Hthr : (throttle json_loads f k t (sleep_wait (env k)) s1).2 = false).
    { unfold throttle. by destruct f. }
    destruct (throttle json_loads f k t (sleep_wait (env k)) s1) as [[s2 t2] c].
    simpl in Hthr. subst c.
    pose proof (attempt_fetch_fails json_loads (env k) le s2 He) as Hatt.
    destruct (attempt json_loads (env k) le s2) as [[s3 le3] ctl].
    simpl in Hatt. subst ctl. apply IH; lia.
  - apply Nat.ltb_ge in Hlt. exists s1. repeat f_equal. lia.
Qed.

(** X14: a cancellation of the reconnect task that lands on the request
    for the connection info is lost: the attempt counts as failed and
    the loop goes on.  A cycle in which every fetch fails or is
    cancelled, and no sleep is cancelled, makes its 20 attempts and
    returns normally; it does not raise [CancelledError]. *)
Theorem cancelled_fetch_is_swallowed json_loads env first s :
  reconnect_evt s = false ->
  (forall k, cancelled (sleep_wait (env k)) = false
             /\ (cancelled (request_wait (env k)) = true
                 \/ exists e, request (env k) = ReqRaises e)) ->
  (forall k last_err c, (attempt json_loads (env k) last_err c).2 = Continue)
  /\ exists s_loop,
       cycle_exit json_loads (S max_attempts) env first s
       = Some (s_loop, max_attempts, Exhausted)
       /\ _do_reconnect json_loads (S max_attempts) env first s
          = Some (reconnect_finally (log s_loop ERROR (Msg_max_attempts max_attempts)),
                  Returned ()).
Proof.
  intros Hflag Henv. split.
  - intros k le c. apply attempt_fetch_fails. by destruct (Henv k).
  - rewrite do_reconnect_unfold. unfold cycle_exit.
    destruct (reconnect_enter_spec s Hflag) as (s0 & -> & _).
    destruct (loop_runs_out json_loads env (S max_attempts) Henv 0 first 2
                (Exn Exception_ []) s0) as [s' Hs']; [lia|lia|].
    exists s'. split; [done|]. by rewrite Hs'.
Qed.

Lemma cancelled_fetch_is_swallowed_witness :
  reconnect_evt init = false
  /\ snd <$> _do_reconnect reject_all (S max_attempts)
               (fun _ => AttemptEnv quiet (ReqReturns JNull) (AwaitEnv [] true)
                           None quiet quiet
                           (fun _ => SubEnv (Returned (MQTT_ERR_SUCCESS, Some 1)) quiet false) [])
               true init
     = Some (Returned ()).
Proof.
  split; [reflexivity|].
  destruct (cancelled_fetch_is_swallowed reject_all
              (fun _ => AttemptEnv quiet (ReqReturns JNull) (AwaitEnv [] true)
                          None quiet quiet
                          (fun _ => SubEnv (Returned (MQTT_ERR_SUCCESS, Some 1)) quiet false) [])
              true init eq_refl) as [_ (s_loop & _ & ->)].
  - intros k. split; [reflexivity|]. by left.
  - reflexivity.
Defined.

Lemma loop_cancelled_in_sleep json_loads env (k : nat) fuel :
  (k < max_attempts)%nat ->
  (forall j, (j < k)%nat ->
             cancelled (sleep_wait (env j)) = false
             /\ (cancelled (request_wait (env j)) = true
                 \/ exists e, request (env j) = ReqRaises e)) ->
  cancelled (sleep_wait (env k)) = true ->
  forall (j : nat) (first : bool) (t : Z) le s1,
    (j <= k)%nat -> (first = true -> j < k)%nat -> (max_attempts - j < fuel)%nat ->
    exists s', reconnect_loop json_loads fuel env first j t le s1
               = Some (s', k, Escaped cancelled_error).
Proof.
  intros Hk Henv Hcancel.
  induction fuel as [|fuel IH]; intros j f t le s1 Hj Hf Hfuel; [lia|].
  simpl. replace (j <? max_attempts)%nat with true by (symmetry; apply Nat.ltb_lt; lia).
  destruct (decide (j = k)) as [->|Hne].
  - destruct f; [specialize (Hf eq_refl); lia|].
    unfold throttle. simpl. rewrite Hcancel. by eexists.
  - destruct (Henv j) as [Hc He]; [lia|].
    assert (Hthr : (throttle json_loads f j t (sleep_wait (env j)) s1).2 = false).
    { unfold throttle. by destruct f. }
    destruct (throttle json_loads f j t (sleep_wait (env j)) s1) as [[s2 t2] c].
    simpl in Hthr. subst c.
    pose proof (attempt_fetch_fails json_loads (env j) le s2 He) as Hatt.
    destruct (attempt json_loads (env j) le s2) as [[s3 le3] ctl].
    simpl in Hatt. subst ctl. apply IH; [lia|done|lia].
Qed.

(** X15: a cancellation that lands on a backoff sleep ends the cycle at
    once: when the sleep before attempt [k+1] is cancelled after [k]
    failed attempts, [_do_reconnect] raises [CancelledError] having made
    exactly [k] attempts, and its [finally] clause has run. *)
Theorem cancelled_backoff_ends_cycle json_loads env s (k : nat) :
  reconnect_evt s = false ->
  (0 < k < max_attempts)%nat ->
  (forall j, (j < k)%nat ->
             cancelled (sleep_wait (env j)) = false
             /\ (cancelled (request_wait (env j)) = true
                 \/ exists e, request (env j) = ReqRaises e)) ->
  cancelled (sleep_wait (env k)) = true ->
  exists s_loop new,
    cycle_exit json_loads (S max_attempts) env true s
    = Some (s_loop, k, Escaped cancelled_error)
    /\ _do_reconnect json_loads (S max_attempts) env true s
       = Some (reconnect_finally s_loop, Raised cancelled_error)
    /\ trace s_loop = trace s ++ new
    /\ attempts_made new = k.
Proof.
  intros Hflag Hk Henv Hcancel.
  destruct (cycle_exit_spec json_loads env true s Hflag)
    as (s1 & n & why & new & Hexit & Hn & Htr & Hd & _).
  assert (Hexit' : exists s', cycle_exit json_loads (S max_attempts) env true s
                              = Some (s', k, Escaped cancelled_error)).
  { unfold cycle_exit. destruct (reconnect_enter_spec s Hflag) as (s0 & -> & _).
    apply (loop_cancelled_in_sleep json_loads env k (S max_attempts)); try done; lia. }
  destruct Hexit' as [s' Hexit']. rewrite Hexit in Hexit'. simplify_eq.
  exists s', new. split; [done|].
  split.
  - rewrite do_reconnect_unfold, Hexit.
    by destruct (reconnect_enter_spec s Hflag) as (s0 & -> & _).
  - split; [done|]. unfold attempts_made. by rewrite Hd, length_map, length_seq.
Qed.

Lemma cancelled_backoff_ends_cycle_witness :
  reconnect_evt init = false
  /\ snd <$> _do_reconnect reject_all (S max_attempts) cancel_env true init
     = Some (Raised cancelled_error).
Proof.
  split; [reflexivity|].
  destruct (cancelled_backoff_ends_cycle reject_all cancel_env init 2 eq_refl)
    as (s_loop & new & _ & -> & _).
  - unfold max_attempts. lia.
  - intros j Hj. split.
    + by destruct j as [|[|j]]; [| |lia].
    + right. destruct j as [|[|j]]; [by eexists|by eexists|lia].
  - reflexivity.
  - reflexivity.
Defined.

(** ** The timer *)

Lemma cancel_job_length j jobs : length (cancel_job j jobs) = length jobs.
Proof.
  unfold cancel_job. destruct (jobs !! j) as [[t [| |]]|]; try done.
  by rewrite length_insert.
Qed.

Lemma cancel_job_lookup j jobs i t :
  cancel_job j jobs !! i = Some (t, JobPending) ->
  i <> j /\ jobs !! i = Some (t, JobPending).
Proof.
  unfold cancel_job. destruct (jobs !! j) as [[t0 st]|] eqn:E.
  - destruct st.
    + destruct (decide (i = j)) as [->|Hne].
      * rewrite list_lookup_insert_eq by (by eapply lookup_lt_Some). done.
      * rewrite list_lookup_insert_ne by done. done.
    + intros H. split; [|done]. intros ->. by simplify_eq.
    + intros H. split; [|done]. intros ->. by simplify_eq.
  - intros H. split; [|done]. intros ->. by simplify_eq.
Qed.

Lemma timer_ok_step tm op : timer_ok tm -> timer_ok (timer_step tm op).
Proof.
  intros Hok. destruct op as [timeout| |j]; simpl.
  - unfold Timer_start. intros i t. simpl.
    set (jobs := match _task tm with
                 | Some j => cancel_job j (timer_jobs tm)
                 | None => timer_jobs tm
                 end).
    intros Hi. apply lookup_app_Some in Hi as [Hi|[Hlen Hi]].
    + exfalso. subst jobs. destruct (_task tm) as [j|] eqn:Ht.
      * apply cancel_job_lookup in Hi as [Hne Hi]. apply Hok in Hi. congruence.
      * apply Hok in Hi. congruence.
    + destruct (i - length jobs)%nat as [|n] eqn:E; [|by destruct n].
      f_equal. lia.
  - unfold Timer_cancel. destruct (_task tm) as [j|] eqn:Ht; [|done].
    intros i t Hi. simpl in *. apply cancel_job_lookup in Hi as [Hne Hi].
    apply Hok in Hi. congruence.
  - unfold Timer_job_done. destruct (timer_jobs tm !! j) as [[t0 st]|] eqn:E; [|done].
    destruct st; try done. intros i t Hi. simpl in *.
    destruct (decide (i = j)) as [->|Hne].
    + rewrite list_lookup_insert_eq in Hi by (by eapply lookup_lt_Some). done.
    + rewrite list_lookup_insert_ne in Hi by done. by apply (Hok i t).
Qed.

Lemma timer_ok_run ops tm : timer_ok tm -> timer_ok (foldl timer_step tm ops).
Proof.
  revert tm. induction ops as [|op ops IH]; intros tm Hok; [done|].
  simpl. apply IH. by apply timer_ok_step.
Qed.

Lemma pending_none (jobs : list (Z * job_state)) :
  (forall i t, jobs !! i = Some (t, JobPending) -> False) ->
  omap (fun job : Z * job_state =>
          match job.2 with JobPending => Some job.1 | _ => None end) jobs = [].
Proof.
  induction jobs as [|[t st] jobs IH]; intros H; [done|].
  csimpl. destruct st; simpl.
  - exfalso. by apply (H 0%nat t).
  - apply IH. intros i t' Hi. by apply (H (S i) t').
  - apply IH. intros i t' Hi. by apply (H (S i) t').
Qed.

Lemma pending_at_most_one (jobs : list (Z * job_state)) :
  (forall i j t t', jobs !! i = Some (t, JobPending) ->
                    jobs !! j = Some (t', JobPending) -> i = j) ->
  (length (omap (fun job : Z * job_state =>
                   match job.2 with JobPending => Some job.1 | _ => None end) jobs)
   <= 1)%nat.
Proof.
  induction jobs as [|[t st] jobs IH]; intros H; [simpl; lia|].
  csimpl. destruct st; simpl.
  - rewrite pending_none; [simpl; lia|].
    intros i t' Hi. by specialize (H 0%nat (S i) t t' eq_refl Hi).
  - apply IH. intros i j t1 t2 Hi Hj. specialize (H (S i) (S j) t1 t2 Hi Hj). lia.
  - apply IH. intros i j t1 t2 Hi Hj. specialize (H (S i) (S j) t1 t2 Hi Hj). lia.
Qed.

(** X16: whatever sequence of [start], [cancel] and job completions the
    timer goes through, at most one of its jobs is still to fire, and
    that job is the one whose handle it holds; a [start] leaves exactly
    the new job to fire, a [cancel] leaves none. *)
Theorem timer_single_job (ops : list timer_op) :
  let tm := foldl timer_step Timer_init ops in
  (length (timer_pending tm) <= 1)%nat
  /\ (forall i t, timer_jobs tm !! i = Some (t, JobPending) -> _task tm = Some i)
  /\ (forall timeout, timer_pending (Timer_start timeout tm) = [timeout])
  /\ timer_pending (Timer_cancel tm) = [].
Proof.
  intros tm.
  assert (Hok : timer_ok tm).
  { apply timer_ok_run. intros i t Hi. by destruct i. }
  split; [|split; [exact Hok|split]].
  - apply pending_at_most_one. intros i j t t' Hi Hj.
    apply Hok in Hi. apply Hok in Hj. congruence.
  - intros timeout. unfold timer_pending, Timer_start. simpl.
    rewrite omap_app. rewrite pending_none; [done|].
    intros i t Hi. destruct (_task tm) as [j|] eqn:Ht.
    + apply cancel_job_lookup in Hi as [Hne Hi]. apply Hok in Hi. congruence.
    + apply Hok in Hi. congruence.
  - pose proof (timer_ok_step tm OpCancel Hok) as Hok'. simpl in Hok'.
    apply pending_none. intros i t Hi. apply Hok' in Hi.
    unfold Timer_cancel in Hi. destruct (_task tm) eqn:E; simpl in Hi; congruence.
Qed.

(** ** The socket helper *)

Lemma elem_of_misc_running t h :
  t ∈ misc_running h <-> (t < misc_created h)%nat /\ t ∉ misc_cancelled h.
Proof.
  unfold misc_running. rewrite elem_of_difference, elem_of_list_to_set, elem_of_seq.
  split; intros [? ?]; split; try done; lia.
Qed.

Lemma helper_ok_step open ev evs h :
  helper_ok open h -> one_socket_at_a_time open (ev :: evs) ->
  helper_ok (socket_in_use open [ev]) (socket_step h ev)
  /\ one_socket_at_a_time (socket_in_use open [ev]) evs.
Proof.
  intros [Hc Hopen] Hdisc.
  destruct ev as [sock|sock|sock|sock]; simpl in *; destruct Hdisc as [-> Hrest].
  - split; [|done]. destruct Hopen as [Hr Hm]. split.
    + intros t Ht. simpl. apply Hc in Ht. lia.
    + simpl. split; [rewrite Hr; set_solver|].
      exists (misc_created h). split; [done|].
      apply set_eq. intros t. rewrite elem_of_misc_running, elem_of_singleton. simpl.
      split.
      * intros [Hlt Hnc]. destruct (decide (t = misc_created h)); [done|].
        assert (Hin : t ∈ misc_running h) by (apply elem_of_misc_running; split; [lia|done]).
        rewrite Hm in Hin. set_solver.
      * intros ->. split; [lia|]. intros Hin. apply Hc in Hin. lia.
  - split; [|done]. destruct Hopen as [Hr (t & Ht & Hm)]. split.
    + intros t' Ht'. simpl in *. rewrite Ht in Ht'.
      apply elem_of_union in Ht' as [Ht'|Ht']; [|by apply Hc].
      apply elem_of_singleton in Ht'. subst.
      assert (Hin : t ∈ misc_running h) by (rewrite Hm; set_solver).
      by apply elem_of_misc_running in Hin as [? _].
    + simpl. split; [rewrite Hr; set_solver|].
      apply set_eq. intros t'. rewrite elem_of_misc_running. simpl. rewrite Ht.
      split; [|set_solver]. intros [Hlt Hnc].
      assert (Hin : t' ∈ misc_running h).
      { apply elem_of_misc_running. split; [done|]. set_solver. }
      rewrite Hm in Hin. set_solver.
  - split; [|done]. split; [done|]. done.
  - split; [|done]. split; [done|]. done.
Qed.

Lemma helper_ok_run evs open h :
  helper_ok open h -> one_socket_at_a_time open evs ->
  helper_ok (socket_in_use open evs) (foldl socket_step h evs).
Proof.
  revert open h. induction evs as [|ev evs IH]; intros open h Hok Hdisc; [done|].
  destruct (helper_ok_step open ev evs h Hok Hdisc) as [Hok' Hdisc'].
  specialize (IH _ _ Hok' Hdisc').
  destruct ev; exact IH.
Qed.

(** X17: while the transport uses one socket at a time, the helper keeps
    the event loop in step with it: after every callback the sockets
    watched for reading are exactly the open one, and of the
    [misc_loop] tasks created exactly one is not cancelled while a
    socket is open, the one the helper holds, and none when the socket
    is closed. *)
Theorem helper_follows_socket (evs : list socket_event) :
  one_socket_at_a_time None evs ->
  let h := foldl socket_step helper_init evs in
  match socket_in_use None evs with
  | Some sock =>
      readers h = {[sock]}
      /\ exists t, misc_task h = Some t /\ misc_running h = {[t]}
  | None => readers h = ∅ /\ misc_running h = ∅
  end.
Proof.
  intros Hdisc h.
  assert (Hinit : helper_ok None helper_init).
  { split; [by intros t Ht; apply elem_of_empty in Ht|]. split; [done|].
    apply set_eq. intros t. rewrite elem_of_misc_running. simpl. set_solver by lia. }
  by destruct (helper_ok_run evs None helper_init Hinit Hdisc) as [_ H].
Qed.

Lemma helper_follows_socket_witness :
  one_socket_at_a_time None
    [SocketOpen 5; SocketRegisterWrite 5; SocketUnregisterWrite 5; SocketClose 5;
     SocketOpen 6]
  /\ readers (foldl socket_step helper_init
                [SocketOpen 5; SocketRegisterWrite 5; SocketUnregisterWrite 5;
                 SocketClose 5; SocketOpen 6]) = {[6%nat]}.
Proof.
  assert (H : one_socket_at_a_time None
                [SocketOpen 5; SocketRegisterWrite 5; SocketUnregisterWrite 5;
                 SocketClose 5; SocketOpen 6]) by (simpl; tauto).
  split; [exact H|].
  by destruct (helper_follows_socket _ H) as [Hr _].
Defined.

(** X18: [misc_loop] ends at the first tick at which [loop_misc] does
    not report success or at which its sleep is cancelled, having slept
    through every tick before; it goes on as long as neither happens. *)
Theorem misc_loop_ends (ticks : list (Z * bool)) (n : nat) :
  misc_loop ticks = Some n
  <-> exists tick post,
        ticks = replicate n (MQTT_ERR_SUCCESS, false) ++ tick :: post
        /\ (tick.1 <> MQTT_ERR_SUCCESS \/ tick.2 = true).
Proof.
  revert n. induction ticks as [|[rc c] ticks IH]; intros n; simpl.
  - split; [done|]. intros (tick & post & H & _). by destruct n.
  - case_bool_decide as Hrc.
    + destruct c.
      * split.
        -- intros [= <-]. exists (rc, true), ticks. split; [done|by right].
        -- intros (tick & post & H & Ht). destruct n as [|n]; [done|].
           simpl in H. simplify_eq.
      * split.
        -- intros H. destruct (misc_loop ticks) as [m|] eqn:E; [|done].
           simpl in H. simplify_eq.
           destruct (proj1 (IH m) eq_refl) as (tick & post & -> & Ht).
           exists tick, post. split; [|done]. by rewrite ?Hrc.
        -- intros (tick & post & H & Ht). destruct n as [|n].
           ++ simpl in H. simplify_eq. simpl in Ht. by destruct Ht.
           ++ simpl in H. simplify_eq.
              rewrite (proj2 (IH n)); [done|]. by exists tick, post.
    + split.
      * intros [= <-]. exists (rc, c), ticks. split; [done|by left].
      * intros (tick & post & H & Ht). destruct n as [|n]; [done|].
        simpl in H. simplify_eq.
Qed.

(** ** Subscriptions, end to end *)

(** X19: a subscription sent with [subscribe] is recorded in the Topic
    Set when its acknowledgment comes, and its pending entry is removed
    then.  When the transport gave no message id, the entry sits under
    the key [None], which no acknowledgment carries: it stays through
    every acknowledgment.  When the transport gives a second request the
    message id of one still pending, the first entry is replaced and its
    topic is not recorded by the acknowledgment. *)
Theorem subscribe_then_ack topic res m s :
  (topic ∈ topics (_on_subscribe m (subscribe topic res (Some m) s))
   /\ pending_acks (_on_subscribe m (subscribe topic res (Some m) s)) !! Some m = None)
  /\ (forall acks,
        pending_acks (acknowledge acks (subscribe topic res None s)) !! None
        = Some (OldFormat topic))
  /\ (forall topic' res',
        topic ∉ topics s -> topic <> topic' ->
        let s' := _on_subscribe m (subscribe topic' res' (Some m)
                                     (subscribe topic res (Some m) s)) in
        (topic ∉ topics s') /\ (topic' ∈ topics s')).
Proof.
  split; [|split].
  - split.
    + apply (on_subscribe_adds m (OldFormat topic)). simpl. apply lookup_insert_eq.
    + rewrite on_subscribe_pending. apply lookup_delete_eq.
  - intros acks. rewrite acknowledge_pending.
    rewrite bool_decide_eq_false_2.
    + simpl. apply lookup_insert_eq.
    + intros Hin. apply list_elem_of_fmap in Hin as (x & Hx & _). done.
  - intros topic' res' Hnot Hne s'. subst s'.
    rewrite on_subscribe_topics. simpl. rewrite lookup_insert_eq. simpl.
    rewrite add_topic_topics. simpl. case_bool_decide; set_solver.
Qed.

Lemma run_callback_known json_loads cb s :
  pending_known s ->
  topics (run_callback json_loads cb s) = topics s
  /\ pending_known (run_callback json_loads cb s).
Proof.
  intros Hk.
  assert (Hcore : forall s', same_core s s' -> topics s' = topics s /\ pending_known s').
  { intros s' (Ht & _ & Hp & _). split; [done|]. unfold pending_known. by rewrite Ht, Hp. }
  destruct cb as [rc|rc conn|mid|topic payload]; cbn [run_callback].
  - apply Hcore, on_connect_core.
  - apply Hcore, on_disconnect_core.
  - assert (Ht : topics (_on_subscribe mid s) = topics s).
    { rewrite on_subscribe_topics.
      destruct (pending_acks s !! Some mid) as [p|] eqn:E; [|done].
      rewrite add_topic_topics. rewrite bool_decide_eq_true_2; [done|]. by eapply Hk. }
    split; [done|]. intros k p. rewrite Ht, on_subscribe_pending.
    intros Hp. apply lookup_delete_Some in Hp as [_ Hp]. by eapply Hk.
  - apply Hcore, on_message_core.
Qed.

Lemma deliver_known json_loads cbs s :
  pending_known s ->
  topics (deliver json_loads cbs s) = topics s
  /\ pending_known (deliver json_loads cbs s).
Proof.
  revert s. induction cbs as [|cb cbs IH]; intros s Hk; [done|].
  rewrite deliver_cons.
  destruct (run_callback_known json_loads cb s Hk) as [Ht Hk'].
  destruct (IH _ Hk') as [Ht' Hk'']. split; [congruence|done].
Qed.

Lemma subscribe_with_ack_run json_loads topic m cbs s :
  let s1 := (subscribe_with_ack_begin topic (Returned (MQTT_ERR_SUCCESS, Some m)) s).1 in
  let s2 := deliver json_loads cbs s1 in
  pending_acks s1 = <[Some m := WithEvent topic (next_evt s)]> (pending_acks s)
  /\ topics s1 = topics s
  /\ _subscribe_with_ack json_loads topic (Returned (MQTT_ERR_SUCCESS, Some m))
       (AwaitEnv cbs false) s
     = (s2, if bool_decide (next_evt s ∈ ack_sets s2)
            then Returned (MQTT_ERR_SUCCESS, Some m)
            else Raised (Exn RequestError
                           [("Subscription ACK timeout for " +:+ topic)%string])).
Proof.
  unfold _subscribe_with_ack, subscribe_with_ack_begin. simpl.
  split; [done|]. split; [done|]. by case_bool_decide.
Qed.

Lemma resubscribe_one_acknowledged json_loads topic e s :
  acknowledged_env e -> pending_acks s = ∅ -> topic ∈ topics s ->
  exists s', resubscribe_one json_loads topic e s = (s', true, None)
             /\ pending_acks s' = ∅ /\ topics s' = topics s.
Proof.
  intros (m & cbs & -> & Hin) Hp Ht.
  unfold resubscribe_one.
  cbn [sub_result sub_wait outer_timeout callbacks cancelled orb].
  destruct (subscribe_with_ack_run json_loads topic m cbs s) as (Hp1 & Ht1 & ->).
  set (s1 := (subscribe_with_ack_begin topic (Returned (MQTT_ERR_SUCCESS, Some m)) s).1) in *.
  destruct (deliver_acknowledged json_loads cbs s1 m topic (next_evt s) Hin)
    as (He & _ & Hm); [rewrite Hp1; apply lookup_insert_eq|].
  assert (Hk1 : pending_known s1).
  { intros k p. rewrite Hp1, Ht1, Hp. intros Hk.
    apply lookup_insert_Some in Hk as [[_ <-]|[_ Hk]]; [done|].
    by rewrite lookup_empty in Hk. }
  destruct (deliver_known json_loads cbs s1 Hk1) as [Htop _].
  assert (Hempty : pending_acks (deliver json_loads cbs s1) = ∅).
  { apply map_eq. intros k. rewrite lookup_empty.
    destruct (decide (k = Some m)) as [->|Hne]; [done|].
    apply deliver_pending_none. rewrite Hp1.
    rewrite lookup_insert_ne by done. by rewrite Hp, lookup_empty. }
  rewrite bool_decide_eq_true_2 by done.
  destruct ((subscribe_with_ack_begin topic (Returned (MQTT_ERR_SUCCESS, Some m)) s).2);
    simpl; (eexists; split; [done|]; split; [done|]; by rewrite Htop, Ht1).
Qed.

Lemma resubscribe_all_acknowledged json_loads ts env succ s :
  (forall topic, topic ∈ ts -> acknowledged_env (env topic)) ->
  pending_acks s = ∅ -> (forall topic, topic ∈ ts -> topic ∈ topics s) ->
  exists s', resubscribe_all json_loads ts env succ s
             = (s', list_to_set ts ∪ succ, None)
             /\ pending_acks s' = ∅ /\ topics s' = topics s.
Proof.
  revert succ s. induction ts as [|t ts IH]; intros succ s Henv Hp Hts.
  - simpl. exists s. split; [|done].
    assert (Heq : (∅ : gset string) ∪ succ = succ) by set_solver.
    by rewrite Heq.
  - simpl.
    destruct (resubscribe_one_acknowledged json_loads t (env t) s)
      as (s1 & -> & Hp1 & Ht1); [apply Henv; set_solver|done|apply Hts; set_solver|].
    destruct (IH ({[t]} ∪ succ) s1) as (s2 & -> & Hp2 & Ht2);
      [intros; apply Henv; set_solver|done
      |intros; rewrite Ht1; apply Hts; set_solver|].
    exists s2. split; [|split; [done|congruence]].
    assert (Heq : list_to_set ts ∪ ({[t]} ∪ succ) = {[t]} ∪ list_to_set ts ∪ succ)
      by set_solver.
    by rewrite Heq.
Qed.

(** X20: a reconnect restores the session when the broker answers: if an
    attempt observes the connection and every re-subscription is
    acknowledged while its caller waits, the attempt ends the loop, the
    log tells that all topics were re-subscribed, no pending entry is
    left, and the Topic Set is what it was. *)
Theorem reconnect_restores_session json_loads a last_err s s1 :
  attempt_connect json_loads a s = (s1, Returned true) ->
  (forall topic, topic ∈ topics s1 -> acknowledged_env (resubscribe a topic)) ->
  exists s2,
    attempt json_loads a last_err s = (s2, last_err, Break)
    /\ topics s2 = topics s1
    /\ pending_acks s2 = ∅
    /\ last (trace s2)
       = Some (Log INFO (Msg_resubscribed_all
                           (length (topics_to_subscribe (set_order a) s1)))).
Proof.
  intros Hconn Henv. unfold attempt, attempt_body. rewrite Hconn.
  unfold restore_subscriptions.
  rewrite topics_to_subscribe_cleared.
  destruct (topics_to_subscribe_spec (set_order a) s1) as (_ & Hin & _).
  destruct (resubscribe_all_acknowledged json_loads (topics_to_subscribe (set_order a) s1)
              (resubscribe a) ∅ (clear_stale_acks s1))
    as (s2 & -> & Hp2 & Ht2).
  - intros topic Ht. apply Henv. by apply Hin.
  - apply clear_stale_acks_pending.
  - intros topic Ht. rewrite clear_stale_acks_topics. by apply Hin.
  - rewrite bool_decide_eq_false_2 by set_solver.
    eexists. split; [done|]. simpl. rewrite Ht2, clear_stale_acks_topics.
    split; [done|]. split; [done|]. by rewrite last_snoc.
Qed.

Lemma reconnect_restores_session_witness :
  exists s2,
    attempt reject_all ack_env (Exn Exception_ []) dropped
    = (s2, Exn Exception_ [], Break)
    /\ topics s2 = topics dropped
    /\ pending_acks s2 = ∅.
Proof.
  assert (Hc : attempt_connect reject_all ack_env dropped
               = ((attempt_connect reject_all ack_env dropped).1, Returned true))
    by (by vm_compute).
  destruct (reconnect_restores_session reject_all ack_env (Exn Exception_ [])
              dropped _ Hc) as (s2 & Hatt & Ht & Hp & _).
  - intros topic _. exists 5, [OnSubscribe 5]. split; [reflexivity|].
    apply list_elem_of_singleton. reflexivity.
  - exists s2. split; [exact Hatt|]. split; [|exact Hp].
    rewrite Ht. by vm_compute.
Defined.

Lemma subscribe_then_ack_witness :
  topics (_on_subscribe 3 (subscribe "prd/app_subscriptions/b" 0 (Some 3)
                             (subscribe "prd/app_subscriptions/a" 0 (Some 3) init)))
  = ["prd/app_subscriptions/b"].
Proof.
  destruct (subscribe_then_ack "prd/app_subscriptions/a" 0 3 init) as (_ & _ & H).
  destruct (H "prd/app_subscriptions/b" 0) as [_ _].
  - apply not_elem_of_nil.
  - discriminate.
  - reflexivity.
Defined.

Lemma timer_single_job_witness :
  timer_pending (foldl timer_step Timer_init
                   [OpStart 5; OpStart 3600; OpJobDone 1; OpStart 7]) = [7]
  /\ _task (foldl timer_step Timer_init [OpStart 5; OpStart 3600]) = Some 1%nat.
Proof.
  split.
  - destruct (timer_single_job [OpStart 5; OpStart 3600; OpJobDone 1])
      as (_ & _ & H & _).
    exact (H 7).
  - destruct (timer_single_job [OpStart 5; OpStart 3600]) as (_ & H & _).
    exact (H 1%nat 3600 eq_refl).
Defined.

Lemma misc_loop_ends_witness :
  misc_loop [(MQTT_ERR_SUCCESS, false); (MQTT_ERR_SUCCESS, false); (7, false);
             (MQTT_ERR_SUCCESS, false)] = Some 2%nat.
Proof.
  apply (misc_loop_ends _ 2).
  exists (7, false), [(MQTT_ERR_SUCCESS, false)]. split; [reflexivity|].
  left. discriminate.
Defined.

(** ** The restoration of the subscriptions *)

(** Callbacks that do not acknowledge the message id of an entry leave
    the entry; no callback acknowledges the key [None]. *)
Lemma deliver_pending_stays json_loads cbs s k p :
  (forall m, k = Some m -> OnSubscribe m ∉ cbs) ->
  pending_acks s !! k = Some p ->
  pending_acks (deliver json_loads cbs s) !! k = Some p.
Proof.
  revert s. induction cbs as [|cb cbs IH]; intros s Hnot Hp; [done|].
  rewrite deliver_cons. apply IH; [intros m Hm; specialize (Hnot m Hm); set_solver|].
  rewrite run_callback_pending. destruct cb as [| |m'|]; try done.
  rewrite lookup_delete_ne; [done|]. intros <-. specialize (Hnot m' eq_refl). set_solver.
Qed.

Lemma trace_deliver json_loads cbs s :
  exists new, trace (deliver json_loads cbs s) = trace s ++ new.
Proof. destruct (deliver_frame json_loads cbs s) as (n & [_ H] & _). by exists n. Qed.

(** The record appended last to a trace that has grown is among what
    was appended. *)
Lemma last_record_new (tr tr' new : list effect) r :
  tr' ++ [r] = tr ++ new -> (length tr <= length tr')%nat -> r ∈ new.
Proof.
  intros Heq Hlen.
  assert (Hl : last (tr ++ new) = Some r) by (by rewrite <- Heq, last_snoc).
  destruct new as [|a new] using rev_ind; [|clear IHnew].
  - rewrite app_nil_r in Heq. apply (f_equal length) in Heq.
    rewrite length_app in Heq. simpl in Heq. lia.
  - rewrite app_assoc, last_snoc in Hl. injection Hl as ->. set_solver.
Qed.

(** One turn of the re-subscription loop, read against the world: the
    topic joins [successful_subs] exactly when the world acknowledges
    it, and otherwise the error record of its failure is logged. *)
Lemma resubscribe_one_run json_loads topic e s :
  events_ok s -> sub_env_ordinary e ->
  exists s' new,
    resubscribe_one json_loads topic e s = (s', acknowledges e, None)
    /\ events_ok s'
    /\ trace s' = trace s ++ new
    /\ (acknowledges e = false -> Log ERROR (resubscribe_error topic e) ∈ new).
Proof.
  intros Hok [Hc Hx].
  pose proof (resubscribe_one_fp events_kept events_kept_footprint json_loads topic e s)
    as (_ & _ & Hok').
  specialize (Hok' Hok).
  destruct (resubscribe_one_frame json_loads topic e s) as (n & [_ Htr] & _).
  revert Htr. generalize (TransportSubscribe topic :: n). clear n. intros n Htr.
  assert (Hgoal : forall s' ok,
             resubscribe_one json_loads topic e s = (s', ok, None) ->
             ok = acknowledges e ->
             (ok = false -> Log ERROR (resubscribe_error topic e) ∈ n) ->
             exists s' new,
               resubscribe_one json_loads topic e s = (s', acknowledges e, None)
               /\ events_ok s'
               /\ trace s' = trace s ++ new
               /\ (acknowledges e = false ->
                   Log ERROR (resubscribe_error topic e) ∈ new)).
  { intros s' ok Hrun Hack Hlog. rewrite Hrun in Hok', Htr. simpl in Hok', Htr.
    exists s', n. subst ok. split; [done|]. split; [done|]. split; [done|]. exact Hlog. }
  clear Hok'.
  destruct e as [sr [cbs c] ot]. simpl in Hc, Hx. subst c.
  destruct sr as [[res mid]|x].
  - destruct (decide (res = MQTT_ERR_SUCCESS)) as [->|Hres].
    + destruct ot.
      * (* the timeout of the loop expires during the wait *)
        assert (Hack : acknowledges (SubEnv (Returned (MQTT_ERR_SUCCESS, mid))
                                       (AwaitEnv cbs false) true) = false).
        { unfold acknowledges. simpl. destruct mid; [|done]. by rewrite andb_false_r. }
        rewrite Hack in *.
        unfold resubscribe_one, _subscribe_with_ack, subscribe_with_ack_begin in *.
        simpl in *.
        eapply Hgoal; [reflexivity|done|]. intros _.
        unfold resubscribe_error. simpl.
        eapply last_record_new; [exact Htr|].
        match goal with |- context [deliver json_loads cbs ?s1] =>
          destruct (trace_deliver json_loads cbs s1) as [n1 ->] end.
        simpl. rewrite !length_app. lia.
      * (* the caller waits for its event *)
        assert (Hdec : (exists m, mid = Some m /\ OnSubscribe m ∈ cbs)
                       \/ ~ (exists m, mid = Some m /\ OnSubscribe m ∈ cbs)).
        { destruct mid as [m|]; [|right; by intros (m & ? & _)].
          destruct (decide (OnSubscribe m ∈ cbs)) as [Hin|Hin]; [left; by exists m|].
          right. intros (m' & [= <-] & Hin'). done. }
        destruct Hdec as [(m & -> & Hin)|Hnone].
        -- assert (Hack : acknowledges (SubEnv (Returned (MQTT_ERR_SUCCESS, Some m))
                                          (AwaitEnv cbs false) false) = true).
           { unfold acknowledges. simpl. by rewrite !bool_decide_eq_true_2. }
           rewrite Hack in *.
           unfold resubscribe_one in *.
           cbn [sub_result sub_wait outer_timeout callbacks cancelled orb] in *.
           destruct (subscribe_with_ack_run json_loads topic m cbs s) as (Hp1 & _ & Hrun).
           rewrite Hrun in *.
           destruct (deliver_acknowledged json_loads cbs
                       (subscribe_with_ack_begin topic
                          (Returned (MQTT_ERR_SUCCESS, Some m)) s).1 m topic (next_evt s) Hin)
             as (He & _); [rewrite Hp1; apply lookup_insert_eq|].
           rewrite bool_decide_eq_true_2 in * by done.
           destruct ((subscribe_with_ack_begin topic
                        (Returned (MQTT_ERR_SUCCESS, Some m)) s).2); simpl in *;
             (eapply Hgoal; [reflexivity|done|intros Hf; discriminate Hf]).
        -- assert (Hack : acknowledges (SubEnv (Returned (MQTT_ERR_SUCCESS, mid))
                                          (AwaitEnv cbs false) false) = false).
           { unfold acknowledges. simpl. destruct mid as [m|]; [|done].
             rewrite (bool_decide_eq_false_2 (OnSubscribe m ∈ cbs));
               [by rewrite ?andb_false_r|].
             intros Hin. apply Hnone. by exists m. }
           rewrite Hack in *.
           pose proof (fp_begin events_kept events_kept_footprint topic
                         (Returned (MQTT_ERR_SUCCESS, mid)) s) as (_ & _ & Hok1).
           specialize (Hok1 Hok).
           unfold resubscribe_one, _subscribe_with_ack, subscribe_with_ack_begin in *.
           simpl in *.
           match type of Hok1 with events_ok ?x => set (s1 := x) in * end.
           assert (Hp1 : pending_acks s1 !! mid = Some (WithEvent topic (next_evt s)))
             by (subst s1; simpl; apply lookup_insert_eq).
           assert (Hnot : forall m, mid = Some m -> OnSubscribe m ∉ cbs).
           { intros m -> Hin. apply Hnone. by exists m. }
           pose proof (deliver_pending_stays json_loads cbs s1 mid _ Hnot Hp1) as Hp2.
           destruct (deliver_fp events_kept events_kept_footprint json_loads cbs s1)
             as (_ & _ & Hok2).
           specialize (Hok2 Hok1).
           destruct (trace_deliver json_loads cbs s1) as [n1 Hn1].
           set (s2 := deliver json_loads cbs s1) in *.
           assert (Hnotset : next_evt s ∉ ack_sets s2).
           { destruct Hok2 as (_ & _ & _ & H4 & _). by eapply H4. }
           rewrite bool_decide_eq_false_2 in * by done. simpl in *.
           eapply Hgoal; [reflexivity|done|]. intros _.
           unfold resubscribe_error. simpl.
           eapply last_record_new; [exact Htr|].
           rewrite Hn1. subst s1. simpl. rewrite !length_app. lia.
    + (* the transport refuses the request *)
      assert (Hack : acknowledges (SubEnv (Returned (res, mid)) (AwaitEnv cbs false) ot)
                     = false).
      { unfold acknowledges. simpl. destruct mid; [|done].
        by rewrite bool_decide_eq_false_2. }
      rewrite Hack in *.
      unfold resubscribe_one, _subscribe_with_ack, subscribe_with_ack_begin in *.
      simpl in *. rewrite (bool_decide_eq_true_2 (res ≠ MQTT_ERR_SUCCESS)) in * by done.
      simpl in *. rewrite (bool_decide_eq_false_2 (res = MQTT_ERR_SUCCESS)) in * by done.
      eapply Hgoal; [reflexivity|done|]. intros _.
      unfold resubscribe_error. simpl.
      rewrite (bool_decide_eq_false_2 (res = MQTT_ERR_SUCCESS)) by done.
      eapply last_record_new; [exact Htr|].
      simpl. rewrite !length_app. lia.
  - (* the request raises *)
    specialize (Hx x eq_refl).
    assert (Hack : acknowledges (SubEnv (Raised x) (AwaitEnv cbs false) ot) = false) by done.
    rewrite Hack in *.
    unfold resubscribe_one, _subscribe_with_ack, subscribe_with_ack_begin in *.
    unfold resubscribe_error in *. simpl in *.
    destruct (decide (exn_type x = TimeoutError)) as [Ht|Ht].
    + rewrite (bool_decide_eq_true_2 _ Ht) in *. simpl in *.
      eapply Hgoal; [reflexivity|done|]. intros _.
      eapply last_record_new; [exact Htr|].
      simpl. rewrite !length_app. lia.
    + rewrite (bool_decide_eq_false_2 _ Ht) in *. simpl in *.
      rewrite andb_false_r in *. simpl in *.
      destruct (decide (exn_type x = RequestError)) as [Hr|Hr].
      * rewrite (bool_decide_eq_true_2 _ Hr) in *. simpl in *.
        eapply Hgoal; [reflexivity|done|]. intros _.
        eapply last_record_new; [exact Htr|].
        simpl. rewrite !length_app. lia.
      * rewrite (bool_decide_eq_false_2 _ Hr) in *. rewrite Hx in *. simpl in *.
        eapply Hgoal; [reflexivity|done|]. intros _.
        eapply last_record_new; [exact Htr|].
        simpl. rewrite !length_app. lia.
Qed.

(** The re-subscription loop, read against the world: the topics that
    join [successful_subs] are those the world acknowledges, and every
    other topic of the list has its error record in the log. *)
Lemma resubscribe_all_run json_loads ts env succ s :
  events_ok s -> (forall topic, sub_env_ordinary (env topic)) ->
  exists s' new,
    resubscribe_all json_loads ts env succ s
    = (s', list_to_set (filter (fun topic => acknowledges (env topic) = true) ts) ∪ succ,
       None)
    /\ events_ok s'
    /\ trace s' = trace s ++ new
    /\ forall topic, topic ∈ ts -> acknowledges (env topic) = false ->
                     Log ERROR (resubscribe_error topic (env topic)) ∈ new.
Proof.
  intros Hok Hord. revert succ s Hok.
  induction ts as [|t ts IH]; intros succ s Hok.
  - exists s, []. simpl. split; [|split; [done|split; [by rewrite app_nil_r|]]].
    + assert (Heq : (∅ : gset string) ∪ succ = succ) by set_solver. by rewrite Heq.
    + intros topic Hin. by apply elem_of_nil in Hin.
  - destruct (resubscribe_one_run json_loads t (env t) s Hok (Hord t))
      as (s1 & n1 & Hrun & Hok1 & Htr1 & Hlog1).
    simpl. rewrite Hrun.
    destruct (IH (if acknowledges (env t) then {[t]} ∪ succ else succ) s1 Hok1)
      as (s2 & n2 & Hall & Hok2 & Htr2 & Hlog2).
    exists s2, (n1 ++ n2). rewrite Hall. split; [|split; [done|split]].
    + f_equal. f_equal. destruct (acknowledges (env t)) eqn:Ha.
      * rewrite filter_cons_True by done. set_solver.
      * rewrite filter_cons_False by (by rewrite Ha). done.
    + by rewrite Htr2, Htr1, app_assoc.
    + intros topic Hin Hno. apply elem_of_app.
      apply elem_of_cons in Hin as [->|Hin]; [left; by apply Hlog1|right; by apply Hlog2].
Qed.

(** C6: when an attempt observes the connection and no re-subscription
    is cut by a cancellation, the pending entries are all removed first;
    then [subscribe] is called once for each topic of the Topic Set and
    for nothing else, whatever the order of insertion and whatever the
    order in which the set yields the topics (every arrangement of the
    distinct topics is covered); a topic that the world
    does not acknowledge has the error record of its failure in the log,
    and the last record is the warning that counts and names exactly
    those topics, or the record of a full success when there is none;
    and the iteration ends in [break], which ends the loop at this
    attempt whatever the re-subscriptions did. *)
Theorem reconnect_restores_topics json_loads a last_err s s1 :
  events_ok s ->
  attempt_connect json_loads a s = (s1, Returned true) ->
  (forall topic, sub_env_ordinary (resubscribe a topic)) ->
  let ts := topics_to_subscribe (set_order a) s1 in
  let s0 := clear_stale_acks s1 in
  let failed : gset string :=
    list_to_set (filter (fun topic => acknowledges (resubscribe a topic) = false) ts) in
  pending_acks s0 = ∅
  /\ NoDup ts
  /\ (forall x, x ∈ ts <-> x ∈ topics s1)
  /\ (forall order c, (forall x, x ∈ topics c <-> x ∈ topics s1) ->
                      topics_to_subscribe order c ≡ₚ ts)
  /\ (forall p, p ≡ₚ ts -> exists order, topics_to_subscribe order s1 = p)
  /\ exists s2 new,
       attempt json_loads a last_err s = (s2, last_err, Break)
       /\ trace s2 = trace s0 ++ new
       /\ subscribed new = ts
       /\ (forall topic, topic ∈ ts -> acknowledges (resubscribe a topic) = false ->
             Log ERROR (resubscribe_error topic (resubscribe a topic)) ∈ new)
       /\ last new = Some (if bool_decide (failed ≠ ∅)
                           then Log WARNING (Msg_failed_topics (size failed) failed)
                           else Log INFO (Msg_resubscribed_all (length ts)))
       /\ forall fuel env first k t c t',
            env k = a -> (k < max_attempts)%nat ->
            throttle json_loads first k t (sleep_wait a) c = (s, t', false) ->
            reconnect_loop json_loads (S fuel) env first k t last_err c
            = Some (s2, S k, Connected).
Proof.
  intros Hok Hconn Hord ts s0 failed.
  split; [apply clear_stale_acks_pending|].
  destruct (topics_to_subscribe_spec (set_order a) s1) as (Hnd & Hin & Hany).
  split; [done|]. split; [done|]. split.
  { intros order c Hc. destruct (topics_to_subscribe_spec order c) as (Hnd' & Hin' & _).
    apply NoDup_Permutation; [done|done|]. intros x. rewrite Hin', Hc. symmetry. apply Hin. }
  split.
  { intros p Hp. exists p. apply Hany; [by rewrite Hp|].
    intros x. rewrite Hp. apply Hin. }
  assert (Hok1 : events_ok s1).
  { pose proof (attempt_connect_fp events_kept events_kept_footprint json_loads a s)
      as (_ & _ & H). rewrite Hconn in H. by apply H. }
  assert (Hok0 : events_ok s0).
  { pose proof (fp_clear events_kept events_kept_footprint s1) as (_ & _ & H). by apply H. }
  destruct (resubscribe_all_run json_loads ts (resubscribe a) ∅ s0 Hok0 Hord)
    as (s2 & n & Hrun & _ & Htr & Hlog).
  destruct (resubscribe_all_frame json_loads ts (resubscribe a) ∅ s0)
    as (n' & [_ Htr'] & _ & Hsub).
  rewrite Hrun in Htr', Hsub. simpl in Htr', Hsub. specialize (Hsub eq_refl).
  assert (n' = n) by (rewrite Htr in Htr'; by apply app_inv_head in Htr'). subst n'.
  set (succ := list_to_set (filter (fun topic => acknowledges (resubscribe a topic) = true) ts)
               ∪ (∅ : gset string)) in *.
  assert (Hfailed : list_to_set ts ∖ succ = failed).
  { apply set_eq. intros x. subst succ failed.
    rewrite elem_of_difference, elem_of_union, !elem_of_list_to_set, !list_elem_of_filter.
    destruct (acknowledges (resubscribe a x)); set_solver. }
  assert (Hres : restore_subscriptions json_loads (set_order a) (resubscribe a) s1
                 = (log s2 (if bool_decide (failed ≠ ∅) then WARNING else INFO)
                      (if bool_decide (failed ≠ ∅)
                       then Msg_failed_topics (size failed) failed
                       else Msg_resubscribed_all (length ts)),
                    Returned true)).
  { unfold restore_subscriptions. rewrite topics_to_subscribe_cleared.
    fold ts s0. rewrite Hrun. rewrite Hfailed.
    assert (Hiff : succ ≠ list_to_set ts <-> failed ≠ ∅).
    { rewrite <- Hfailed. subst succ. split.
      - intros Hne He. apply Hne. apply set_eq. intros x. split; [|intros Hx].
        + rewrite elem_of_union, !elem_of_list_to_set, list_elem_of_filter. set_solver.
        + destruct (decide (x ∈ list_to_set (filter
                     (fun topic => acknowledges (resubscribe a topic) = true) ts)
                     ∪ (∅ : gset string))) as [|Hn]; [done|].
          exfalso. assert (Hd : x ∈ (list_to_set ts : gset string)
                                  ∖ (list_to_set (filter
                     (fun topic => acknowledges (resubscribe a topic) = true) ts)
                     ∪ (∅ : gset string))) by set_solver.
          rewrite He in Hd. set_solver.
      - intros Hne He. apply Hne. rewrite He. set_solver. }
    rewrite (bool_decide_ext _ _ Hiff). by case_bool_decide. }
  assert (Hatt : forall le, attempt json_loads a le s
                 = (log s2 (if bool_decide (failed ≠ ∅) then WARNING else INFO)
                      (if bool_decide (failed ≠ ∅)
                       then Msg_failed_topics (size failed) failed
                       else Msg_resubscribed_all (length ts)), le, Break)).
  { intros le. unfold attempt, attempt_body. by rewrite Hconn, Hres. }
  eexists _, (n ++ [_]). split; [apply Hatt|]. simpl.
  split; [by rewrite Htr, app_assoc|].
  split; [rewrite subscribed_app, Hsub; by case_bool_decide; simpl; rewrite app_nil_r|].
  split; [intros topic Ht Ha; apply elem_of_app; left; by apply Hlog|].
  split; [rewrite last_snoc; by case_bool_decide|].
  intros fuel env first k t c t' Henv Hk Hthr. simpl.
  apply Nat.ltb_lt in Hk. rewrite Hk, Henv, Hthr. by rewrite Hatt.
Qed.

Lemma connect_env_ordinary topic : sub_env_ordinary (resubscribe connect_env topic).
Proof.
  unfold connect_env. simpl. case_bool_decide; split; simpl; try done.
Qed.

Lemma events_ok_dropped : events_ok dropped.
Proof.
  assert (Hp : forall k t e, pending_acks dropped !! k <> Some (WithEvent t e)).
  { intros k t e. unfold dropped. simpl. intros H.
    apply lookup_insert_Some in H as [[_ ?]|[_ H]]; [done|].
    apply lookup_insert_Some in H as [[_ ?]|[_ H]]; [done|].
    by rewrite lookup_empty in H. }
  split; [by intros e He; apply elem_of_nil in He|].
  split; [intros k t e H; by apply Hp in H|]. split; [apply NoDup_nil_2|].
  split; [intros k t e H; by apply Hp in H|].
  intros k1 k2 t1 t2 e H. by apply Hp in H.
Qed.

Lemma reconnect_restores_topics_witness :
  events_ok dropped
  /\ (attempt_connect reject_all connect_env dropped).2 = Returned true
  /\ exists s2,
       attempt reject_all connect_env (Exn Exception_ []) dropped
       = (s2, Exn Exception_ [], Break)
       /\ subscribed (trace s2)
          = ["prd/app_subscriptions/c"; "prd/app_subscriptions/a";
             "prd/app_subscriptions/b"]
       /\ Log ERROR (Msg_unexpected_resubscribing "prd/app_subscriptions/b"
                       (Exn TimeoutError [])) ∈ trace s2.
Proof.
  assert (Hc : attempt_connect reject_all connect_env dropped
               = ((attempt_connect reject_all connect_env dropped).1, Returned true))
    by (by vm_compute).
  split; [apply events_ok_dropped|]. split; [by rewrite Hc|].
  destruct (reconnect_restores_topics reject_all connect_env (Exn Exception_ [])
              dropped _ events_ok_dropped Hc connect_env_ordinary)
    as (_ & _ & _ & _ & _ & s2 & new & Hatt & Htr & Hsub & Herr & _).
  exists s2. split; [exact Hatt|]. rewrite Htr. split.
  - rewrite subscribed_app, Hsub. by vm_compute.
  - apply elem_of_app. right.
    apply (Herr "prd/app_subscriptions/b"); [|reflexivity].
    apply (bool_decide_unpack _). by vm_compute.
Defined.

(** ** What leaves the message callback *)

Lemma device_id_of_returns topic : exists dev, device_id_of topic = Returned dev.
Proof.
  unfold device_id_of. destruct (String.prefix "prd/app_subscriptions/" topic) eqn:E.
  - destruct (device_segment topic E) as [seg ->]. by eexists.
  - by eexists.
Qed.

(** The handler loop is left by an exception exactly at the first
    handler that cannot be scheduled. *)
Lemma inbound_dispatch_raises schedule hs dev d s e :
  (Inbound.dispatch schedule hs dev (Some d) s).2 = Raised e
  <-> exists hs1 h hs2,
        hs = hs1 ++ h :: hs2
        /\ (forall h', h' ∈ hs1 -> schedule h' dev d = None)
        /\ schedule h dev d = Some e.
Proof.
  revert s. induction hs as [|h hs IH]; intros s; simpl.
  - split; [done|]. intros (hs1 & h & hs2 & H & _). by destruct hs1.
  - destruct (schedule h dev d) as [e'|] eqn:E; simpl.
    + split.
      * intros [= ->]. exists [], h, hs. split; [done|]. split; [|done].
        intros h' Hh'. by apply elem_of_nil in Hh'.
      * intros (hs1 & h0 & hs2 & Heq & Hall & Hs). destruct hs1 as [|h1 hs1].
        -- simpl in Heq. injection Heq as <- <-. congruence.
        -- simpl in Heq. injection Heq as <- ->.
           rewrite Hall in E by set_solver. done.
    + rewrite IH. split.
      * intros (hs1 & h0 & hs2 & -> & Hall & Hs). exists (h :: hs1), h0, hs2.
        split; [done|]. split; [|done]. intros h' Hh'.
        apply elem_of_cons in Hh' as [->|Hh']; [done|by apply Hall].
      * intros (hs1 & h0 & hs2 & Heq & Hall & Hs). destruct hs1 as [|h1 hs1].
        -- simpl in Heq. injection Heq as <- <-. congruence.
        -- simpl in Heq. injection Heq as <- ->. exists hs1, h0, hs2.
           split; [done|]. split; [|done]. intros h' Hh'. apply Hall. set_solver.
Qed.

Lemma inbound_dispatch_agrees hs dev data s :
  Inbound.dispatch coroutine_handlers hs dev data s = dispatch hs dev data s.
Proof.
  revert s. induction hs as [|h hs IH]; intros s; simpl; [done|].
  destruct data as [d|]; [|done]. apply IH.
Qed.

(** X4: with the registry as [__init__] built it and a topic that is
    text, an exception leaves [_on_message] in exactly four ways: the
    decoding of the payload raised it; [json.loads] raised it and it is
    not a [JSONDecodeError]; [json.loads] raised [JSONDecodeError], an
    [update] handler is registered and the exception is the
    [UnboundLocalError] on [data]; or the payload is a document and the
    exception is what the first handler that cannot be scheduled raised,
    the handlers before it being scheduled.  It never fails on the topic
    or on the registry.  When the payload decodes, [json.loads] fails by
    [JSONDecodeError] only and the handlers are coroutine functions, the
    callback is the one the other properties are about. *)
Theorem on_message_raises_iff decoded loads schedule topic s e :
  registry_ok s ->
  ((Inbound._on_message decoded loads schedule topic s).2 = Raised e
   <-> decoded = Raised e
       \/ exists msg dev,
            decoded = Returned msg /\ device_id_of topic = Returned dev
            /\ (loads msg = LoadsRaises e
                \/ (loads msg = DecodeError /\ e = unbound_local "data"
                    /\ exists h hs, _handlers s !! "update" = Some (h :: hs))
                \/ exists d hs1 h hs2,
                     loads msg = Loaded d
                     /\ _handlers s !! "update" = Some (hs1 ++ h :: hs2)
                     /\ (forall h', h' ∈ hs1 -> schedule h' dev d = None)
                     /\ schedule h dev d = Some e))
  /\ forall json_loads payload,
       Inbound._on_message (Returned payload) (loads_of json_loads)
         coroutine_handlers topic s
       = _on_message json_loads topic payload s.
Proof.
  intros Hok. split.
  - destruct (proj2 (Hok "update")) as [hs Hhs]; [set_solver|].
    destruct (device_id_of_returns topic) as [dev Hdev].
    unfold Inbound._on_message. destruct decoded as [msg|e0]; simpl.
    + rewrite Hdev.
      destruct (loads msg) as [d| |e0] eqn:Hl; simpl; [rewrite Hhs| rewrite Hhs|].
      * rewrite inbound_dispatch_raises. split.
        -- intros (hs1 & h & hs2 & -> & Hall & Hs). right. exists msg, dev.
           split; [done|]. split; [done|]. right. right. by exists d, hs1, h, hs2.
        -- intros [?|(msg' & dev' & [= <-] & [= <-] & [H|[H|H]])]; try done.
           ++ congruence.
           ++ destruct H as [? _]. congruence.
           ++ destruct H as (d' & hs1 & h & hs2 & Hd & Hh & Hall & Hs).
              assert (d' = d) by congruence. subst d'.
              exists hs1, h, hs2. split; [congruence|done].
      * destruct hs as [|h hs]; simpl.
        -- split; [done|].
           intros [?|(msg' & dev' & [= <-] & [= <-] & [H|[H|H]])]; try done.
           ++ congruence.
           ++ by destruct H as (_ & _ & ? & ? & ?).
           ++ destruct H as (d' & ? & ? & ? & ? & _). congruence.
        -- split.
           ++ intros [= <-]. right. exists msg, dev. split; [done|]. split; [done|].
              right. left. split; [done|]. split; [done|]. by exists h, hs.
           ++ intros [?|(msg' & dev' & [= <-] & [= <-] & [H|[H|H]])]; try done.
              ** congruence.
              ** by destruct H as (_ & -> & _).
              ** destruct H as (d' & ? & ? & ? & ? & _). congruence.
      * split.
        -- intros [= ->]. right. exists msg, dev. split; [done|]. split; [done|]. by left.
        -- intros [?|(msg' & dev' & [= <-] & [= <-] & [H|[H|H]])]; try done.
           ++ congruence.
           ++ destruct H as [? _]. congruence.
           ++ destruct H as (d' & ? & ? & ? & ? & _). congruence.
    + split.
      * intros [= ->]. by left.
      * intros [[= ->]|(msg' & dev' & ? & _)]; done.
  - intros json_loads payload. unfold Inbound._on_message, _on_message, loads_of.
    fold (device_id_of topic).
    destruct (json_loads payload) as [d|]; simpl;
      destruct (device_id_of topic) as [dev|e0]; try done;
      match goal with |- context [_handlers ?x !! "update"] =>
        destruct (_handlers x !! "update") end; try done;
      apply inbound_dispatch_agrees.
Qed.

Lemma on_message_raises_iff_witness :
  registry_ok init
  /\ (Inbound._on_message (Returned "[[[[") (fun _ => LoadsRaises recursion_error)
        coroutine_handlers "prd/app_subscriptions/device-42/state" init).2
     = Raised recursion_error.
Proof.
  split; [apply registry_ok_init|].
  apply (on_message_raises_iff (Returned "[[[[") (fun _ => LoadsRaises recursion_error)
           coroutine_handlers "prd/app_subscriptions/device-42/state" init
           recursion_error registry_ok_init).
  right. exists "[[[[", (Some "device-42"). split; [reflexivity|].
  split; [reflexivity|]. left. reflexivity.
Defined.
